(** * Firecrawl content migrator: crawl route, URL tree and export formatter

  A shallow embedding of the crawl endpoint ([src/app/api/crawl/route.ts])
  with its schema-inference endpoint, and of the client page: tree
  builder, tree selection, mapping below a node, schema editor and export
  formatter, followed by the properties established about them.

  Conventions of the embedding:
  - a JavaScript string is a [string] (a sequence of 8-bit code units);
    white space is that of these code units, case mapping is the ASCII
    one;
  - a Number is carried by its ECMAScript [ToString] image, so that
    [String(n)] and JSON text are read off directly and no floating-point
    arithmetic is needed ([-0] prints as [0]);
  - an object is an association list in property-enumeration order;
  - an optional property is an [option]; [None] reads as [undefined]. *)

From Stdlib Require Import List String Ascii Bool Arith Lia Permutation.
From Stdlib Require Import Decimal DecimalString DecimalNat NArith.
Import ListNotations.

Local Open Scope string_scope.
Local Open Scope list_scope.
Local Open Scope nat_scope.

#[local] Set Warnings "-register-all,-abstract-large-number".

(* ================================================================== *)
(** * Host-language primitives *)
(* ================================================================== *)

Module Js.

(** ** Characters *)

Definition LF : ascii := ascii_of_nat 10.
Definition CR : ascii := ascii_of_nat 13.
Definition TAB : ascii := ascii_of_nat 9.
Definition QUOTE : ascii := ascii_of_nat 34.
Definition COMMA : ascii := ascii_of_nat 44.
Definition SPACE : ascii := ascii_of_nat 32.

Definition inRange (lo hi : nat) (c : ascii) : bool :=
  let n := nat_of_ascii c in (lo <=? n) && (n <=? hi).

Definition isDigit (c : ascii) : bool := inRange 48 57 c.
Definition isUpper (c : ascii) : bool := inRange 65 90 c.
Definition isLower (c : ascii) : bool := inRange 97 122 c.
Definition isAlpha (c : ascii) : bool := isUpper c || isLower c.

(** [\s], and what [trim] removes: tab, line feed, vertical tab, form
    feed, carriage return, space and the no-break space (code unit 160). *)
Definition isSpace (c : ascii) : bool :=
  inRange 9 13 c || (nat_of_ascii c =? 32) || (nat_of_ascii c =? 160).

(** Line terminators, as seen by [.], [^] and [$]. *)
Definition isLineTerminator (c : ascii) : bool :=
  Ascii.eqb c LF || Ascii.eqb c CR.

Definition lowerChar (c : ascii) : ascii :=
  if isUpper c then ascii_of_nat (nat_of_ascii c + 32) else c.

Definition eqbNoCase (a b : ascii) : bool :=
  Ascii.eqb (lowerChar a) (lowerChar b).

(** ** Strings *)

Fixpoint mapChars (f : ascii -> ascii) (s : string) : string :=
  match s with
  | EmptyString => EmptyString
  | String c s' => String (f c) (mapChars f s')
  end.

Definition toLowerCase (s : string) : string := mapChars lowerChar s.

Fixpoint anyChar (p : ascii -> bool) (s : string) : bool :=
  match s with
  | EmptyString => false
  | String c s' => p c || anyChar p s'
  end.

Fixpoint startsWith (pre s : string) : bool :=
  match pre, s with
  | EmptyString, _ => true
  | String a pre', String b s' => Ascii.eqb a b && startsWith pre' s'
  | String _ _, EmptyString => false
  end.

(** [s.includes(sub)] *)
Fixpoint includes (sub s : string) : bool :=
  startsWith sub s ||
  match s with
  | EmptyString => false
  | String _ s' => includes sub s'
  end.

(** [s.substring(0, n)] *)
Fixpoint take (n : nat) (s : string) : string :=
  match n, s with
  | S n', String c s' => String c (take n' s')
  | _, _ => EmptyString
  end.

Fixpoint drop (n : nat) (s : string) : string :=
  match n, s with
  | S n', String _ s' => drop n' s'
  | _, _ => s
  end.

Fixpoint trimStart (s : string) : string :=
  match s with
  | String c s' => if isSpace c then trimStart s' else s
  | EmptyString => EmptyString
  end.

(** Drops trailing white space: a character is kept when something
    other than white space follows it or it is not white space itself. *)
Fixpoint trimEnd (s : string) : string :=
  match s with
  | EmptyString => EmptyString
  | String c s' =>
      match trimEnd s' with
      | EmptyString => if isSpace c then EmptyString else String c EmptyString
      | t => String c t
      end
  end.

Definition trim (s : string) : string := trimEnd (trimStart s).

(** [s.split(sep)] for a one-character separator: the accumulator holds
    the piece being read. *)
Fixpoint splitAcc (sep : ascii) (acc : string) (s : string) : list string :=
  match s with
  | EmptyString => [acc]
  | String c s' =>
      if Ascii.eqb c sep then acc :: splitAcc sep EmptyString s'
      else splitAcc sep (acc ++ String c EmptyString)%string s'
  end.

Definition split (sep : ascii) (s : string) : list string :=
  splitAcc sep EmptyString s.

(** [xs.join(sep)] on strings. *)
Fixpoint join (sep : string) (xs : list string) : string :=
  match xs with
  | [] => EmptyString
  | [x] => x
  | x :: rest => (x ++ sep ++ join sep rest)%string
  end.

Definition nonEmpty (s : string) : bool :=
  match s with EmptyString => false | _ => true end.

(** Decimal rendering of a non-negative integer, as a template literal
    prints an array index or a length. *)
Definition natToString (n : nat) : string :=
  NilEmpty.string_of_uint (Nat.to_uint n).

(** [s.replace(/\r?\n/g, ' ')] *)
Fixpoint replaceNewlines (s : string) : string :=
  match s with
  | EmptyString => EmptyString
  | String c s' =>
      if Ascii.eqb c LF then String SPACE (replaceNewlines s')
      else if Ascii.eqb c CR then
        match s' with
        | String d s'' =>
            if Ascii.eqb d LF then String SPACE (replaceNewlines s'')
            else String c (replaceNewlines s')
        | EmptyString => String c EmptyString
        end
      else String c (replaceNewlines s')
  end.

(** [s.replace(/x/g, 'xx')] for the double quote [x]. *)
Fixpoint doubleQuotes (s : string) : string :=
  match s with
  | EmptyString => EmptyString
  | String c s' =>
      if Ascii.eqb c QUOTE then String QUOTE (String QUOTE (doubleQuotes s'))
      else String c (doubleQuotes s')
  end.

(** [s.replace(/[p]+/g, '-')]: every maximal run of characters satisfying
    [p] becomes one hyphen. [inRun] tells that the previous character was
    part of a run. *)
Fixpoint hyphenateRuns (p : ascii -> bool) (inRun : bool) (s : string) : string :=
  match s with
  | EmptyString => EmptyString
  | String c s' =>
      if p c then
        if inRun then hyphenateRuns p true s'
        else String "-" (hyphenateRuns p true s')
      else String c (hyphenateRuns p false s')
  end.

(** [s.replace(/[p]/g, '')] *)
Fixpoint removeChars (p : ascii -> bool) (s : string) : string :=
  match s with
  | EmptyString => EmptyString
  | String c s' => if p c then removeChars p s' else String c (removeChars p s')
  end.

(** Removes a final hyphen. *)
Fixpoint dropFinalHyphen (s : string) : string :=
  match s with
  | EmptyString => EmptyString
  | String c EmptyString => if Ascii.eqb c "-" then EmptyString else s
  | String c s' => String c (dropFinalHyphen s')
  end.

(** [s.replace(/^-|-$/g, '')]: one hyphen off the front, then one off the
    end of what follows it. *)
Definition stripEdgeHyphens (s : string) : string :=
  match s with
  | String c s' => if Ascii.eqb c "-" then dropFinalHyphen s' else dropFinalHyphen s
  | EmptyString => EmptyString
  end.

(** ** Values *)

Inductive Value : Type :=
| VNull
| VBool (b : bool)
| VNum (repr : string)
| VStr (s : string)
| VArr (items : list Value)
| VObj (fields : list (string * Value)).

Definition Obj : Type := list (string * Value).

(** [ToBoolean]. The Number zero prints as [0] and NaN as [NaN]. *)
Definition truthy (v : Value) : bool :=
  match v with
  | VNull => false
  | VBool b => b
  | VNum r => negb (String.eqb r "0" || String.eqb r "NaN")
  | VStr s => nonEmpty s
  | VArr _ => true
  | VObj _ => true
  end.

(** [String(v)]: arrays join their elements with a comma, [null]
    elements printing as nothing; objects print as [[object Object]]. *)
Fixpoint toStr (v : Value) : string :=
  match v with
  | VNull => "null"
  | VBool true => "true"
  | VBool false => "false"
  | VNum r => r
  | VStr s => s
  | VArr items =>
      join "," (map (fun x => match x with VNull => EmptyString | _ => toStr x end) items)
  | VObj _ => "[object Object]"
  end.

(** Own-property read [o[k]]. *)
Fixpoint get (k : string) (o : Obj) : option Value :=
  match o with
  | [] => None
  | (k', v) :: o' => if String.eqb k k' then Some v else get k o'
  end.

(** An array index: the canonical decimal text of an integer below
    [2^32 - 1]. Objects list such keys first, in ascending order. *)
Fixpoint digitsValue (s : string) (acc : N) : option N :=
  match s with
  | EmptyString => Some acc
  | String c s' =>
      if isDigit c
      then digitsValue s' (acc * 10 + N.of_nat (nat_of_ascii c - 48))%N
      else None
  end.

Definition arrayIndex (k : string) : option N :=
  match k with
  | EmptyString => None
  | String c rest =>
      if Ascii.eqb c "0" && nonEmpty rest then None
      else
        match digitsValue k 0%N with
        | Some n => if (n <? 4294967295)%N then Some n else None
        | None => None
        end
  end.

(** Whether a new key [k] is listed before the existing key [k']. *)
Definition listedBefore (k k' : string) : bool :=
  match arrayIndex k, arrayIndex k' with
  | Some n, Some n' => (n <? n')%N
  | Some _, None => true
  | None, _ => false
  end.

Fixpoint hasKey {A : Type} (k : string) (o : list (string * A)) : bool :=
  match o with
  | [] => false
  | (k', _) :: o' => String.eqb k k' || hasKey k o'
  end.

Fixpoint replaceValue {A : Type} (k : string) (v : A) (o : list (string * A))
  : list (string * A) :=
  match o with
  | [] => []
  | (k', v') :: o' =>
      if String.eqb k k' then (k, v) :: o' else (k', v') :: replaceValue k v o'
  end.

(** Where a property that is new to an object is listed. *)
Fixpoint placeNew {A : Type} (k : string) (v : A) (o : list (string * A))
  : list (string * A) :=
  match o with
  | [] => [(k, v)]
  | (k', v') :: o' =>
      if listedBefore k k' then (k, v) :: (k', v') :: o'
      else (k', v') :: placeNew k v o'
  end.

(** Property write [o[k] = v]: an existing key keeps its place; a new
    array index goes among the indices, any other new key at the end. *)
Definition set {A : Type} (k : string) (v : A) (o : list (string * A))
  : list (string * A) :=
  if hasKey k o then replaceValue k v o else placeNew k v o.

(** Assignment [o[k] = v] to an ordinary object under a key computed at
    run time: the key [__proto__] reaches the accessor inherited from
    [Object.prototype] and defines no property. *)
Definition assign {A : Type} (k : string) (v : A) (o : list (string * A))
  : list (string * A) :=
  if String.eqb k "__proto__" then o else set k v o.

(** The object obtained by defining the entries one after the other. *)
Definition fromEntries (entries : list (string * Value)) : Obj :=
  fold_left (fun acc kv => set (fst kv) (snd kv) acc) entries [].

(** A list of entries that is the enumeration of an object: no key twice,
    array indices first and ascending. *)
Definition wellFormed (o : Obj) : Prop := fromEntries o = o.

Definition keys (o : Obj) : list string := map fst o.
Definition values (o : Obj) : list Value := map snd o.

(** [a || b] where either side may be [undefined]. *)
Definition truthyOpt (a : option Value) : bool :=
  match a with Some v => truthy v | None => false end.

Definition orOpt (a b : option Value) : option Value :=
  if truthyOpt a then a else b.

(** [a || d] with a defined right-hand side. *)
Definition orElse (a : option Value) (d : Value) : Value :=
  match a with
  | Some v => if truthy v then v else d
  | None => d
  end.

(** [n || m] on array lengths. *)
Definition orNat (n m : nat) : nat := if n =? 0 then m else n.

(** A computation that may throw. *)
Inductive Result (A : Type) : Type :=
| Ok (a : A)
| Throw (message : string).
Arguments Ok {A} a.
Arguments Throw {A} message.

End Js.

(* ================================================================== *)
(** * Regular expressions (the fragment the sources use) *)
(* ================================================================== *)

Module Regex.

Inductive regex : Type :=
| Eps
| Cls (p : ascii -> bool)
| Cat (r1 r2 : regex)
| Alt (r1 r2 : regex)
| Rep (lo : nat) (hi : option nat) (r : regex)
| Grp (i : nat) (r : regex)
| Bol
| Eol.

(** Matcher state: the character before the current position, the
    input still to read, and the captures recorded so far. *)
Record MState : Type := mkState {
  prev : option ascii;
  rest : string;
  caps : list (nat * string)
}.

Definition Cont : Type := MState -> option MState.

(** Greedy bounded repetition, following RepeatMatcher: an iteration that
    is not required and consumes nothing is rejected. *)
Fixpoint repeat (body : Cont -> Cont) (fuel lo : nat) (hi : option nat)
         (k : Cont) (st : MState) : option MState :=
  match fuel with
  | 0 => None
  | S fuel' =>
      match hi with
      | Some 0 => k st
      | _ =>
          let d (st' : MState) :=
            if (lo =? 0) && (String.length (rest st') =? String.length (rest st))
            then None
            else repeat body fuel' (pred lo) (option_map pred hi) k st' in
          if lo =? 0 then
            match body d st with
            | Some z => Some z
            | None => k st
            end
          else body d st
      end
  end.

Fixpoint run (r : regex) (k : Cont) (st : MState) : option MState :=
  match r with
  | Eps => k st
  | Cls p =>
      match rest st with
      | String c s' => if p c then k (mkState (Some c) s' (caps st)) else None
      | EmptyString => None
      end
  | Cat r1 r2 => run r1 (run r2 k) st
  | Alt r1 r2 =>
      match run r1 k st with
      | Some z => Some z
      | None => run r2 k st
      end
  | Rep lo hi r' =>
      repeat (run r') (lo + String.length (rest st) + 1) lo hi k st
  | Grp i r' =>
      run r' (fun st' =>
        let n := String.length (rest st) - String.length (rest st') in
        k (mkState (prev st') (rest st') ((i, Js.take n (rest st)) :: caps st'))) st
  | Bol =>
      match prev st with
      | None => k st
      | Some c => if Js.isLineTerminator c then k st else None
      end
  | Eol =>
      match rest st with
      | EmptyString => k st
      | String c _ => if Js.isLineTerminator c then k st else None
      end
  end.

(** A successful match: the matched text and the captures. *)
Record Match : Type := mkMatch {
  whole : string;
  groups : list (nat * string)
}.

Definition matchAt (r : regex) (p : option ascii) (s : string) : option Match :=
  match run r Some (mkState p s []) with
  | Some st =>
      Some (mkMatch (Js.take (String.length s - String.length (rest st)) s) (caps st))
  | None => None
  end.

(** [s.match(r)] without the [g] flag: the leftmost match. *)
Fixpoint searchFrom (r : regex) (p : option ascii) (s : string) : option Match :=
  match matchAt r p s with
  | Some m => Some m
  | None =>
      match s with
      | EmptyString => None
      | String c s' => searchFrom r (Some c) s'
      end
  end.

Definition search (r : regex) (s : string) : option Match := searchFrom r None s.

(** [m[i]]: the text of group [i], the latest recording first. *)
Fixpoint group (i : nat) (cs : list (nat * string)) : option string :=
  match cs with
  | [] => None
  | (j, t) :: cs' => if i =? j then Some t else group i cs'
  end.

(** [r.test(s)] *)
Definition test (r : regex) (s : string) : bool :=
  match search r s with Some _ => true | None => false end.

(** ** Pattern builders *)

Definition chr (c : ascii) : regex := Cls (Ascii.eqb c).
Definition chri (c : ascii) : regex := Cls (Js.eqbNoCase c).
Definition digit : regex := Cls Js.isDigit.
Definition space : regex := Cls Js.isSpace.
Definition dot : regex := Cls (fun c => negb (Js.isLineTerminator c)).
Definition oneOf (s : string) : regex := Cls (fun c => Js.anyChar (Ascii.eqb c) s).
Definition noneOf (s : string) : regex := Cls (fun c => negb (Js.anyChar (Ascii.eqb c) s)).

Fixpoint seq (rs : list regex) : regex :=
  match rs with
  | [] => Eps
  | [r] => r
  | r :: rs' => Cat r (seq rs')
  end.

Fixpoint alts (rs : list regex) : regex :=
  match rs with
  | [] => Cls (fun _ => false)
  | [r] => r
  | r :: rs' => Alt r (alts rs')
  end.

Fixpoint lit (s : string) : regex :=
  match s with
  | EmptyString => Eps
  | String c EmptyString => chr c
  | String c s' => Cat (chr c) (lit s')
  end.

(** A literal under the [i] flag. *)
Fixpoint liti (s : string) : regex :=
  match s with
  | EmptyString => Eps
  | String c EmptyString => chri c
  | String c s' => Cat (chri c) (liti s')
  end.

Definition star (r : regex) : regex := Rep 0 None r.
Definition plus (r : regex) : regex := Rep 1 None r.
Definition opt (r : regex) : regex := Rep 0 (Some 1) r.
Definition times (n : nat) (r : regex) : regex := Rep n (Some n) r.
Definition between (lo hi : nat) (r : regex) : regex := Rep lo (Some hi) r.
Definition atLeast (lo : nat) (r : regex) : regex := Rep lo None r.

End Regex.

(* ================================================================== *)
(** * Markdown helpers of the crawl route *)
(* ================================================================== *)

Module Markdown.
Import Regex.

Definition fullMonths : list string :=
  ["January"; "February"; "March"; "April"; "May"; "June"; "July";
   "August"; "September"; "October"; "November"; "December"].

Definition shortMonths : list string :=
  ["Jan"; "Feb"; "Mar"; "Apr"; "May"; "Jun"; "Jul"; "Aug"; "Sep"; "Oct";
   "Nov"; "Dec"].

(** The five entries of [datePatterns], in source order. *)
Definition datePatterns : list regex :=
  [ (* /(\d{4}-\d{2}-\d{2})/ *)
    Grp 1 (seq [times 4 digit; chr "-"; times 2 digit; chr "-"; times 2 digit]);
    (* /(\d{1,2}\/\d{1,2}\/\d{4})/ *)
    Grp 1 (seq [between 1 2 digit; chr "/"; between 1 2 digit; chr "/"; times 4 digit]);
    (* /(January|...|December)\s+\d{1,2},?\s+\d{4}/i *)
    seq [Grp 1 (alts (map liti fullMonths)); plus space; between 1 2 digit;
         opt (chr ","); plus space; times 4 digit];
    (* /(\d{1,2}\s+(Jan|...|Dec)\s+\d{4})/i *)
    Grp 1 (seq [between 1 2 digit; plus space; Grp 2 (alts (map liti shortMonths));
                plus space; times 4 digit]);
    (* /(Jan|...|Dec)\s+\d{1,2},?\s+\d{4}/i *)
    seq [Grp 1 (alts (map liti shortMonths)); plus space; between 1 2 digit;
         opt (chr ","); plus space; times 4 digit] ].

(** [m[1]] read as a string; every pattern of this module records group 1
    on every match. *)
Definition group1 (m : Match) : string :=
  match group 1 (groups m) with Some t => t | None => EmptyString end.

(** The [for (const pattern of datePatterns)] loop. *)
Fixpoint firstGroup1 (ps : list regex) (markdown : string) : string :=
  match ps with
  | [] => EmptyString
  | p :: ps' =>
      match search p markdown with
      | Some m => group1 m
      | None => firstGroup1 ps' markdown
      end
  end.

Definition extractDateFromMarkdown (markdown : string) : string :=
  firstGroup1 datePatterns markdown.

End Markdown.

(* ================================================================== *)
(** * The crawl route ([POST /api/crawl]) *)
(* ================================================================== *)

Module Crawl.
Import Regex.

(** ** Data *)

Record SchemaProperty : Type := mkProperty {
  ptype : string;
  description : option string
}.

Record Schema : Type := mkSchema {
  stype : string;
  properties : list (string * SchemaProperty)
}.

(** One scraped page, with the optional fields of the route's
    [crawlResult.data] element type. *)
Record Page : Type := mkPage {
  pjson : option Js.Obj;
  pextract : option Js.Obj;
  pmarkdown : option string;
  pmetadata : option Js.Obj;
  purl : option string;
  plinks : option (list string);
  pscreenshot : option string
}.

(** What [app.scrapeUrl] resolves to. [rdata], when present, is the page
    nested under [data]. *)
Record ScrapeResponse : Type := mkScrape {
  rsuccess : bool;
  rerror : option string;
  rdata : option Page;
  rjson : option Js.Obj;
  rextract : option Js.Obj;
  rmarkdown : option string;
  rhtml : option string;
  rmetadata : option Js.Obj;
  rurl : option string;
  rlinks : option (list string);
  rscreenshot : option string
}.

(** What [app.batchScrapeUrls] resolves to. *)
Record BatchResponse : Type := mkBatch {
  bsuccess : bool;
  berror : option string;
  bdata : option (list Page);
  bcreditsUsed : option nat
}.

(** An awaited call either resolves or rejects with a message. *)
Inductive Outcome (A : Type) : Type :=
| Resolved (a : A)
| Rejected (message : string).
Arguments Resolved {A} a.
Arguments Rejected {A} message.

Record ScrapeOptions : Type := mkOptions {
  formats : list string;
  onlyMainContent : bool;
  timeout : option nat;
  maxAgeOpt : option string;
  jsonOptions : option Js.Value
}.

(** The Firecrawl client. Its answers depend on the outside world, whose
    state [W] is threaded through every call. *)
Record FirecrawlApp (W : Type) : Type := mkApp {
  scrapeUrl : string -> ScrapeOptions -> W -> Outcome ScrapeResponse * W;
  batchScrapeUrls : list string -> ScrapeOptions -> W -> Outcome BatchResponse * W
}.
Arguments scrapeUrl {W} _ _ _ _.
Arguments batchScrapeUrls {W} _ _ _ _.

(** Result of building the case-insensitive [RegExp] whose source is the
    field name followed by [[:\s]+(.+)], and of matching the markdown
    against it: the match may fail, or group 1 is captured; the
    constructor may throw, and so does [trim] when a group of the field
    name's own takes the place of group 1 and captures nothing. *)
Inductive FieldSearch : Type :=
| SearchThrows (message : string)
| SearchMiss
| SearchHit (capture : string).

(** Host built-ins that take run-time text: the [RegExp] constructor
    applied to a field name, and [parseFloat] ([None] is NaN). *)
Record Host : Type := mkHost {
  fieldRegExp : string -> string -> FieldSearch;
  parseFloat : string -> option string
}.

Record Body : Type := mkBody {
  url : option string;
  schema : option Schema;
  autoInfer : option bool;
  includeRaw : option bool;
  selectedUrls : option (list string);
  maxAge : option string
}.

Record RawPage : Type := mkRaw {
  extractedJson : option Js.Obj;
  rawMetadata : Js.Obj;
  rawUrl : string;
  rawMarkdown : string;
  rawLinks : list string;
  rawScreenshot : option string
}.

Record CrawlResponse : Type := mkResponse {
  success : bool;
  data : list Js.Obj;
  totalPages : nat;
  completed : nat;
  inferredSchema : option Schema;
  strategy : string;
  creditsUsed : nat;
  rawData : option (list RawPage)
}.

(** [NextResponse.json(payload, { status })]. *)
Inductive Response : Type :=
| Failure (status : nat) (error : string)
| Success (r : CrawlResponse).

Definition status (r : Response) : nat :=
  match r with
  | Failure s _ => s
  | Success _ => 200
  end.

Definition records (r : Response) : list Js.Obj :=
  match r with
  | Failure _ _ => []
  | Success c => data c
  end.

(** ** Schema helpers *)

Definition getDefaultSchema : Schema :=
  mkSchema "object"
    [ ("title", mkProperty "string" (Some "Main title or heading"));
      ("description", mkProperty "string" (Some "Content description"));
      ("url", mkProperty "string" (Some "Source URL")) ].

Fixpoint getProp (k : string) (ps : list (string * SchemaProperty)) : option SchemaProperty :=
  match ps with
  | [] => None
  | (k', v) :: ps' => if String.eqb k k' then Some v else getProp k ps'
  end.

Definition setProp (k : string) (v : SchemaProperty) (ps : list (string * SchemaProperty))
  : list (string * SchemaProperty) :=
  Js.set k v ps.

Definition hasProp (k : string) (ps : list (string * SchemaProperty)) : bool :=
  match getProp k ps with Some _ => true | None => false end.

(** [if (!ps[k]) ps[k] = v] *)
Definition ensureProp (k : string) (v : SchemaProperty) (ps : list (string * SchemaProperty))
  : list (string * SchemaProperty) :=
  if hasProp k ps then ps else setProp k v ps.

(** [property.description || `${key} field`] *)
Definition describe (key : string) (p : SchemaProperty) : string :=
  match description p with
  | Some d => if Js.nonEmpty d then d else (key ++ " field")%string
  | None => (key ++ " field")%string
  end.

Definition jsonProperty (key : string) (p : SchemaProperty) : Js.Value :=
  if String.eqb (ptype p) "number" then
    Js.VObj [("type", Js.VStr "number"); ("description", Js.VStr (describe key p))]
  else if String.eqb (ptype p) "boolean" then
    Js.VObj [("type", Js.VStr "boolean"); ("description", Js.VStr (describe key p))]
  else if String.eqb (ptype p) "array" then
    Js.VObj [("type", Js.VStr "array");
             ("items", Js.VObj [("type", Js.VStr "string")]);
             ("description", Js.VStr (describe key p))]
  else
    Js.VObj [("type", Js.VStr "string"); ("description", Js.VStr (describe key p))].

Definition createJsonSchema (s : Schema) : Js.Value :=
  Js.VObj
    [ ("type", Js.VStr "object");
      ("properties",
        Js.VObj (fold_left (fun acc kp => Js.assign (fst kp) (jsonProperty (fst kp) (snd kp)) acc)
                           (properties s) []));
      ("required", Js.VArr (map (fun kp => Js.VStr (fst kp)) (properties s))) ].

(** ** Schema inference *)

Definition colonOrSpace : regex := Cls (fun c => Ascii.eqb c ":" || Js.isSpace c).
Definition digitOrComma : regex := Cls (fun c => Js.isDigit c || Ascii.eqb c ",").
Definition notCommaLF : regex := Cls (fun c => negb (Ascii.eqb c "," || Ascii.eqb c Js.LF)).
Definition notCommaSpace : regex := Cls (fun c => negb (Ascii.eqb c "," || Js.isSpace c)).
Definition idChar : regex :=
  Cls (fun c => Js.isAlpha c || Js.isDigit c || Ascii.eqb c "-" || Ascii.eqb c "_").
Definition notQuote : regex := Cls (fun c => negb (Ascii.eqb c Js.QUOTE)).
Definition upper : regex := Cls Js.isUpper.
Definition lower : regex := Cls Js.isLower.
Definition decimal : regex := seq [plus digit; opt (chr "."); star digit].

Record Pattern : Type := mkPattern {
  pregex : regex;
  pfield : string;
  pkind : string;
  pdescription : string
}.

(** The [patterns] table, in source order. In the comments quoting the
    source expressions a blank separates an asterisk from a closing
    parenthesis, and the double quote is written [\x22]. *)
Definition patterns : list Pattern :=
  [ (* /\$[\d,]+\.?\d*/g *)
    mkPattern (seq [chr "$"; plus digitOrComma; opt (chr "."); star digit])
      "price" "string" "Product price";
    (* /price[:\s]*\$?[\d,]+\.?\d*/gi *)
    mkPattern (seq [liti "price"; star colonOrSpace; opt (chr "$"); plus digitOrComma;
                    opt (chr "."); star digit])
      "price" "string" "Price information";
    (* /<h[1-3][^>]*>([^<]+)<\/h[1-3]>/gi *)
    mkPattern (seq [chr "<"; chri "h"; oneOf "123"; star (noneOf ">"); chr ">";
                    Grp 1 (plus (noneOf "<")); lit "</"; chri "h"; oneOf "123"; chr ">"])
      "title" "string" "Main title or heading";
    (* /<p[^>]*>([^<]{50,})<\/p>/gi *)
    mkPattern (seq [chr "<"; chri "p"; star (noneOf ">"); chr ">";
                    Grp 1 (atLeast 50 (noneOf "<")); lit "</"; chri "p"; chr ">"])
      "description" "string" "Content description";
    (* /<img[^>]*src=\x22([^\x22]+)\x22/gi *)
    mkPattern (seq [chr "<"; liti "img"; star (noneOf ">"); liti "src="; chr Js.QUOTE;
                    Grp 1 (plus notQuote); chr Js.QUOTE])
      "image_url" "string" "Image URL";
    (* /\!\[([^\]]* )\]\(([^)]+)\)/g *)
    mkPattern (seq [lit "!["; Grp 1 (star (noneOf "]")); lit "]("; Grp 2 (plus (noneOf ")"));
                    chr ")"])
      "image_url" "string" "Image URL from markdown";
    (* /category[:\s]*([^,\n]+)/gi *)
    mkPattern (seq [liti "category"; star colonOrSpace; Grp 1 (plus notCommaLF)])
      "category" "string" "Product or content category";
    (* /tags?[:\s]*([^,\n]+)/gi *)
    mkPattern (seq [liti "tag"; opt (chri "s"); star colonOrSpace; Grp 1 (plus notCommaLF)])
      "tags" "array" "Content tags";
    (* /phone[:\s]*([^,\n]+)/gi *)
    mkPattern (seq [liti "phone"; star colonOrSpace; Grp 1 (plus notCommaLF)])
      "phone" "string" "Phone number";
    (* /email[:\s]*([^,\s\n]+@[^,\s\n]+)/gi *)
    mkPattern (seq [liti "email"; star colonOrSpace;
                    Grp 1 (seq [plus notCommaSpace; chr "@"; plus notCommaSpace])])
      "email" "string" "Email address";
    (* /address[:\s]*([^,\n]{10,})/gi *)
    mkPattern (seq [liti "address"; star colonOrSpace; Grp 1 (atLeast 10 notCommaLF)])
      "address" "string" "Physical address";
    (* /\d{1,2}\/\d{1,2}\/\d{4}/g *)
    mkPattern (seq [between 1 2 digit; chr "/"; between 1 2 digit; chr "/"; times 4 digit])
      "date" "string" "Date information";
    (* /\d{4}-\d{2}-\d{2}/g *)
    mkPattern (seq [times 4 digit; chr "-"; times 2 digit; chr "-"; times 2 digit])
      "date" "string" "Date in ISO format";
    (* /rating[:\s]*(\d+\.?\d* )/gi *)
    mkPattern (seq [liti "rating"; star colonOrSpace; Grp 1 decimal])
      "rating" "number" "Rating score";
    (* /(\d+\.?\d* )\s*stars?/gi *)
    mkPattern (seq [Grp 1 decimal; star space; liti "star"; opt (chri "s")])
      "rating" "number" "Star rating";
    (* /in\s+stock/gi *)
    mkPattern (seq [liti "in"; plus space; liti "stock"])
      "availability" "string" "Stock availability";
    (* /out\s+of\s+stock/gi *)
    mkPattern (seq [liti "out"; plus space; liti "of"; plus space; liti "stock"])
      "availability" "string" "Stock availability";
    (* /author[:\s]*([^,\n]+)/gi *)
    mkPattern (seq [liti "author"; star colonOrSpace; Grp 1 (plus notCommaLF)])
      "author" "string" "Content author";
    (* /by\s+([A-Z][a-z]+\s+[A-Z][a-z]+)/g *)
    mkPattern (seq [lit "by"; plus space;
                    Grp 1 (seq [upper; plus lower; plus space; upper; plus lower])])
      "author" "string" "Author name";
    (* /id[:\s]*([A-Za-z0-9-_]+)/gi *)
    mkPattern (seq [liti "id"; star colonOrSpace; Grp 1 (plus idChar)])
      "id" "string" "Unique identifier";
    (* /sku[:\s]*([A-Za-z0-9-_]+)/gi *)
    mkPattern (seq [liti "sku"; star colonOrSpace; Grp 1 (plus idChar)])
      "sku" "string" "Product SKU" ].

Definition applyPattern (content : string) (ps : list (string * SchemaProperty)) (p : Pattern)
  : list (string * SchemaProperty) :=
  if test (pregex p) content
  then setProp (pfield p) (mkProperty (pkind p) (Some (pdescription p))) ps
  else ps.

Definition prop (kind descr : string) : SchemaProperty := mkProperty kind (Some descr).

Definition inferSchemaFromContent (markdown html : option string) : Schema :=
  let md := match markdown with Some m => m | None => EmptyString end in
  let h := match html with Some x => x | None => EmptyString end in
  let content := (md ++ " " ++ h)%string in
  let lowered := Js.toLowerCase content in
  let p0 := fold_left (applyPattern content) patterns [] in
  let p1 := ensureProp "title" (prop "string" "Main title or name") p0 in
  let p2 := ensureProp "description" (prop "string" "Main content or description") p1 in
  let p3 :=
    if Js.includes "product" lowered || hasProp "price" p2 then
      ensureProp "availability" (prop "string" "Stock status")
        (ensureProp "category" (prop "string" "Product category")
          (ensureProp "price" (prop "string" "Product price") p2))
    else p2 in
  let p4 :=
    if Js.includes "article" lowered || Js.includes "blog" lowered then
      ensureProp "tags" (prop "array" "Article tags")
        (ensureProp "date" (prop "string" "Publication date")
          (ensureProp "author" (prop "string" "Article author") p3))
    else p3 in
  let p5 :=
    if Js.includes "contact" lowered || hasProp "phone" p4 || hasProp "email" p4 then
      ensureProp "address" (prop "string" "Physical address")
        (ensureProp "email" (prop "string" "Email address")
          (ensureProp "phone" (prop "string" "Phone number")
            (ensureProp "name" (prop "string" "Business or person name") p4)))
    else p4 in
  mkSchema "object" p5.

(** ** Extraction from markdown *)

Definition group1 (m : Match) : string :=
  match group 1 (groups m) with Some t => t | None => EmptyString end.

(** [/^#\s+(.+)$/m] and [/^##\s+(.+)$/m] *)
Definition h1Pattern : regex := seq [Bol; chr "#"; plus space; Grp 1 (plus dot); Eol].
Definition h2Pattern : regex := seq [Bol; lit "##"; plus space; Grp 1 (plus dot); Eol].

Definition extractTitleFromMarkdown (markdown : string) : string :=
  match search h1Pattern markdown with
  | Some m => Js.trim (group1 m)
  | None =>
      match search h2Pattern markdown with
      | Some m => Js.trim (group1 m)
      | None =>
          match Js.split Js.LF markdown with
          | firstLine :: _ => Js.trim firstLine
          | [] => EmptyString
          end
      end
  end.

Definition extractFieldFromMarkdown (host : Host) (markdown fieldName fieldType : string)
  : Js.Result Js.Value :=
  match fieldRegExp host fieldName markdown with
  | SearchThrows msg => Js.Throw msg
  | SearchHit capture =>
      let value := Js.trim capture in
      if String.eqb fieldType "number" then
        match parseFloat host value with
        | Some num => Js.Ok (Js.VNum num)
        | None => Js.Ok Js.VNull
        end
      else if String.eqb fieldType "boolean" then
        Js.Ok (Js.VBool (String.eqb (Js.toLowerCase value) "true"
                      || String.eqb (Js.toLowerCase value) "yes"))
      else if String.eqb fieldType "array" then
        Js.Ok (Js.VArr (map (fun piece => Js.VStr (Js.trim piece)) (Js.split "," value)))
      else Js.Ok (Js.VStr value)
  | SearchMiss =>
      if String.eqb fieldType "array" then Js.Ok (Js.VArr []) else Js.Ok (Js.VStr EmptyString)
  end.

(** ** The handler *)

Definition orDefault {A : Type} (o : option A) (d : A) : A :=
  match o with Some a => a | None => d end.

(** [!s] on an optional string. *)
Definition missing (o : option string) : bool :=
  match o with Some s => negb (Js.nonEmpty s) | None => true end.

(** [!finalApiKey || finalApiKey === 'fc-YOUR_API_KEY'], negated. *)
Definition keyConfigured (apiKey : option string) : bool :=
  match apiKey with
  | Some k => Js.nonEmpty k && negb (String.eqb k "fc-YOUR_API_KEY")
  | None => false
  end.

Definition sampleOptions : ScrapeOptions :=
  mkOptions ["markdown"; "html"] true None None None.

(** [scrapeOptions]; the schema is always set where they are built. *)
Definition scrapeOptionsFor (finalSchema : Schema) (age : string) : ScrapeOptions :=
  mkOptions ["markdown"; "json"] true (Some 60000) (Some age)
    (Some (Js.VObj [("schema", createJsonSchema finalSchema)])).

(** Schema resolution: the request's schema, or one inferred from a
    sample scrape when [autoInfer] is set and no schema was sent. A
    rejected sample scrape propagates to the handler's outer [catch]. *)
Definition resolveSchema {W : Type} (app : FirecrawlApp W) (body : Body)
           (target : string) (w : W) : Js.Result (option Schema) * W :=
  match schema body with
  | Some s => (Js.Ok (Some s), w)
  | None =>
      if orDefault (autoInfer body) false then
        match scrapeUrl app target sampleOptions w with
        | (Resolved r, w') =>
            if rsuccess r
            then (Js.Ok (Some (inferSchemaFromContent (rmarkdown r) (rhtml r))), w')
            else (Js.Ok (Some getDefaultSchema), w')
        | (Rejected msg, w') => (Js.Throw msg, w')
        end
      else (Js.Ok None, w)
  end.

(** The entry pushed when an individual scrape rejects. *)
Definition failedScrape (msg target : string) : ScrapeResponse :=
  mkScrape false (Some msg) None None None None None
           (Some [("sourceURL", Js.VStr target)]) (Some target) None None.

(** The [for (const url of selectedUrls)] loop of the fallback. *)
Fixpoint fallbackLoop {W : Type} (app : FirecrawlApp W) (opts : ScrapeOptions)
         (urls : list string) (w : W) : list ScrapeResponse * W :=
  match urls with
  | [] => ([], w)
  | u :: rest =>
      let (o, w1) := scrapeUrl app u opts w in
      let r := match o with
               | Resolved r => r
               | Rejected msg => failedScrape msg u
               end in
      let (rs, w2) := fallbackLoop app opts rest w1 in
      (r :: rs, w2)
  end.

(** Conversion of a successful individual result to a page. *)
Definition pageOfResult (r : ScrapeResponse) : Page :=
  match rdata r with
  | Some p => p
  | None =>
      let fromMeta :=
        match rmetadata r with
        | Some m => Js.get "sourceURL" m
        | None => Some (Js.VStr EmptyString)
        end in
      let u :=
        if missing (rurl r)
        then Js.toStr (Js.orElse fromMeta (Js.VStr EmptyString))
        else orDefault (rurl r) EmptyString in
      mkPage (rjson r) (rextract r)
             (Some (orDefault (rmarkdown r) EmptyString))
             (Some (orDefault (rmetadata r) []))
             (Some u)
             (Some (orDefault (rlinks r) []))
             (rscreenshot r)
  end.

Record CrawlResult : Type := mkCrawl {
  cdata : list Page;
  ctotal : nat;
  ccompleted : nat;
  ccredits : option nat
}.

(** Which branch produced the pages. The handler does not record it;
    it is exposed here for the statements below. *)
Inductive Path : Type := BulkPath | FallbackPath.

(** [true] when the [try] block around the batch call completes. *)
Definition batchSucceeded (o : Outcome BatchResponse) : bool :=
  match o with
  | Resolved b => bsuccess b
  | Rejected _ => false
  end.

Definition fallbackCrawl {W : Type} (app : FirecrawlApp W) (opts : ScrapeOptions)
           (urls : list string) (w : W) : CrawlResult * W :=
  let (results, w') := fallbackLoop app opts urls w in
  let ok := filter rsuccess results in
  (mkCrawl (map pageOfResult ok) (List.length urls) (List.length ok) (Some (List.length ok)), w').

(** The [try { batch } catch { fallback }] block. *)
Definition scrapePages {W : Type} (app : FirecrawlApp W) (opts : ScrapeOptions)
           (urls : list string) (w : W) : CrawlResult * Path * W :=
  match batchScrapeUrls app urls opts w with
  | (Resolved b, w1) =>
      if bsuccess b then
        let resultData := orDefault (bdata b) [] in
        (mkCrawl resultData (List.length urls) (List.length resultData)
                 (match bcreditsUsed b with
                  | Some c => Some c
                  | None => Some (List.length resultData)
                  end),
         BulkPath, w1)
      else
        let (c, w2) := fallbackCrawl app opts urls w1 in (c, FallbackPath, w2)
  | (Rejected _, w1) =>
      let (c, w2) := fallbackCrawl app opts urls w1 in (c, FallbackPath, w2)
  end.

Definition meta (page : Page) (k : string) : option Js.Value :=
  match pmetadata page with
  | Some m => Js.get k m
  | None => None
  end.

(** One iteration of the loop over [Object.entries(finalSchema.properties)]. *)
Definition fieldValue (host : Host) (page : Page) (key : string) (p : SchemaProperty)
  : Js.Result Js.Value :=
  let md := orDefault (pmarkdown page) EmptyString in
  if String.eqb key "title" then
    Js.Ok (Js.orElse (meta page "title") (Js.VStr (extractTitleFromMarkdown md)))
  else if String.eqb key "date" then
    Js.Ok (Js.orElse (meta page "publishedTime")
                  (Js.VStr (Markdown.extractDateFromMarkdown md)))
  else if String.eqb key "content" then Js.Ok (Js.VStr md)
  else if String.eqb key "url" then
    Js.Ok (Js.orElse (meta page "sourceURL") (Js.VStr (orDefault (purl page) EmptyString)))
  else extractFieldFromMarkdown host md key (ptype p).

Fixpoint structuredData (host : Host) (page : Page)
         (props : list (string * SchemaProperty)) (acc : Js.Obj) : Js.Result Js.Obj :=
  match props with
  | [] => Js.Ok acc
  | (key, p) :: rest =>
      match fieldValue host page key p with
      | Js.Ok v => structuredData host page rest (Js.assign key v acc)
      | Js.Throw msg => Js.Throw msg
      end
  end.

(** The callback of [crawlResult.data.map]: structured data when the
    page has it, the markdown heuristics otherwise. *)
Definition extractPage (host : Host) (finalSchema : Schema) (page : Page) : Js.Result Js.Obj :=
  match pjson page, pextract page with
  | Some o, _ => Js.Ok o
  | None, Some o => Js.Ok o
  | None, None => structuredData host page (properties finalSchema) []
  end.

Fixpoint extractAll (host : Host) (finalSchema : Schema) (pages : list Page)
  : Js.Result (list Js.Obj) :=
  match pages with
  | [] => Js.Ok []
  | page :: rest =>
      match extractPage host finalSchema page with
      | Js.Throw msg => Js.Throw msg
      | Js.Ok o =>
          match extractAll host finalSchema rest with
          | Js.Throw msg => Js.Throw msg
          | Js.Ok os => Js.Ok (o :: os)
          end
      end
  end.

Definition rawPage (page : Page) : RawPage :=
  let md := orDefault (pmarkdown page) EmptyString in
  mkRaw (match pjson page with Some o => Some o | None => pextract page end)
        (orDefault (pmetadata page) [])
        (if missing (purl page)
         then Js.toStr (Js.orElse (meta page "sourceURL") (Js.VStr EmptyString))
         else orDefault (purl page) EmptyString)
        (String.append (Js.take 2000 md)
                       (if 2000 <? String.length md then "..." else EmptyString))
        (orDefault (plinks page) [])
        (if missing (pscreenshot page) then None else pscreenshot page).

Definition respond (body : Body) (finalSchema : Schema) (urls : list string)
           (c : CrawlResult) (extractedData : list Js.Obj) : CrawlResponse :=
  mkResponse true extractedData
    (Js.orNat (ctotal c) (List.length extractedData))
    (Js.orNat (ccompleted c) (List.length extractedData))
    (if orDefault (autoInfer body) false then Some finalSchema else None)
    "mapCrawl"
    (List.length urls + 2)
    (if orDefault (includeRaw body) false then Some (map rawPage (cdata c)) else None).

(** The handler, from the parsed request body on; the body has its
    declared type. [apiKey] is [process.env.FIRECRAWL_API_KEY]. Whatever is
    thrown on the way reaches the outer [catch], which answers 500 with the
    message. *)
Definition POST {W : Type} (app : FirecrawlApp W) (host : Host)
           (apiKey : option string) (body : Body) (w : W) : Response * W :=
  if missing (url body) then (Failure 400 "URL is required", w)
  else if negb (keyConfigured apiKey) then
    (Failure 500 "Firecrawl API key not configured. Please check server configuration.", w)
  else
    match resolveSchema app body (orDefault (url body) EmptyString) w with
    | (Js.Throw msg, w1) => (Failure 500 msg, w1)
    | (Js.Ok None, w1) => (Failure 400 "Schema is required or auto-inference failed", w1)
    | (Js.Ok (Some finalSchema), w1) =>
        match orDefault (selectedUrls body) [] with
        | [] => (Failure 400 "No URLs selected for scraping", w1)
        | urls =>
            let opts := scrapeOptionsFor finalSchema (orDefault (maxAge body) "0") in
            match scrapePages app opts urls w1 with
            | (c, _, w2) =>
                match extractAll host finalSchema (cdata c) with
                | Js.Throw msg => (Failure 500 msg, w2)
                | Js.Ok extractedData =>
                    (Success (respond body finalSchema urls c extractedData), w2)
                end
            end
        end
    end.

(** Every field name of the schema yields a [RegExp] that can be built. *)
Definition fieldsCompile (host : Host) (s : Schema) : Prop :=
  forall k p md msg, In (k, p) (properties s) -> fieldRegExp host k md <> SearchThrows msg.

(** The branch taken by a request that reaches the scraping stage. *)
Definition pathTaken {W : Type} (app : FirecrawlApp W) (opts : ScrapeOptions)
           (urls : list string) (w : W) : Path :=
  snd (fst (scrapePages app opts urls w)).

(** ** Sequential scraping, as the client sees it *)

(** What the client answers when every URL of the list is scraped once, in
    the order of the list, each call made in the world the call before it
    left: the outcomes, and the world after the last call. The fallback of
    the handler is compared with it. *)
Fixpoint scrapedInTurn {W : Type} (app : FirecrawlApp W) (opts : ScrapeOptions)
         (urls : list string) (w : W) : list (Outcome ScrapeResponse) * W :=
  match urls with
  | [] => ([], w)
  | u :: rest =>
      let (o, w1) := scrapeUrl app u opts w in
      let (os, w2) := scrapedInTurn app opts rest w1 in
      (o :: os, w2)
  end.

(** The scrapes that succeeded: those that resolved with [success: true]. *)
Definition succeeded (outcomes : list (Outcome ScrapeResponse)) : list ScrapeResponse :=
  flat_map (fun o => match o with
                     | Resolved r => if rsuccess r then [r] else []
                     | Rejected _ => []
                     end) outcomes.

End Crawl.

(* ================================================================== *)
(** * The URL tree of the client page *)
(* ================================================================== *)

Module UrlTree.

(** The properties of a [URL] object that the builder reads. *)
Record Url : Type := mkUrl {
  protocol : string;
  hostname : string;
  pathname : string
}.

(** [new URL(s)]; [None] when the constructor throws. *)
Definition Parser : Type := string -> option Url.

Inductive TreeNode : Type := mkNode {
  urls : list string;
  children : list (string * TreeNode);
  count : nat;
  path : string
}.

Definition Tree : Type := list (string * TreeNode).

(** Property names every object literal inherits from [Object.prototype].
    Reading one of them from a fresh [children] object yields a value that
    is not a tree node. *)
Definition objectPrototypeKeys : list string :=
  ["constructor"; "__defineGetter__"; "__defineSetter__"; "hasOwnProperty";
   "__lookupGetter__"; "__lookupSetter__"; "isPrototypeOf"; "propertyIsEnumerable";
   "toString"; "valueOf"; "__proto__"; "toLocaleString"].

Definition inherited (part : string) : bool :=
  existsb (String.eqb part) objectPrototypeKeys.

(** [hostname.replace(/^www\./, '')] *)
Definition stripWww (host : string) : string :=
  if Js.startsWith "www." host then Js.drop 4 host else host.

Definition domainKeyOf (u : Url) : string :=
  (protocol u ++ "//" ++ stripWww (hostname u))%string.

(** [pathname.split('/').filter(Boolean)] *)
Definition pathPartsOf (u : Url) : list string :=
  filter Js.nonEmpty (Js.split "/" (pathname u)).

(** [urlsByDomain[key].push(url)], creating the group on first use. *)
Fixpoint pushTo (key url : string) (groups : list (string * list string))
  : list (string * list string) :=
  match groups with
  | [] => [(key, [url])]
  | (k, us) :: rest =>
      if String.eqb key k then (k, us ++ [url]) :: rest
      else (k, us) :: pushTo key url rest
  end.

(** The first [urls.forEach]: URLs that do not parse are skipped. *)
Definition groupStep (parse : Parser) (groups : list (string * list string)) (url : string)
  : list (string * list string) :=
  match parse url with
  | Some u => pushTo (domainKeyOf u) url groups
  | None => groups
  end.

Definition groupByDomain (parse : Parser) (input : list string)
  : list (string * list string) :=
  fold_left (groupStep parse) input [].

Definition emptyNode (p : string) : TreeNode := mkNode [] [] 0 p.

Definition addUrl (url : string) (n : TreeNode) : TreeNode :=
  mkNode (urls n ++ [url]) (children n) (count n) (path n).

Definition setChildren (cs : list (string * TreeNode)) (n : TreeNode) : TreeNode :=
  mkNode (urls n) cs (count n) (path n).

Definition setCount (c : nat) (n : TreeNode) : TreeNode :=
  mkNode (urls n) (children n) c (path n).

Fixpoint findChild (part : string) (cs : list (string * TreeNode)) : option TreeNode :=
  match cs with
  | [] => None
  | (k, n) :: rest => if String.eqb part k then Some n else findChild part rest
  end.

Fixpoint replaceChild (part : string) (n : TreeNode) (cs : list (string * TreeNode))
  : list (string * TreeNode) :=
  match cs with
  | [] => []
  | (k, m) :: rest =>
      if String.eqb part k then (k, n) :: rest else (k, m) :: replaceChild part n rest
  end.

(** The [pathParts.forEach] walk from the [children] object [current].
    A segment that names an inherited property is read as that property:
    nothing is created for it and the walk ends in a [TypeError], which
    the surrounding [catch] swallows; nodes created for the segments
    before it stay. *)
Fixpoint insertPath (parts : list string) (currentPath url : string)
         (current : list (string * TreeNode)) {struct parts} : list (string * TreeNode) :=
  match parts with
  | [] => current
  | part :: rest =>
      let here := (currentPath ++ "/" ++ part)%string in
      let visit (node : TreeNode) : TreeNode :=
        let node' := match rest with [] => addUrl url node | _ => node end in
        setChildren (insertPath rest here url (children node')) node' in
      match findChild part current with
      | Some node => replaceChild part (visit node) current
      | None =>
          if inherited part then current
          else Js.placeNew part (visit (emptyNode here)) current
      end
  end.

(** The body of [domainUrls.forEach]. *)
Definition insertUrl (parse : Parser) (domainKey : string) (node : TreeNode) (url : string)
  : TreeNode :=
  match parse url with
  | None => node
  | Some u =>
      match pathPartsOf u with
      | [] => addUrl url node
      | parts => setChildren (insertPath parts domainKey url (children node)) node
      end
  end.

Definition buildDomain (parse : Parser) (group : string * list string) : string * TreeNode :=
  let domainKey := fst group in
  let domainUrls := snd group in
  let domainNode := fold_left (insertUrl parse domainKey) domainUrls (emptyNode domainKey) in
  (domainKey, setCount (List.length domainUrls) domainNode).

Definition sumCounts (cs : list (string * TreeNode)) : nat :=
  fold_right (fun kc acc => count (snd kc) + acc) 0 cs.

Fixpoint updateCounts (n : TreeNode) : TreeNode :=
  let cs := map (fun kc => (fst kc, updateCounts (snd kc))) (children n) in
  mkNode (urls n) cs (List.length (urls n) + sumCounts cs) (path n).

Definition buildUrlTree (parse : Parser) (input : list string) : Tree :=
  map (fun kn => (fst kn, updateCounts (snd kn)))
      (map (buildDomain parse) (groupByDomain parse input)).

(** ** Vocabulary of the statements *)

(** A node and all the nodes below it. *)
Fixpoint nodesOf (n : TreeNode) : list TreeNode :=
  n :: flat_map (fun kc => nodesOf (snd kc)) (children n).

Definition allNodes (t : Tree) : list TreeNode :=
  flat_map (fun kn => nodesOf (snd kn)) t.

(** The URLs recorded at a node or below it. *)
Fixpoint subtreeUrls (n : TreeNode) : list string :=
  urls n ++ flat_map (fun kc => subtreeUrls (snd kc)) (children n).

Definition childrenUrls (cs : list (string * TreeNode)) : list string :=
  flat_map (fun kc => subtreeUrls (snd kc)) cs.





(** ** A parser for plain absolute URLs, used in the examples *)

Fixpoint untilAny (stops : string) (s : string) : string * string :=
  match s with
  | EmptyString => (EmptyString, EmptyString)
  | String c s' =>
      if Js.anyChar (Ascii.eqb c) stops then (EmptyString, s)
      else let (a, b) := untilAny stops s' in (String c a, b)
  end.

(** Accepts [scheme://host], optionally followed by a path, a query and a
    fragment; the scheme is made of letters and the host is not empty. *)
Definition plainUrl : Parser := fun s =>
  let (scheme, afterScheme) := untilAny ":" s in
  if negb (Js.nonEmpty scheme) || Js.anyChar (fun c => negb (Js.isAlpha c)) scheme
     || negb (Js.startsWith "://" afterScheme)
  then None
  else
    let (host, afterHost) := untilAny "/?#" (Js.drop 3 afterScheme) in
    if negb (Js.nonEmpty host) || Js.anyChar Js.isSpace host then None
    else
      let (p, _) := untilAny "?#" afterHost in
      Some (mkUrl (Js.toLowerCase scheme ++ ":")%string (Js.toLowerCase host)
                  (if Js.nonEmpty p then p else "/")).

End UrlTree.

(* ================================================================== *)
(** * The export formatter of the client page *)
(* ================================================================== *)

Module Formatter.

Definition nl : string := String Js.LF EmptyString.

(** A double-quoted attribute value or string. *)
Definition quoted (s : string) : string :=
  String Js.QUOTE (s ++ String Js.QUOTE EmptyString).

Definition lines (ls : list string) : string := Js.join nl ls.

(** ** JSON text *)

Definition hexDigit (n : nat) : ascii :=
  if n <? 10 then ascii_of_nat (48 + n) else ascii_of_nat (87 + n).

Definition BACKSLASH : ascii := ascii_of_nat 92.

(** One character of [QuoteJSONString]. *)
Definition escapeChar (c : ascii) : string :=
  let n := nat_of_ascii c in
  if Ascii.eqb c Js.QUOTE then String BACKSLASH (String Js.QUOTE EmptyString)
  else if Ascii.eqb c BACKSLASH then String BACKSLASH (String BACKSLASH EmptyString)
  else if n =? 8 then String BACKSLASH "b"
  else if n =? 9 then String BACKSLASH "t"
  else if n =? 10 then String BACKSLASH "n"
  else if n =? 12 then String BACKSLASH "f"
  else if n =? 13 then String BACKSLASH "r"
  else if n <? 32 then
    String BACKSLASH
      (String "u" (String "0" (String "0"
        (String (hexDigit (n / 16)) (String (hexDigit (n mod 16)) EmptyString)))))
  else String c EmptyString.

Fixpoint escapeChars (s : string) : string :=
  match s with
  | EmptyString => EmptyString
  | String c s' => (escapeChar c ++ escapeChars s')%string
  end.

Definition quoteJSON (s : string) : string := quoted (escapeChars s).

(** A Number that JSON can print; the others print as [null]. *)
Definition finite (repr : string) : bool :=
  negb (String.eqb repr "NaN" || String.eqb repr "Infinity" || String.eqb repr "-Infinity").

(** [JSON.stringify(v, null, 2)] at the indentation [indent]. *)
Fixpoint stringify (indent : string) (v : Js.Value) : string :=
  let inner := (indent ++ "  ")%string in
  let sep := ("," ++ nl ++ inner)%string in
  match v with
  | Js.VNull => "null"
  | Js.VBool true => "true"
  | Js.VBool false => "false"
  | Js.VNum r => if finite r then r else "null"
  | Js.VStr s => quoteJSON s
  | Js.VArr [] => "[]"
  | Js.VArr items =>
      ("[" ++ nl ++ inner ++ Js.join sep (map (stringify inner) items)
           ++ nl ++ indent ++ "]")%string
  | Js.VObj [] => "{}"
  | Js.VObj fields =>
      ("{" ++ nl ++ inner
           ++ Js.join sep
                (map (fun kv => (quoteJSON (fst kv) ++ ": " ++ stringify inner (snd kv))%string)
                     fields)
           ++ nl ++ indent ++ "}")%string
  end.

Definition recordsValue (data : list Js.Obj) : Js.Value := Js.VArr (map Js.VObj data).

(** ** JSON text, read back ([JSON.parse]) *)

Definition isJsonSpace (c : ascii) : bool :=
  Ascii.eqb c Js.SPACE || Ascii.eqb c Js.TAB || Ascii.eqb c Js.LF || Ascii.eqb c Js.CR.

Fixpoint skipWs (s : string) : string :=
  match s with
  | String c s' => if isJsonSpace c then skipWs s' else s
  | EmptyString => EmptyString
  end.

Definition hexValue (c : ascii) : option nat :=
  let n := nat_of_ascii c in
  if Js.isDigit c then Some (n - 48)
  else if Js.inRange 97 102 c then Some (n - 87)
  else if Js.inRange 65 70 c then Some (n - 55)
  else None.

(** The code unit written [\uh1h2h3h4]; [None] also when it does not fit
    the 8-bit code units of this embedding. *)
Definition unicodeEscape (h1 h2 h3 h4 : ascii) : option ascii :=
  match hexValue h1, hexValue h2, hexValue h3, hexValue h4 with
  | Some a, Some b, Some c, Some d =>
      if (a =? 0) && (b =? 0) then Some (ascii_of_nat (16 * c + d)) else None
  | _, _, _, _ => None
  end.

Definition consChar (c : ascii) (r : option (string * string)) : option (string * string) :=
  match r with
  | Some (text, rest) => Some (String c text, rest)
  | None => None
  end.

(** The characters of a string literal after its opening quote, up to the
    closing quote; the result is the string and the text after it. *)
Fixpoint parseChars (s : string) : option (string * string) :=
  match s with
  | EmptyString => None
  | String c rest =>
      if Ascii.eqb c Js.QUOTE then Some (EmptyString, rest)
      else if Ascii.eqb c BACKSLASH then
        match rest with
        | String e rest' =>
            if Ascii.eqb e Js.QUOTE then consChar Js.QUOTE (parseChars rest')
            else if Ascii.eqb e BACKSLASH then consChar BACKSLASH (parseChars rest')
            else if Ascii.eqb e "/" then consChar "/" (parseChars rest')
            else if Ascii.eqb e "b" then consChar (ascii_of_nat 8) (parseChars rest')
            else if Ascii.eqb e "f" then consChar (ascii_of_nat 12) (parseChars rest')
            else if Ascii.eqb e "n" then consChar Js.LF (parseChars rest')
            else if Ascii.eqb e "r" then consChar Js.CR (parseChars rest')
            else if Ascii.eqb e "t" then consChar Js.TAB (parseChars rest')
            else if Ascii.eqb e "u" then
              match rest' with
              | String h1 (String h2 (String h3 (String h4 rest''))) =>
                  match unicodeEscape h1 h2 h3 h4 with
                  | Some u => consChar u (parseChars rest'')
                  | None => None
                  end
              | _ => None
              end
            else None
        | EmptyString => None
        end
      else if nat_of_ascii c <? 32 then None
      else consChar c (parseChars rest)
  end.

(** States of the number grammar: an optional minus sign; a zero, or a
    non-zero digit followed by digits; optionally a point and digits;
    optionally an exponent mark, a sign and digits. *)
Inductive NumState : Type :=
| NStart | NMinus | NZero | NInt | NDot | NFrac | NExp | NExpSign | NExpDigits.

Definition isExponentMark (c : ascii) : bool := Ascii.eqb c "e" || Ascii.eqb c "E".
Definition isSign (c : ascii) : bool := Ascii.eqb c "+" || Ascii.eqb c "-".

Definition numStep (st : NumState) (c : ascii) : option NumState :=
  match st with
  | NStart =>
      if Ascii.eqb c "-" then Some NMinus
      else if Ascii.eqb c "0" then Some NZero
      else if Js.isDigit c then Some NInt
      else None
  | NMinus =>
      if Ascii.eqb c "0" then Some NZero
      else if Js.isDigit c then Some NInt
      else None
  | NZero =>
      if Ascii.eqb c "." then Some NDot
      else if isExponentMark c then Some NExp
      else None
  | NInt =>
      if Js.isDigit c then Some NInt
      else if Ascii.eqb c "." then Some NDot
      else if isExponentMark c then Some NExp
      else None
  | NDot => if Js.isDigit c then Some NFrac else None
  | NFrac =>
      if Js.isDigit c then Some NFrac
      else if isExponentMark c then Some NExp
      else None
  | NExp =>
      if isSign c then Some NExpSign
      else if Js.isDigit c then Some NExpDigits
      else None
  | NExpSign => if Js.isDigit c then Some NExpDigits else None
  | NExpDigits => if Js.isDigit c then Some NExpDigits else None
  end.

Definition numAccept (st : NumState) : bool :=
  match st with
  | NZero | NInt | NFrac | NExpDigits => true
  | _ => false
  end.

(** The longest prefix that follows the number grammar, and what is left. *)
Fixpoint readNumber (st : NumState) (s : string) : option (string * string) :=
  match s with
  | EmptyString => if numAccept st then Some (EmptyString, EmptyString) else None
  | String c rest =>
      match numStep st c with
      | Some st' => consChar c (readNumber st' rest)
      | None => if numAccept st then Some (EmptyString, s) else None
      end
  end.

(** A character that can occur in a number. *)
Definition isNumberChar (c : ascii) : bool :=
  Js.isDigit c || isSign c || Ascii.eqb c "." || isExponentMark c.

(** The Number a token denotes, as its [ToString] image. A token that is
    such an image denotes that Number; so does [-0], which prints as [0].
    Other tokens ([1.0], [1e3]) denote Numbers whose images this embedding
    does not compute; they are kept as read. *)
Definition numberOfToken (token : string) : string :=
  if String.eqb token "-0" then "0" else token.

Definition expect (word : string) (s : string) (v : Js.Value) : option (Js.Value * string) :=
  if Js.startsWith word s then Some (v, Js.drop (String.length word) s) else None.

(** Recursive descent over a JSON text. Each unit of fuel pays for one
    value or one step of a list of elements or members. *)
Fixpoint parseValue (fuel : nat) (s : string) : option (Js.Value * string) :=
  match fuel with
  | 0 => None
  | S fuel' =>
      match skipWs s with
      | EmptyString => None
      | String c rest =>
          if Ascii.eqb c "n" then expect "ull" rest Js.VNull
          else if Ascii.eqb c "t" then expect "rue" rest (Js.VBool true)
          else if Ascii.eqb c "f" then expect "alse" rest (Js.VBool false)
          else if Ascii.eqb c Js.QUOTE then
            match parseChars rest with
            | Some (text, rest') => Some (Js.VStr text, rest')
            | None => None
            end
          else if Ascii.eqb c "[" then
            match skipWs rest with
            | String d rest' =>
                if Ascii.eqb d "]" then Some (Js.VArr [], rest')
                else parseElements fuel' rest []
            | EmptyString => None
            end
          else if Ascii.eqb c "{" then
            match skipWs rest with
            | String d rest' =>
                if Ascii.eqb d "}" then Some (Js.VObj [], rest')
                else parseMembers fuel' rest []
            | EmptyString => None
            end
          else
            match readNumber NStart (String c rest) with
            | Some (token, rest') => Some (Js.VNum (numberOfToken token), rest')
            | None => None
            end
      end
  end

with parseElements (fuel : nat) (s : string) (acc : list Js.Value)
  : option (Js.Value * string) :=
  match fuel with
  | 0 => None
  | S fuel' =>
      match parseValue fuel' s with
      | None => None
      | Some (v, rest) =>
          match skipWs rest with
          | String c rest' =>
              if Ascii.eqb c "," then parseElements fuel' rest' (acc ++ [v])
              else if Ascii.eqb c "]" then Some (Js.VArr (acc ++ [v]), rest')
              else None
          | EmptyString => None
          end
      end
  end

with parseMembers (fuel : nat) (s : string) (acc : list (string * Js.Value))
  : option (Js.Value * string) :=
  match fuel with
  | 0 => None
  | S fuel' =>
      match skipWs s with
      | String q afterQuote =>
          if Ascii.eqb q Js.QUOTE then
            match parseChars afterQuote with
            | None => None
            | Some (key, afterKey) =>
                match skipWs afterKey with
                | String colon afterColon =>
                    if Ascii.eqb colon ":" then
                      match parseValue fuel' afterColon with
                      | None => None
                      | Some (v, rest) =>
                          match skipWs rest with
                          | String c rest' =>
                              if Ascii.eqb c ","
                              then parseMembers fuel' rest' (acc ++ [(key, v)])
                              else if Ascii.eqb c "}"
                              then Some (Js.VObj (Js.fromEntries (acc ++ [(key, v)])), rest')
                              else None
                          | EmptyString => None
                          end
                      end
                    else None
                | EmptyString => None
                end
            end
          else None
      | EmptyString => None
      end
  end.

(** [JSON.parse(text)]: one value, then nothing but white space. [None] is
    a [SyntaxError]. The fuel exceeds the number of characters. *)
Definition parseJSON (text : string) : option Js.Value :=
  match parseValue (S (String.length text)) text with
  | Some (v, rest) =>
      match skipWs rest with
      | EmptyString => Some v
      | _ => None
      end
  | None => None
  end.

(** A Number that JSON can write: its image follows the number grammar
    (and is not [-0], which is no image). *)
Fixpoint followsGrammar (st : NumState) (s : string) : bool :=
  match s with
  | EmptyString => numAccept st
  | String c rest =>
      match numStep st c with
      | Some st' => followsGrammar st' rest
      | None => false
      end
  end.

Definition jsonNumber (repr : string) : bool :=
  followsGrammar NStart repr && negb (String.eqb repr "-0").

(** Values that survive JSON: finite Numbers, and objects whose entries
    are listed as an object lists them. *)
Inductive JsonSafe : Js.Value -> Prop :=
| SafeNull : JsonSafe Js.VNull
| SafeBool b : JsonSafe (Js.VBool b)
| SafeNum r : jsonNumber r = true -> JsonSafe (Js.VNum r)
| SafeStr s : JsonSafe (Js.VStr s)
| SafeArr items : Forall JsonSafe items -> JsonSafe (Js.VArr items)
| SafeObj fields :
    Js.wellFormed fields ->
    Forall (fun kv => JsonSafe (snd kv)) fields ->
    JsonSafe (Js.VObj fields).

(** The value types of an extracted record: string, number, boolean,
    array of strings, null. *)
Definition recordValue (v : Js.Value) : bool :=
  match v with
  | Js.VNull | Js.VBool _ | Js.VStr _ => true
  | Js.VNum r => jsonNumber r
  | Js.VArr items =>
      forallb (fun x => match x with Js.VStr _ => true | _ => false end) items
  | Js.VObj _ => false
  end.

(** The fuel a list of elements or members needs. *)
Definition needAll {A : Type} (cost : A -> nat) (l : list A) : nat :=
  fold_right (fun x n => S (cost x + n)) 0 l.

Definition jsonSafeRecord (o : Js.Obj) : Prop :=
  Js.wellFormed o /\ forallb recordValue (Js.values o) = true.

(** A text before which a number token ends: the empty text, or one whose
    first character cannot continue a number. *)
Definition delimits (rest : string) : bool :=
  match rest with
  | EmptyString => true
  | String c _ => negb (isNumberChar c)
  end.

(** An indentation: blanks only. *)
Definition blank (indent : string) : bool :=
  negb (Js.anyChar (fun c => negb (Ascii.eqb c Js.SPACE)) indent).

(** Fuel that [parseValue] needs for the text of a value. *)
Fixpoint need (v : Js.Value) : nat :=
  match v with
  | Js.VArr items => S (needAll need items)
  | Js.VObj fields => S (needAll (fun kv => need (snd kv)) fields)
  | _ => 1
  end.

(** Reading the text of [v], at any indentation and before any text that
    delimits it, gives [v] back and leaves that text. *)
Definition readsBack (v : Js.Value) : Prop :=
  forall indent rest fuel,
    blank indent = true -> need v <= fuel -> delimits rest = true ->
    parseValue fuel (stringify indent v ++ rest)%string = Some (v, rest).

(** The text of one member of an object. *)
Definition memberText (inner : string) (kv : string * Js.Value) : string :=
  (quoteJSON (fst kv) ++ ": " ++ stringify inner (snd kv))%string.

(** ** Generic CSV *)

(** A value as [Array.prototype.join] prints it, after the callback has
    quoted the strings. *)
Definition csvCell (v : Js.Value) : string :=
  match v with
  | Js.VStr s => quoted (Js.doubleQuotes (Js.replaceNewlines s))
  | Js.VNull => EmptyString
  | _ => Js.toStr v
  end.

Definition convertToCSV (data : list Js.Obj) : string :=
  match data with
  | [] => EmptyString
  | first :: _ =>
      let headers := Js.join "," (Js.keys first) in
      let rows := map (fun item => Js.join "," (map csvCell (Js.values item))) data in
      Js.join nl (headers :: rows)
  end.

(** ** Shopify CSV *)

Definition shopifyHeaders : list string :=
  ["Handle"; "Title"; "Body (HTML)"; "Vendor"; "Type"; "Tags"; "Published";
   "Option1 Name"; "Option1 Value"; "Variant SKU"; "Variant Grams";
   "Variant Inventory Tracker"; "Variant Inventory Qty"; "Variant Inventory Policy";
   "Variant Fulfillment Service"; "Variant Price"; "Variant Compare At Price";
   "Variant Requires Shipping"; "Variant Taxable"; "Variant Barcode";
   "Image Src"; "Image Position"; "Image Alt Text"; "Gift Card";
   "SEO Title"; "SEO Description"; "Variant Weight Unit"; "Status"].

Definition notSlugChar (c : ascii) : bool := negb (Js.isLower c || Js.isDigit c).

(** [title.toLowerCase().replace(/[^a-z0-9]+/g, '-').replace(/-+/g, '-')
    .replace(/^-|-$/g, '')] *)
Definition slug (title : string) : string :=
  Js.stripEdgeHyphens
    (Js.hyphenateRuns (Ascii.eqb "-") false
       (Js.hyphenateRuns notSlugChar false (Js.toLowerCase title))).

(** The [row] object of one item, as the list of its entries. *)
Definition shopifyRow (index : nat) (item : Js.Obj) : list (string * string) :=
  let field k := Js.get k item in
  let text v := Js.toStr v in
  let empty := Js.VStr EmptyString in
  let title :=
    text (Js.orElse (field "title") (Js.VStr ("Product " ++ Js.natToString (index + 1))%string)) in
  let body := text (Js.orElse (field "description") (Js.orElse (field "content") empty)) in
  let hasImage := Js.truthyOpt (Js.orOpt (field "image_url") (field "image")) in
  [ ("Handle", slug title);
    ("Title", title);
    ("Body (HTML)", body);
    ("Vendor", text (Js.orElse (field "vendor") (Js.VStr "Default Vendor")));
    ("Type", text (Js.orElse (field "product_type") (Js.orElse (field "type") empty)));
    ("Tags", text (Js.orElse (field "tags") empty));
    ("Published", "TRUE");
    ("Option1 Name", "Title");
    ("Option1 Value", "Default Title");
    ("Variant SKU", text (Js.orElse (field "sku") empty));
    ("Variant Grams", text (Js.orElse (field "weight") (Js.VStr "0")));
    ("Variant Inventory Tracker", "shopify");
    ("Variant Inventory Qty",
      text (Js.orElse (field "inventory_quantity") (Js.orElse (field "stock") (Js.VStr "0"))));
    ("Variant Inventory Policy", "deny");
    ("Variant Fulfillment Service", "manual");
    ("Variant Price", text (Js.orElse (field "price") (Js.VStr "0")));
    ("Variant Compare At Price", text (Js.orElse (field "compare_at_price") empty));
    ("Variant Requires Shipping", "TRUE");
    ("Variant Taxable", "TRUE");
    ("Variant Barcode", text (Js.orElse (field "barcode") empty));
    ("Image Src", text (Js.orElse (field "image_url") (Js.orElse (field "image") empty)));
    ("Image Position", if hasImage then "1" else EmptyString);
    ("Image Alt Text", if hasImage then title else EmptyString);
    ("Gift Card", "FALSE");
    ("SEO Title", Js.take 70 title);
    ("SEO Description", Js.take 320 body);
    ("Variant Weight Unit", "g");
    ("Status", "active") ].

Fixpoint rowGet (header : string) (row : list (string * string)) : string :=
  match row with
  | [] => EmptyString
  | (k, v) :: rest => if String.eqb header k then v else rowGet header rest
  end.

Definition needsQuoting (value : string) : bool :=
  Js.anyChar (Ascii.eqb Js.QUOTE) value
  || Js.anyChar (Ascii.eqb Js.COMMA) value
  || Js.anyChar (Ascii.eqb Js.LF) value.

(** The callback of [headers.map] in a Shopify row. *)
Definition shopifyCell (value : string) : string :=
  if needsQuoting value
  then quoted (Js.replaceNewlines (Js.doubleQuotes value))
  else value.

Definition shopifyLine (index : nat) (item : Js.Obj) : string :=
  Js.join "," (map (fun header => shopifyCell (rowGet header (shopifyRow index item)))
                   shopifyHeaders).

(** [data.map((item, index) => ...)] *)
Fixpoint mapIndexed {A B : Type} (f : nat -> A -> B) (index : nat) (l : list A) : list B :=
  match l with
  | [] => []
  | x :: rest => f index x :: mapIndexed f (S index) rest
  end.

Definition formatShopifyCSV (data : list Js.Obj) : string :=
  match data with
  | [] => EmptyString
  | _ => Js.join nl (Js.join "," shopifyHeaders :: mapIndexed shopifyLine 0 data)
  end.

(** ** WordPress XML *)

(** The three readings of the clock made while one document is written:
    [formatWPDate(now)], [now.toUTCString()] and the later
    [new Date().toUTCString()]. *)
Record Clock : Type := mkClock {
  localStamp : string;
  utcStamp : string;
  utcStampLater : string
}.

Definition cdata (s : string) : string := ("<![CDATA[" ++ s ++ "]]>")%string.

Definition postmeta (key value : string) : string :=
  (nl ++ "      <wp:postmeta>" ++ nl
      ++ "        <wp:meta_key>" ++ cdata key ++ "</wp:meta_key>" ++ nl
      ++ "        <wp:meta_value>" ++ cdata value ++ "</wp:meta_value>" ++ nl
      ++ "      </wp:postmeta>")%string.

Definition standardKey (key : string) : bool :=
  existsb (String.eqb key) ["title"; "content"; "description"; "date"].

Definition notPostNameChar (c : ascii) : bool :=
  negb (Js.isLower c || Js.isDigit c || Ascii.eqb c "-").

(** [title.toLowerCase().replace(/\s+/g, '-').replace(/[^a-z0-9-]/g, '')];
    calling [toLowerCase] on a title that is not a string throws. *)
Definition postName (title : Js.Value) : Js.Result string :=
  match title with
  | Js.VStr t =>
      Js.Ok (Js.removeChars notPostNameChar
            (Js.hyphenateRuns Js.isSpace false (Js.toLowerCase t)))
  | _ => Js.Throw "title.toLowerCase is not a function"
  end.

Definition wordpressItem (clock : Clock) (index : nat) (item : Js.Obj) : Js.Result string :=
  let content :=
    Js.orElse (Js.get "content" item)
              (Js.orElse (Js.get "description" item) (Js.VStr EmptyString)) in
  let title :=
    Js.orElse (Js.get "title" item) (Js.VStr ("Post " ++ Js.natToString (index + 1))%string) in
  let number := Js.natToString (index + 1) in
  match postName title with
  | Js.Throw msg => Js.Throw msg
  | Js.Ok name =>
      Js.Ok (nl ++ lines
        [ "    <item>";
          "      <title>" ++ cdata (Js.toStr title) ++ "</title>";
          "      <link>https://example.com/?p=" ++ number ++ "</link>";
          "      <pubDate>" ++ utcStamp clock ++ "</pubDate>";
          "      <dc:creator>" ++ cdata "admin" ++ "</dc:creator>";
          "      <guid isPermaLink=" ++ quoted "false" ++ ">https://example.com/?p="
             ++ number ++ "</guid>";
          "      <description></description>";
          "      <content:encoded>" ++ cdata (Js.toStr content) ++ "</content:encoded>";
          "      <excerpt:encoded>" ++ cdata "" ++ "</excerpt:encoded>";
          "      <wp:post_id>" ++ number ++ "</wp:post_id>";
          "      <wp:post_date>" ++ cdata (localStamp clock) ++ "</wp:post_date>";
          "      <wp:post_date_gmt>" ++ cdata (localStamp clock) ++ "</wp:post_date_gmt>";
          "      <wp:post_modified>" ++ cdata (localStamp clock) ++ "</wp:post_modified>";
          "      <wp:post_modified_gmt>" ++ cdata (localStamp clock)
             ++ "</wp:post_modified_gmt>";
          "      <wp:comment_status>" ++ cdata "closed" ++ "</wp:comment_status>";
          "      <wp:ping_status>" ++ cdata "closed" ++ "</wp:ping_status>";
          "      <wp:post_name>" ++ cdata name ++ "</wp:post_name>";
          "      <wp:status>" ++ cdata "publish" ++ "</wp:status>";
          "      <wp:post_parent>0</wp:post_parent>";
          "      <wp:menu_order>0</wp:menu_order>";
          "      <wp:post_type>" ++ cdata "post" ++ "</wp:post_type>";
          "      <wp:post_password>" ++ cdata "" ++ "</wp:post_password>";
          "      <wp:is_sticky>0</wp:is_sticky>";
          "      " ++ String.concat EmptyString
                        (map (fun kv => postmeta (fst kv) (Js.toStr (snd kv)))
                             (filter (fun kv => negb (standardKey (fst kv))) item));
          "      " ++ (if Js.truthyOpt (Js.get "date" item)
                       then postmeta "original_date"
                              (Js.toStr (Js.orElse (Js.get "date" item) Js.VNull))
                       else EmptyString);
          "    </item>" ])%string
  end.

(** [data.map(...)] with a callback that may throw. *)
Fixpoint wordpressItems (clock : Clock) (index : nat) (data : list Js.Obj)
  : Js.Result (list string) :=
  match data with
  | [] => Js.Ok []
  | item :: rest =>
      match wordpressItem clock index item with
      | Js.Throw msg => Js.Throw msg
      | Js.Ok text =>
          match wordpressItems clock (S index) rest with
          | Js.Throw msg => Js.Throw msg
          | Js.Ok texts => Js.Ok (text :: texts)
          end
      end
  end.

Definition generateWordPressXML (clock : Clock) (data : list Js.Obj) : Js.Result string :=
  match wordpressItems clock 0 data with
  | Js.Throw msg => Js.Throw msg
  | Js.Ok items =>
      Js.Ok (lines
        [ "<?xml version=" ++ quoted "1.0" ++ " encoding=" ++ quoted "UTF-8" ++ "?>";
          "<!-- This is a WordPress eXtended RSS file generated by Firecrawl Content Migrator -->";
          "<!-- It contains information about your site's posts, pages, comments, categories, and other content -->";
          "<!-- You may use this file to transfer that content from one site to another -->";
          "<!-- This file is not intended to serve as a complete backup of your site -->";
          "";
          "<!-- generator=" ++ quoted "Firecrawl Content Migrator" ++ " created="
             ++ quoted (localStamp clock) ++ " -->";
          "<rss version=" ++ quoted "2.0";
          "  xmlns:excerpt=" ++ quoted "http://wordpress.org/export/1.2/excerpt/";
          "  xmlns:content=" ++ quoted "http://purl.org/rss/1.0/modules/content/";
          "  xmlns:wfw=" ++ quoted "http://wellformedweb.org/CommentAPI/";
          "  xmlns:dc=" ++ quoted "http://purl.org/dc/elements/1.1/";
          "  xmlns:wp=" ++ quoted "http://wordpress.org/export/1.2/";
          ">";
          "  <channel>";
          "    <title>Imported Content</title>";
          "    <link>https://example.com</link>";
          "    <description>Content imported from Firecrawl</description>";
          "    <pubDate>" ++ utcStampLater clock ++ "</pubDate>";
          "    <language>en-US</language>";
          "    <wp:wxr_version>1.2</wp:wxr_version>";
          "    <wp:base_site_url>https://example.com</wp:base_site_url>";
          "    <wp:base_blog_url>https://example.com</wp:base_blog_url>";
          "    ";
          "    <wp:author>";
          "      <wp:author_id>1</wp:author_id>";
          "      <wp:author_login>" ++ cdata "admin" ++ "</wp:author_login>";
          "      <wp:author_email>" ++ cdata "admin@example.com" ++ "</wp:author_email>";
          "      <wp:author_display_name>" ++ cdata "Admin" ++ "</wp:author_display_name>";
          "      <wp:author_first_name>" ++ cdata "" ++ "</wp:author_first_name>";
          "      <wp:author_last_name>" ++ cdata "" ++ "</wp:author_last_name>";
          "    </wp:author>";
          "    ";
          "    <generator>https://firecrawl.dev/?v=1.0</generator>";
          String.concat EmptyString items;
          "  </channel>";
          "</rss>" ])%string
  end.

(** ** Dispatch on the export format *)

Definition formatExportData (clock : Clock) (data : list Js.Obj) (format : string)
  : Js.Result string :=
  if String.eqb format "json" then Js.Ok (stringify EmptyString (recordsValue data))
  else if String.eqb format "shopify" then Js.Ok (formatShopifyCSV data)
  else if String.eqb format "csv" || String.eqb format "woocommerce"
          || String.eqb format "drupal" || String.eqb format "wix"
  then Js.Ok (convertToCSV data)
  else if String.eqb format "wordpress" || String.eqb format "squarespace"
  then generateWordPressXML clock data
  else if String.eqb format "webflow"
  then Js.Ok (stringify EmptyString (Js.VObj [("items", recordsValue data)]))
  else Js.Ok (stringify EmptyString (recordsValue data)).

(** ** Batched download *)

Fixpoint lookupExt (format : string) (table : list (string * string)) : string :=
  match table with
  | [] => "txt"
  | (k, ext) :: rest => if String.eqb format k then ext else lookupExt format rest
  end.

(** The [extensions] table of [downloadBatchedFiles]. *)
Definition batchExtensions : list (string * string) :=
  [ ("json", "json"); ("csv", "csv"); ("wordpress", "xml"); ("woocommerce", "csv");
    ("shopify", "csv"); ("webflow", "json"); ("drupal", "csv"); ("squarespace", "xml");
    ("wix", "csv") ].

(** The [extensions] table of [downloadFile]. *)
Definition fileExtensions : list (string * string) :=
  [ ("json", "json"); ("csv", "csv"); ("wordpress", "xml"); ("woocommerce", "csv");
    ("shopify", "csv"); ("webflow", "json"); ("drupal", "csv"); ("bigcommerce", "csv");
    ("squarespace", "xml"); ("wix", "csv") ].

(** [data.slice(from, to)] *)
Definition slice {A : Type} (from to : nat) (data : list A) : list A :=
  firstn (to - from) (skipn from data).

(** The loop [for (let i = 0; i < data.length; i += size)]. Each unit of
    fuel pays for one iteration; [None] means the fuel ran out. *)
Fixpoint sliceLoop {A : Type} (fuel : nat) (data : list A) (size i : nat)
         (batches : list (list A)) : option (list (list A)) :=
  if i <? List.length data then
    match fuel with
    | 0 => None
    | S fuel' =>
        sliceLoop fuel' data size (i + size) (batches ++ [slice i (i + size) data])
    end
  else Some batches.

(** [zip.file(name, content)]: a later file of the same name replaces the
    earlier one. *)
Fixpoint zipFile (name content : string) (zip : list (string * string))
  : list (string * string) :=
  match zip with
  | [] => [(name, content)]
  | (n, c) :: rest =>
      if String.eqb name n then (n, content) :: rest else (n, c) :: zipFile name content rest
  end.

Definition partName (i : nat) (ext : string) : string :=
  ("export-part" ++ Js.natToString (i + 1) ++ "." ++ ext)%string.

(** The loop [for (let i = 0; i < batches.length; i++)]; the clock is read
    anew for every part. *)
Fixpoint zipLoop (clock : nat -> Clock) (format ext : string) (batches : list (list Js.Obj))
         (i : nat) (zip : list (string * string)) : Js.Result (list (string * string)) :=
  match batches with
  | [] => Js.Ok zip
  | batch :: rest =>
      match formatExportData (clock i) batch format with
      | Js.Throw msg => Js.Throw msg
      | Js.Ok exportData => zipLoop clock format ext rest (S i) (zipFile (partName i ext) exportData zip)
      end
  end.

(** The texts of the parts: every batch formatted by [formatExportData], the
    [i]-th with the [i]-th reading of the clock; the first throw ends it. *)
Fixpoint formatParts (clock : nat -> Clock) (format : string) (batches : list (list Js.Obj))
         (i : nat) : Js.Result (list string) :=
  match batches with
  | [] => Js.Ok []
  | batch :: rest =>
      match formatExportData (clock i) batch format with
      | Js.Throw msg => Js.Throw msg
      | Js.Ok text =>
          match formatParts clock format rest (S i) with
          | Js.Throw msg => Js.Throw msg
          | Js.Ok texts => Js.Ok (text :: texts)
          end
      end
  end.

(** The [j]-th batch of [size] records. *)
Definition batchAt {A : Type} (data : list A) (size j : nat) : list A :=
  slice (j * size) (j * size + size) data.

Inductive Download : Type :=
| Nothing (alert : string)
| Hangs
| Fails (message : string)
| File (name content : string)
| Archive (name : string) (entries : list (string * string)).

(** [timestamp] is the text of [Date.now()]. The fuel given to the slicing
    loop is the number of records, which is enough whenever the loop ends. *)
Definition downloadBatchedFiles (clock : nat -> Clock) (timestamp : string)
           (data : list Js.Obj) (size : nat) (format : string) : Download :=
  match sliceLoop (List.length data) data size 0 [] with
  | None => Hangs
  | Some batches =>
      match zipLoop clock format (lookupExt format batchExtensions) batches 0 [] with
      | Js.Throw msg => Fails msg
      | Js.Ok zip => Archive ("export-" ++ timestamp ++ ".zip")%string zip
      end
  end.

Definition downloadFile (timestamp content format : string) : Download :=
  File ("export-" ++ timestamp ++ "." ++ lookupExt format fileExtensions)%string content.

(** [Math.ceil(n / size)] for a positive [size]. *)
Definition ceilDiv (n size : nat) : nat := (n + size - 1) / size.

Definition startExport (clock : nat -> Clock) (timestamp : string)
           (crawlData : list Js.Obj) (batchSize : nat) (exportFormat : string) : Download :=
  match crawlData with
  | [] => Nothing "Please crawl a website first"
  | _ =>
      if (0 <? batchSize) && (ceilDiv (List.length crawlData) batchSize =? 1) then
        match formatExportData (clock 0) crawlData exportFormat with
        | Js.Throw msg => Fails msg
        | Js.Ok exportData => downloadFile timestamp exportData exportFormat
        end
      else downloadBatchedFiles clock timestamp crawlData batchSize exportFormat
  end.

(** ** Reading a CSV text back *)

(** State of a reader that walks a CSV text: whether it is inside a quoted
    field, how many separators the current row has shown, and the widths
    of the rows already ended. *)
Record Scan : Type := mkScan {
  inQuotes : bool;
  commas : nat;
  widths : list nat
}.

(** A double quote opens or closes a quoted field (a doubled quote inside
    one closes and reopens it); outside quotes a comma ends a field and a
    line feed ends a row. *)
Definition scanStep (st : Scan) (c : ascii) : Scan :=
  if Ascii.eqb c Js.QUOTE then mkScan (negb (inQuotes st)) (commas st) (widths st)
  else if inQuotes st then st
  else if Ascii.eqb c Js.COMMA then mkScan false (S (commas st)) (widths st)
  else if Ascii.eqb c Js.LF then mkScan false 0 (widths st ++ [S (commas st)])
  else st.

Fixpoint scan (s : string) (st : Scan) : Scan :=
  match s with
  | EmptyString => st
  | String c s' => scan s' (scanStep st c)
  end.

(** A text that leaves a reader outside quotes where it was. *)
Definition neutral (s : string) : Prop :=
  forall n ws, scan s (mkScan false n ws) = mkScan false n ws.

(** A line of 28 fields. *)
Definition fullLine (l : string) : Prop :=
  forall ws, scan l (mkScan false 0 ws) = mkScan false 27 ws.

(** The number of fields of every row of a CSV text; the empty text has
    no row. *)
Definition csvWidths (s : string) : list nat :=
  match s with
  | EmptyString => []
  | _ => let st := scan s (mkScan false 0 []) in widths st ++ [S (commas st)]
  end.

End Formatter.

(* ================================================================== *)
(** * Sample inputs *)
(* ================================================================== *)

Module Samples.
Import Crawl.

(** A host on which no field pattern ever matches. *)
Definition quietHost : Host := mkHost (fun _ _ => SearchMiss) (fun _ => None).

Definition emptyScrape : ScrapeResponse :=
  mkScrape true None None None None None None None None None None.

(** A page that came back with structured data. *)
Definition structuredScrape (target title : string) : ScrapeResponse :=
  mkScrape true None None
    (Some [("title", Js.VStr title); ("price", Js.VNum "12.5")])
    None (Some "# ignored") None
    (Some [("sourceURL", Js.VStr target)]) (Some target) None None.

(** A page that came back with markdown only. *)
Definition markdownScrape (target md : string) : ScrapeResponse :=
  mkScrape true None None None None (Some md) None
    (Some [("sourceURL", Js.VStr target)]) (Some target) None None.

Definition refusedScrape : ScrapeResponse :=
  mkScrape false (Some "blocked") None None None None None None None None None.

Definition fiveUrls : list string :=
  ["https://shop.example/a"; "https://shop.example/b"; "https://shop.example/c";
   "https://shop.example/d"; "https://shop.example/e"].

(** Batch scraping rejects. Individually, [a], [c] and [e] succeed, [b]
    rejects and [d] resolves with [success: false]. The world counts the
    calls made. *)
Definition flakyApp : FirecrawlApp nat :=
  mkApp nat
    (fun target _ calls =>
       (if String.eqb target "https://shop.example/a"
        then Resolved (structuredScrape target "Alpha")
        else if String.eqb target "https://shop.example/b"
        then Rejected "socket hang up"
        else if String.eqb target "https://shop.example/c"
        then Resolved (markdownScrape target "# Gamma")
        else if String.eqb target "https://shop.example/d"
        then Resolved refusedScrape
        else Resolved (structuredScrape target "Epsilon"),
        S calls))
    (fun _ _ calls => (Rejected "batch endpoint unavailable", S calls)).

Definition pageOf (target : string) : Page :=
  mkPage (Some [("title", Js.VStr target)]) None None None (Some target) None None.

(** Batch scraping succeeds, one page per URL, reporting 99 credits. *)
Definition bulkApp : FirecrawlApp nat :=
  mkApp nat
    (fun _ _ calls => (Resolved emptyScrape, S calls))
    (fun urls _ calls =>
       (Resolved (mkBatch true None (Some (map pageOf urls)) (Some 99)), S calls)).

(** Every call rejects. *)
Definition downApp : FirecrawlApp nat :=
  mkApp nat
    (fun _ _ calls => (Rejected "connect ECONNREFUSED", S calls))
    (fun _ _ calls => (Rejected "connect ECONNREFUSED", S calls)).

Definition titleUrlSchema : Schema :=
  mkSchema "object"
    [("title", mkProperty "string" None); ("url", mkProperty "string" None)].

Definition request (s : option Schema) (infer : option bool) (urls : option (list string))
  : Body :=
  mkBody (Some "https://shop.example") s infer None urls None.

Definition liveKey : option string := Some "fc-3a9d".

(** The five-URL request with an explicit schema. *)
Definition fiveRequest : Body := request (Some titleUrlSchema) None (Some fiveUrls).

(** A clock that always shows the same instant. *)
Definition stoppedClock : nat -> Formatter.Clock :=
  fun _ => Formatter.mkClock "2025-01-01 10:00:00" "Wed, 01 Jan 2025 10:00:00 GMT"
                             "Wed, 01 Jan 2025 10:00:00 GMT".

Definition product (n : string) : Js.Obj := [("title", Js.VStr n); ("price", Js.VNum "9.5")].

(** A title with a comma, a quote and a line break; no weight, price or stock. *)
Definition awkwardProduct : Js.Obj :=
  [("title", Js.VStr ("Shoe, " ++ String Js.QUOTE "blue" ++ String Js.QUOTE EmptyString
                      ++ String Js.CR (String Js.LF "size 9"))%string);
   ("tags", Js.VArr [Js.VStr "a"; Js.VStr "b"])].

(** A record with every kind of value a record may hold. *)
Definition mixedRecord : Js.Obj :=
  [ ("title", Js.VStr ("Shoe " ++ String Js.QUOTE "blue" ++ String Js.QUOTE EmptyString
                       ++ String Js.LF "second line  " ++ String Formatter.BACKSLASH "n")%string);
    ("price", Js.VNum "-12.5e+21");
    ("tags", Js.VArr [Js.VStr "a"; Js.VStr ""]);
    ("inStock", Js.VBool true);
    ("sku", Js.VNull);
    ("none", Js.VArr []) ].

End Samples.

(* ================================================================== *)
(** * The schema-inference endpoint of the crawl route *)
(* ================================================================== *)

Module Analyze.
Import Crawl.

(** The answers of the handler: an error with its status and, after a
    scrape that went wrong, the fallback schema; or the inferred schema
    with a preview of the sample. *)
Inductive Answer : Type :=
| Refused (status : nat) (error : string) (fallbackSchema : option Schema)
| Analyzed (schema : Schema) (sampleContent : string).

Definition status (a : Answer) : nat :=
  match a with
  | Refused st _ _ => st
  | Analyzed _ _ => 200
  end.

Definition fallback (a : Answer) : option Schema :=
  match a with
  | Refused _ _ fb => fb
  | Analyzed _ _ => None
  end.

(** The options of the sample scrape: a 30 second timeout and a one day
    cache. *)
Definition analysisOptions : ScrapeOptions :=
  mkOptions ["markdown"; "html"] true (Some 30000) (Some "86400000") None.

(** [if (!url.startsWith('http://') && !url.startsWith('https://'))
    url = 'https://' + url] *)
Definition withProtocol (url : string) : string :=
  if negb (Js.startsWith "http://" url) && negb (Js.startsWith "https://" url)
  then ("https://" ++ url)%string
  else url.

Definition mentionsBadGateway (message : string) : bool :=
  Js.includes "502" message || Js.includes "Bad Gateway" message.

(** The message chosen by the outer [catch] for a rejection. *)
Definition rejectionMessage (message : string) : string :=
  if Js.includes "502" message
  then "The website is temporarily unavailable. Please try again later."
  else if Js.includes "timeout" message
  then "The website took too long to respond. Please try again."
  else if Js.includes "API key" message
  then "Invalid API key. Please check your Firecrawl API key."
  else message.

(** [scrapeResult.markdown?.substring(0, 1000) + '...']; an absent
    markdown prints as [undefined]. *)
Definition preview (markdown : option string) : string :=
  match markdown with
  | Some m => (Js.take 1000 m ++ "...")%string
  | None => "undefined..."
  end.

(** [scrapeResult.error || 'Unknown scraping error'] *)
Definition scrapeError (r : ScrapeResponse) : string :=
  match rerror r with
  | Some e => if Js.nonEmpty e then e else "Unknown scraping error"
  | None => "Unknown scraping error"
  end.

(** The handler, from the [url] query parameter on ([None] when the
    parameter is absent). [validUrl] tells whether [new URL] accepts a
    text. *)
Definition GET {W : Type} (app : FirecrawlApp W) (validUrl : string -> bool)
           (apiKey : option string) (param : option string) (w : W) : Answer * W :=
  if missing param then (Refused 400 "URL is required" None, w)
  else
    let url := withProtocol (orDefault param EmptyString) in
    if negb (validUrl url) then (Refused 400 "Invalid URL format" None, w)
    else if negb (keyConfigured apiKey) then
      (Refused 500 "Firecrawl API key not configured. Please check server configuration."
               None, w)
    else
      match scrapeUrl app url analysisOptions w with
      | (Rejected message, w') =>
          (Refused 500 (rejectionMessage message) (Some getDefaultSchema), w')
      | (Resolved r, w') =>
          if rsuccess r then
            (Analyzed (inferSchemaFromContent (rmarkdown r) (rhtml r))
                      (preview (rmarkdown r)), w')
          else if mentionsBadGateway (scrapeError r) then
            (Refused 503
               "The website is temporarily unavailable. Please try again later or try a different URL."
               (Some getDefaultSchema), w')
          else
            (Refused 500 ("Failed to analyze website: " ++ scrapeError r)%string
                     (Some getDefaultSchema), w')
      end.

End Analyze.

(* ================================================================== *)
(** * Sets of strings, as the client page uses them *)
(* ================================================================== *)

Module StringSet.

(** [xs.includes(x)] and [set.has(x)] *)
Definition includes (x : string) (xs : list string) : bool :=
  existsb (String.eqb x) xs.

(** [set.add(x)]: a new element is listed last. *)
Definition add (x : string) (s : list string) : list string :=
  if includes x s then s else s ++ [x].

(** [set.delete(x)] *)
Definition delete (x : string) (s : list string) : list string :=
  filter (fun y => negb (String.eqb x y)) s.

(** [new Set([...s, ...xs])], listed in insertion order. *)
Definition addAll (xs : list string) (s : list string) : list string :=
  fold_left (fun acc x => add x acc) xs s.

(** [[...new Set(xs)]]: the first occurrence of every element, in order. *)
Definition unique (xs : list string) : list string := addAll xs [].

End StringSet.

(* ================================================================== *)
(** * Selection in the tree view *)
(* ================================================================== *)

Module Selection.
Import UrlTree.

(** The URLs of a node followed by those of its children, in the order
    [Object.values] lists them. *)
Fixpoint getNodeUrls (node : TreeNode) : list string :=
  urls node ++ flat_map (fun kc => getNodeUrls (snd kc)) (children node).

Inductive SelectionState : Type := Full | Partial | Unselected.

Definition selectedCount (selectedUrls : list string) (node : TreeNode) : nat :=
  List.length (filter (fun url => StringSet.includes url selectedUrls) (getNodeUrls node)).

Definition isNodeSelected (selectedUrls : list string) (node : TreeNode) : SelectionState :=
  if selectedCount selectedUrls node =? 0 then Unselected
  else if selectedCount selectedUrls node =? List.length (getNodeUrls node) then Full
  else Partial.

(** The selection handed to [onSelectionChange] when the check box of a
    node is clicked. *)
Definition toggleNodeSelection (selectedUrls : list string) (node : TreeNode) : list string :=
  match isNodeSelected selectedUrls node with
  | Full =>
      filter (fun url => negb (StringSet.includes url (getNodeUrls node))) selectedUrls
  | _ => StringSet.unique (selectedUrls ++ getNodeUrls node)
  end.

(** The updater of [expandedNodes] when a node is folded or unfolded. *)
Definition toggleNode (path : string) (expanded : list string) : list string :=
  if StringSet.includes path expanded
  then StringSet.delete path expanded
  else StringSet.add path expanded.

End Selection.

(* ================================================================== *)
(** * Mapping below a node of the tree *)
(* ================================================================== *)

Module Mapping.
Import UrlTree.

(** The callback of [result.urls.filter]: both the URL and the mapped
    path must parse; only their path names are compared. *)
Definition underPath (parse : Parser) (path url : string) : bool :=
  match parse url with
  | Some urlObj =>
      match parse path with
      | Some mapped => Js.startsWith (pathname mapped) (pathname urlObj)
      | None => false
      end
  | None => false
  end.

(** [pathUrls.length > 0 ? pathUrls : [path]] *)
Definition urlsToAdd (parse : Parser) (path : string) (found : list string) : list string :=
  match filter (underPath parse path) found with
  | [] => [path]
  | pathUrls => pathUrls
  end.

(** One step of the loop of [expandParents]. *)
Definition expandStep (state : string * list string) (part : string) : string * list string :=
  let currentPath :=
    if Js.nonEmpty (fst state) then (fst state ++ "/" ++ part)%string
    else ("https://" ++ part)%string in
  (currentPath, snd state ++ [currentPath]).

(** The paths [expandParents] adds to the expanded nodes. *)
Definition expandParents (nodePath : string) : list string :=
  snd (fold_left expandStep (filter Js.nonEmpty (Js.split "/" nodePath)) (EmptyString, [])).

(** What [/api/map] answered: [Mapped] when [success] holds and [urls] is
    an array; [NotMapped] otherwise, with [result.error], or with the
    message of a request that failed. *)
Inductive MapReply : Type :=
| Mapped (found : list string)
| NotMapped (error : option string).

(** The part of the page state that mapping touches. *)
Record Explorer : Type := mkExplorer {
  mapResults : list string;
  selectedUrls : list string;
  expandedNodes : list string;
  mappingNodes : list string
}.

(** [handleMapNode] once the reply has arrived: the new state and the
    alert shown, if any. The node is taken off [mappingNodes] in either
    case. *)
Definition handleMapNode (parse : Parser) (path : string) (reply : MapReply) (st : Explorer)
  : Explorer * option string :=
  let mapping := StringSet.delete path (StringSet.add path (mappingNodes st)) in
  match reply with
  | Mapped found =>
      let added := urlsToAdd parse path found in
      (mkExplorer (StringSet.unique (mapResults st ++ added))
                  (StringSet.unique (selectedUrls st ++ added))
                  (StringSet.addAll (expandParents path)
                     (StringSet.add path (expandedNodes st)))
                  mapping,
       None)
  | NotMapped error =>
      (mkExplorer (mapResults st) (selectedUrls st) (expandedNodes st) mapping,
       Some (match error with
             | Some e => if Js.nonEmpty e then e else "Failed to map path"
             | None => "Failed to map path"
             end))
  end.

End Mapping.

(* ================================================================== *)
(** * The schema editor and the crawl request of the client page *)
(* ================================================================== *)

Module SchemaEditor.

Record SchemaField : Type := mkField {
  name : string;
  ftype : string;
  fdescription : option string
}.

Definition emptyField : SchemaField := mkField EmptyString "string" None.

(** The fields the page starts with. *)
Definition initialFields : list SchemaField :=
  [mkField "title" "string" None; mkField "date" "string" None; emptyField].

(** A field that has a name. *)
Definition named (f : SchemaField) : bool := Js.nonEmpty (name f).

(** [fields.filter((_, i) => i !== index)] *)
Fixpoint dropIndex {A : Type} (index : nat) (l : list A) : list A :=
  match l, index with
  | [], _ => []
  | _ :: rest, 0 => rest
  | x :: rest, S i => x :: dropIndex i rest
  end.

(** [newFields[newFields.length - 1].name !== ''] on a list that is not
    empty. *)
Fixpoint lastIsNamed (fields : list SchemaField) : bool :=
  match fields with
  | [] => false
  | [f] => Js.nonEmpty (name f)
  | _ :: rest => lastIsNamed rest
  end.

Definition removeSchemaField (index : nat) (fields : list SchemaField) : list SchemaField :=
  let newFields := dropIndex index fields in
  match newFields with
  | [] => newFields ++ [emptyField]
  | _ => if lastIsNamed newFields then newFields ++ [emptyField] else newFields
  end.

(** [name.replace(/\s+/g, '_')]: every maximal run of white space becomes
    one underscore. [inRun] tells that the previous character was white
    space. *)
Fixpoint underscoreRuns (inRun : bool) (s : string) : string :=
  match s with
  | EmptyString => EmptyString
  | String c s' =>
      if Js.isSpace c then
        if inRun then underscoreRuns true s'
        else String "_" (underscoreRuns true s')
      else String c (underscoreRuns false s')
  end.

Definition safeName (n : string) : string := underscoreRuns false n.

(** [properties[k] = v] on an object literal: the key [__proto__] reaches
    the setter inherited from [Object.prototype] and creates no property. *)
Definition assign (k : string) (v : Crawl.SchemaProperty)
           (properties : list (string * Crawl.SchemaProperty))
  : list (string * Crawl.SchemaProperty) :=
  if String.eqb k "__proto__" then properties else Js.set k v properties.

(** The body of [schemaFields.forEach] in [getSchema]. *)
Definition defineField (properties : list (string * Crawl.SchemaProperty)) (field : SchemaField)
  : list (string * Crawl.SchemaProperty) :=
  if Js.nonEmpty (name field)
  then assign (safeName (name field)) (Crawl.mkProperty (ftype field) None) properties
  else properties.

Definition getSchema (schemaFields : list SchemaField) : Crawl.Schema :=
  Crawl.mkSchema "object" (fold_left defineField schemaFields []).

Inductive Platform : Type :=
| Wordpress | Shopify | Webflow | Drupal | Squarespace | Wix | Csv | Custom.

(** The export format after [selectPlatform]; [None] is the platform
    [null], for which the [switch] has no case. *)
Definition selectPlatform (platform : option Platform) (exportFormat : string) : string :=
  match platform with
  | Some Wordpress => "wordpress"
  | Some Shopify => "shopify"
  | Some Webflow => "webflow"
  | Some Drupal => "drupal"
  | Some Csv => "csv"
  | Some Squarespace => "squarespace"
  | Some Wix => "wix"
  | Some Custom => "json"
  | None => exportFormat
  end.

(** What [startCrawl] does first: an alert, or the request sent to
    [/api/crawl], here as the route reads it ([limit] and [strategy],
    which the route ignores, are left out; an [undefined] schema is not
    part of the JSON text). *)
Inductive CrawlStart : Type :=
| Alert (message : string)
| Send (body : Crawl.Body).

Definition startCrawl (sourceUrl : string) (selectedUrls : list string)
           (schemaFields : list SchemaField) (saveRawResults : bool) : CrawlStart :=
  if negb (Js.nonEmpty sourceUrl) then Alert "Please enter a URL"
  else
    match selectedUrls with
    | [] => Alert "Please map the site and select URLs to scrape"
    | _ =>
        let named := filter (fun f => Js.nonEmpty (name f)) schemaFields in
        Send (Crawl.mkBody (Some sourceUrl)
                (match named with [] => None | _ => Some (getSchema schemaFields) end)
                (Some (match named with [] => true | _ => false end))
                (Some saveRawResults)
                (Some selectedUrls)
                None)
    end.

End SchemaEditor.

(* ================================================================== *)
(** * Vocabulary of the further statements *)
(* ================================================================== *)

Module Vocabulary.

(** A list of entries that is the enumeration of an object: defining the
    entries one after the other lists them as they are. *)
Definition enumerated {A : Type} (o : list (string * A)) : Prop :=
  fold_left (fun acc kv => Js.set (fst kv) (snd kv) acc) o [] = o.

Definition startsWithSpace (s : string) : bool :=
  match s with
  | String c _ => Js.isSpace c
  | EmptyString => false
  end.

Fixpoint endsWithSpace (s : string) : bool :=
  match s with
  | EmptyString => false
  | String c EmptyString => Js.isSpace c
  | String _ s' => endsWithSpace s'
  end.

(** The type and the description of a property of a JSON schema. *)
Definition jsonType (v : Js.Value) : option Js.Value :=
  match v with Js.VObj fields => Js.get "type" fields | _ => None end.

Definition jsonDescription (v : Js.Value) : option Js.Value :=
  match v with Js.VObj fields => Js.get "description" fields | _ => None end.

(** A value that the generic CSV writer prints as one field: a string,
    which it quotes, or [null], a boolean or a Number, whose images hold
    no comma, quote or line feed. *)
Definition csvScalar (v : Js.Value) : bool :=
  match v with
  | Js.VStr _ | Js.VNull | Js.VBool _ => true
  | Js.VNum repr => negb (Formatter.needsQuoting repr)
  | Js.VArr _ | Js.VObj _ => false
  end.


(** The characters of a handle: small letters, digits and the hyphen. *)
Definition handleChar (c : ascii) : bool :=
  Js.isLower c || Js.isDigit c || Ascii.eqb c "-".

Fixpoint endsWithHyphen (s : string) : bool :=
  match s with
  | EmptyString => false
  | String c EmptyString => Ascii.eqb c "-"
  | String _ s' => endsWithHyphen s'
  end.

(** No two children of [n] share a name. *)
Definition distinct (n : UrlTree.TreeNode) : Prop :=
  NoDup (map fst (UrlTree.children n)).

(** The same for a list of children and at every node below them. *)
Definition namesOk (cs : list (string * UrlTree.TreeNode)) : Prop :=
  NoDup (map fst cs) /\
  Forall (fun kc => Forall distinct (UrlTree.nodesOf (snd kc))) cs.

(** Every node below [n] has the path of its parent followed by a slash
    and its own name. *)
Fixpoint pathsFollow (n : UrlTree.TreeNode) : bool :=
  forallb (fun kc =>
             String.eqb (UrlTree.path (snd kc))
                        (UrlTree.path n ++ "/" ++ fst kc)%string
             && pathsFollow (snd kc))
          (UrlTree.children n).

(** The same for the children listed at the path [here]. *)
Definition follows (here : string) (cs : list (string * UrlTree.TreeNode)) : bool :=
  forallb (fun kc =>
             String.eqb (UrlTree.path (snd kc)) (here ++ "/" ++ fst kc)%string
             && pathsFollow (snd kc))
          cs.

End Vocabulary.

(* ================================================================== *)
(** * Further sample inputs *)
(* ================================================================== *)

Module Fixtures.
Import Crawl.

(** A [URL] constructor that accepts every text. *)
Definition anyUrl : string -> bool := fun _ => true.

(** The scrape resolves with [success: false] behind a failing gateway. *)
Definition gatewayApp : FirecrawlApp nat :=
  mkApp nat
    (fun _ _ calls =>
       (Resolved (mkScrape false (Some "Request failed with status code 502")
                           None None None None None None None None None),
        S calls))
    (fun _ _ calls => (Rejected "Request failed with status code 502", S calls)).

(** The scrape resolves with the markdown of a blog post. *)
Definition blogApp : FirecrawlApp nat :=
  mkApp nat
    (fun target _ calls =>
       (Resolved (mkScrape true None None None None
                           (Some "# Our blog" ) None None (Some target) None None),
        S calls))
    (fun _ _ calls => (Rejected "not used", S calls)).

(** A small tree: two pages below [/a], one page [/b]. *)
Definition shopTree : UrlTree.Tree :=
  UrlTree.buildUrlTree UrlTree.plainUrl
    ["https://shop.example/a/x"; "https://shop.example/a/y"; "https://shop.example/b"].

Definition shopRoot : UrlTree.TreeNode :=
  match shopTree with
  | (_, node) :: _ => node
  | [] => UrlTree.emptyNode EmptyString
  end.

(** The node [/a] of the tree. *)
Definition shopA : UrlTree.TreeNode :=
  match UrlTree.findChild "a" (UrlTree.children shopRoot) with
  | Some node => node
  | None => UrlTree.emptyNode EmptyString
  end.

End Fixtures.

(* ================================================================== *)
(** * Properties: date extraction *)
(* ================================================================== *)

Section DateExtraction.
Import Markdown.

Example date_iso : extractDateFromMarkdown "2024-03-05" = "2024-03-05".
Proof. vm_compute. reflexivity. Qed.

Example date_none : extractDateFromMarkdown "no date pattern here" = "".
Proof. vm_compute. reflexivity. Qed.

Example date_slash : extractDateFromMarkdown "on 12/3/2021 we met" = "12/3/2021".
Proof. vm_compute. reflexivity. Qed.

Example date_day_first : extractDateFromMarkdown "on 21 Oct 2024 we met" = "21 Oct 2024".
Proof. vm_compute. reflexivity. Qed.

Example date_full_month : extractDateFromMarkdown "October 21, 2024" = "October".
Proof. vm_compute. reflexivity. Qed.

(** The pattern order, not the position in the text, decides. *)
Example date_order : extractDateFromMarkdown "21 Oct 2024, revised 2024-11-02" = "2024-11-02".
Proof. vm_compute. reflexivity. Qed.

(** C4. On the text [Published Oct 21, 2024] the first four patterns fail
    and the fifth matches [Oct 21, 2024]; the function returns group 1 of
    that match, which is the month abbreviation alone. *)
Theorem extractDate_abbreviated_month_returns_month_only :
  extractDateFromMarkdown "Published Oct 21, 2024" = "Oct" /\
  extractDateFromMarkdown "Published Oct 21, 2024" <> "Oct 21, 2024" /\
  option_map Regex.whole
    (Regex.search (nth 4 datePatterns Regex.Eps) "Published Oct 21, 2024")
    = Some "Oct 21, 2024".
Proof.
  split; [ vm_compute; reflexivity | split ].
  - vm_compute. discriminate.
  - vm_compute. reflexivity.
Qed.

End DateExtraction.

(* ================================================================== *)
(** * Properties: the crawl route *)
(* ================================================================== *)

Section CrawlFacts.
Import Crawl.

Context {W : Type} (app : FirecrawlApp W) (host : Host).

Lemma orNat_same n : Js.orNat n n = n.
Proof. unfold Js.orNat. destruct (n =? 0); reflexivity. Qed.

Lemma fallbackLoop_length opts urls : forall w,
  List.length (fst (fallbackLoop app opts urls w)) = List.length urls.
Proof.
  induction urls as [|u rest IH]; intros w; simpl; [reflexivity|].
  destruct (scrapeUrl app u opts w) as [o w1].
  specialize (IH w1).
  destruct (fallbackLoop app opts rest w1) as [rs w2]. simpl in *.
  now rewrite IH.
Qed.

Lemma fieldValue_ok page k p :
  (forall md msg, fieldRegExp host k md <> SearchThrows msg) ->
  exists v, fieldValue host page k p = Js.Ok v.
Proof.
  intros H. unfold fieldValue.
  destruct (String.eqb k "title"); [eauto|].
  destruct (String.eqb k "date"); [eauto|].
  destruct (String.eqb k "content"); [eauto|].
  destruct (String.eqb k "url"); [eauto|].
  unfold extractFieldFromMarkdown.
  destruct (fieldRegExp host k _) as [msg| |cap] eqn:E.
  - exfalso. exact (H _ _ E).
  - destruct (String.eqb _ "array"); eauto.
  - destruct (String.eqb _ "number"); [destruct (parseFloat host _); eauto|].
    destruct (String.eqb _ "boolean"); [eauto|].
    destruct (String.eqb _ "array"); eauto.
Qed.

Lemma structuredData_ok page props : forall acc,
  (forall k p md msg, In (k, p) props -> fieldRegExp host k md <> SearchThrows msg) ->
  exists o, structuredData host page props acc = Js.Ok o.
Proof.
  induction props as [|[k p] rest IH]; intros acc H; simpl; [eauto|].
  destruct (fieldValue_ok page k p) as [v Hv].
  - intros md msg. apply (H k p). now left.
  - rewrite Hv. apply IH. intros k' p' md msg Hin. apply (H k' p'). now right.
Qed.

Lemma extractPage_ok s page :
  fieldsCompile host s -> exists o, extractPage host s page = Js.Ok o.
Proof.
  intros H. unfold extractPage.
  destruct (pjson page); [eauto|].
  destruct (pextract page); [eauto|].
  now apply structuredData_ok.
Qed.

Lemma extractAll_ok s pages :
  fieldsCompile host s ->
  exists os, extractAll host s pages = Js.Ok os.
Proof.
  intros H. induction pages as [|page rest [os IH]]; simpl; [eauto|].
  destruct (extractPage_ok s page H) as [o Ho]. rewrite Ho, IH. eauto.
Qed.

Lemma extractAll_length s pages : forall os,
  extractAll host s pages = Js.Ok os -> List.length os = List.length pages.
Proof.
  induction pages as [|page rest IH]; simpl; intros os H.
  - now inversion H.
  - destruct (extractPage host s page); [|discriminate].
    destruct (extractAll host s rest); [|discriminate].
    inversion H; subst. simpl. f_equal. now apply IH.
Qed.

Lemma extractAll_each s pages : forall os,
  extractAll host s pages = Js.Ok os ->
  Forall2 (fun page o => extractPage host s page = Js.Ok o) pages os.
Proof.
  induction pages as [|page rest IH]; simpl; intros os H.
  - inversion H. constructor.
  - destruct (extractPage host s page) eqn:E; [|discriminate].
    destruct (extractAll host s rest); [|discriminate].
    inversion H; subst. constructor; auto.
Qed.

(** What a successful response was computed from. *)
Lemma POST_success_inv apiKey body w r w' :
  POST app host apiKey body w = (Success r, w') ->
  exists finalSchema w1 c path extracted,
    missing (url body) = false /\
    keyConfigured apiKey = true /\
    resolveSchema app body (orDefault (url body) EmptyString) w
      = (Js.Ok (Some finalSchema), w1) /\
    orDefault (selectedUrls body) [] <> [] /\
    scrapePages app (scrapeOptionsFor finalSchema (orDefault (maxAge body) "0"))
                (orDefault (selectedUrls body) []) w1 = (c, path, w') /\
    extractAll host finalSchema (cdata c) = Js.Ok extracted /\
    r = respond body finalSchema (orDefault (selectedUrls body) []) c extracted.
Proof.
  unfold POST. intros H.
  destruct (missing (url body)) eqn:Hu; [discriminate|].
  destruct (keyConfigured apiKey) eqn:Hk; simpl in H; [|discriminate].
  destruct (resolveSchema app body _ w) as [[[fs|]|msg] w1] eqn:Hr;
    try discriminate.
  destruct (orDefault (selectedUrls body) []) as [|u us] eqn:Hs; [discriminate|].
  destruct (scrapePages app _ (u :: us) w1) as [[c path] w2] eqn:Hp.
  destruct (extractAll host fs (cdata c)) as [ex|msg] eqn:He; [|discriminate].
  inversion H; subst.
  exists fs, w1, c, path, ex. repeat split; auto. discriminate.
Qed.

(** The converse: a request that passes the checks, whose pages are
    scraped and extracted, is answered with [respond]. *)
Lemma POST_success_intro apiKey body w finalSchema w1 c path w2 extracted :
  missing (url body) = false ->
  keyConfigured apiKey = true ->
  resolveSchema app body (orDefault (url body) EmptyString) w
    = (Js.Ok (Some finalSchema), w1) ->
  orDefault (selectedUrls body) [] <> [] ->
  scrapePages app (scrapeOptionsFor finalSchema (orDefault (maxAge body) "0"))
              (orDefault (selectedUrls body) []) w1 = (c, path, w2) ->
  extractAll host finalSchema (cdata c) = Js.Ok extracted ->
  POST app host apiKey body w
    = (Success (respond body finalSchema (orDefault (selectedUrls body) []) c extracted), w2).
Proof.
  intros Hu Hk Hr Hs Hp He. unfold POST.
  rewrite Hu, Hk. simpl. rewrite Hr.
  destruct (orDefault (selectedUrls body) []) as [|u us] eqn:E; [congruence|].
  rewrite Hp, He. reflexivity.
Qed.

Lemma scrapePages_fallback opts urls w o w1 results w2 :
  batchScrapeUrls app urls opts w = (o, w1) ->
  batchSucceeded o = false ->
  fallbackLoop app opts urls w1 = (results, w2) ->
  scrapePages app opts urls w
    = (mkCrawl (map pageOfResult (filter rsuccess results)) (List.length urls)
               (List.length (filter rsuccess results))
               (Some (List.length (filter rsuccess results))),
       FallbackPath, w2).
Proof.
  intros Hb Hf Hl. unfold scrapePages, fallbackCrawl. rewrite Hb.
  destruct o as [b|msg]; simpl in Hf.
  - rewrite Hf, Hl. reflexivity.
  - rewrite Hl. reflexivity.
Qed.

(** C1, as the handler implements it. A request with no selected URL, or
    for which no schema can be resolved (none is sent, and inference is
    not requested or its sample scrape rejects), is always answered with
    a failure, hence without records. The status is 400 when the API key
    is configured and the sample scrape of schema inference, if one is
    made, does not reject. *)
Theorem unusable_request_is_rejected apiKey body w :
  orDefault (selectedUrls body) [] = [] \/
    (schema body = None /\
     (orDefault (autoInfer body) false = false \/
      exists m, fst (scrapeUrl app (orDefault (url body) EmptyString) sampleOptions w)
                = Rejected m)) ->
  exists st msg,
    fst (POST app host apiKey body w) = Failure st msg /\
    records (fst (POST app host apiKey body w)) = [] /\
    (keyConfigured apiKey = true ->
     (schema body = None -> orDefault (autoInfer body) false = true ->
      forall m, fst (scrapeUrl app (orDefault (url body) EmptyString) sampleOptions w)
                <> Rejected m) ->
     st = 400).
Proof.
  intros H. unfold POST.
  destruct (missing (url body)); [do 2 eexists; simpl; eauto|].
  destruct (keyConfigured apiKey); simpl;
    [|do 2 eexists; simpl; repeat split; intros; discriminate].
  unfold resolveSchema.
  destruct (schema body) as [s|] eqn:Hs.
  - destruct H as [H|[H _]]; [|discriminate].
    rewrite H. do 2 eexists; simpl; eauto.
  - destruct (orDefault (autoInfer body) false) eqn:Ha.
    + destruct (scrapeUrl app _ sampleOptions w) as [[r|m] w1] eqn:Hsc; simpl.
      * destruct H as [H|[_ [H|[m H]]]]; [|discriminate H|discriminate H].
        destruct (rsuccess r); rewrite H; do 2 eexists; simpl; eauto.
      * do 2 eexists; simpl; repeat split.
        intros _ Hno. exfalso. exact (Hno eq_refl eq_refl m eq_refl).
    + do 2 eexists; simpl; eauto.
Qed.

(** The fallback loop pushes one entry per answer of the client: the
    result that resolved, or a failed entry for a rejection. *)
Lemma fallbackLoop_scrapedInTurn opts urls : forall w,
  fallbackLoop app opts urls w
  = (map (fun uo => match snd uo with
                    | Resolved r => r
                    | Rejected msg => failedScrape msg (fst uo)
                    end)
         (combine urls (fst (scrapedInTurn app opts urls w))),
     snd (scrapedInTurn app opts urls w)).
Proof.
  induction urls as [|u rest IH]; intros w; cbn [fallbackLoop scrapedInTurn];
    [reflexivity|].
  destruct (scrapeUrl app u opts w) as [o w1].
  rewrite (IH w1).
  destruct (scrapedInTurn app opts rest w1) as [os w2].
  reflexivity.
Qed.

Lemma scrapedInTurn_length opts urls : forall w,
  List.length (fst (scrapedInTurn app opts urls w)) = List.length urls.
Proof.
  induction urls as [|u rest IH]; intros w; cbn [scrapedInTurn]; [reflexivity|].
  destruct (scrapeUrl app u opts w) as [o w1].
  specialize (IH w1).
  destruct (scrapedInTurn app opts rest w1) as [os w2].
  cbn [fst List.length] in *. now rewrite IH.
Qed.

(** Filtering the entries on [success] leaves the scrapes that succeeded:
    the entry pushed for a rejection has [success: false]. *)
Lemma filter_entries_succeeded : forall urls outcomes,
  filter rsuccess
    (map (fun uo => match snd uo with
                    | Resolved r => r
                    | Rejected msg => failedScrape msg (fst uo)
                    end)
         (combine urls outcomes))
  = succeeded (firstn (List.length urls) outcomes).
Proof.
  induction urls as [|u rest IH]; intros [|o os]; cbn [combine map filter firstn List.length];
    try reflexivity.
  unfold succeeded. cbn [flat_map snd fst]. fold (succeeded (firstn (List.length rest) os)).
  rewrite <- IH.
  destruct o as [r|msg]; cbn [failedScrape rsuccess]; [|reflexivity].
  destruct (rsuccess r); reflexivity.
Qed.

(** A throw of the extraction is a throw of the [RegExp] built from a
    field of the schema, on the markdown of one of the pages. *)
Lemma extractAll_throws s pages msg :
  extractAll host s pages = Js.Throw msg ->
  exists page k p,
    In page pages /\ In (k, p) (properties s) /\
    fieldRegExp host k (orDefault (pmarkdown page) EmptyString) = SearchThrows msg.
Proof.
  induction pages as [|page rest IH]; cbn [extractAll]; [discriminate|].
  destruct (extractPage host s page) as [o|m] eqn:E.
  - destruct (extractAll host s rest) as [os|m]; [discriminate|].
    intros H. destruct (IH H) as (page' & k & p & Hin & Hk & Hthrow).
    exists page', k, p. split; [now right|]. split; assumption.
  - intros H. injection H as <-.
    exists page. unfold extractPage in E.
    destruct (pjson page); [discriminate|]. destruct (pextract page); [discriminate|].
    assert (Hs : forall props acc,
               structuredData host page props acc = Js.Throw m ->
               exists k p, In (k, p) props /\
                 fieldRegExp host k (orDefault (pmarkdown page) EmptyString) = SearchThrows m).
    { induction props as [|[k p] props IHp]; intros acc; cbn [structuredData]; [discriminate|].
      destruct (fieldValue host page k p) as [v|m'] eqn:Ev.
      - intros H. destruct (IHp _ H) as (k' & p' & Hin & Ht).
        exists k', p'. split; [now right|exact Ht].
      - intros H. injection H as ->. exists k, p. split; [now left|].
        unfold fieldValue in Ev.
        destruct (String.eqb k "title"); [discriminate|].
        destruct (String.eqb k "date"); [discriminate|].
        destruct (String.eqb k "content"); [discriminate|].
        destruct (String.eqb k "url"); [discriminate|].
        unfold extractFieldFromMarkdown in Ev.
        destruct (fieldRegExp host k _) as [m'| |cap].
        + now injection Ev as ->.
        + destruct (String.eqb _ "array"); discriminate.
        + destruct (String.eqb _ "number"); [destruct (parseFloat host _); discriminate|].
          destruct (String.eqb _ "boolean"); [discriminate|].
          destruct (String.eqb _ "array"); discriminate. }
    destruct (Hs _ _ E) as (k & p & Hin & Ht).
    exists k, p. split; [now left|]. split; assumption.
Qed.

(** C2. When the batch call rejects or reports [success: false], every
    selected URL is scraped on its own, in order, whatever the scrapes
    before it answered. The aggregate result holds one page per scrape
    that resolved with [success: true], in order: the page nested under
    [data] when there is one, else the page made of the fields of the
    result itself; [completed] is their number. With five URLs of which
    three succeed there are three pages and [completed] is 3. The answer
    is then a success with one record per such page, unless the [RegExp]
    built from a field name of the schema throws on the markdown of a
    page that was scraped: no failed scrape ever makes the answer a
    failure. The request is one that reaches the scraping stage. *)
Theorem fallback_returns_successful_pages
        apiKey body w finalSchema w1 o w2 outcomes w3 :
  let urls := orDefault (selectedUrls body) [] in
  let opts := scrapeOptionsFor finalSchema (orDefault (maxAge body) "0") in
  let successes := succeeded outcomes in
  let sourceURL s :=
    match rmetadata s with
    | Some metadata => Js.get "sourceURL" metadata
    | None => Some (Js.VStr EmptyString)
    end in
  let page s :=
    match rdata s with
    | Some nested => nested
    | None =>
        mkPage (rjson s) (rextract s)
               (Some (orDefault (rmarkdown s) EmptyString))
               (Some (orDefault (rmetadata s) []))
               (Some (if missing (rurl s)
                      then Js.toStr (Js.orElse (sourceURL s) (Js.VStr EmptyString))
                      else orDefault (rurl s) EmptyString))
               (Some (orDefault (rlinks s) []))
               (rscreenshot s)
    end in
  missing (url body) = false ->
  keyConfigured apiKey = true ->
  resolveSchema app body (orDefault (url body) EmptyString) w
    = (Js.Ok (Some finalSchema), w1) ->
  urls <> [] ->
  batchScrapeUrls app urls opts w1 = (o, w2) ->
  (forall b, o = Resolved b -> bsuccess b = false) ->
  scrapedInTurn app opts urls w2 = (outcomes, w3) ->
  List.length outcomes = List.length urls /\
  (exists c,
     scrapePages app opts urls w1 = (c, FallbackPath, w3) /\
     cdata c = map page successes /\
     ccompleted c = List.length successes /\
     ctotal c = List.length urls /\
     (List.length urls = 5 -> List.length successes = 3 ->
      List.length (cdata c) = 3 /\ ccompleted c = 3)) /\
  snd (POST app host apiKey body w) = w3 /\
  (fieldsCompile host finalSchema ->
   exists r,
     POST app host apiKey body w = (Success r, w3) /\
     Forall2 (fun s record => extractPage host finalSchema (page s) = Js.Ok record)
             successes (data r) /\
     completed r = List.length successes /\
     totalPages r = List.length urls /\
     (List.length urls = 5 -> List.length successes = 3 ->
      List.length (data r) = 3 /\ completed r = 3)) /\
  (forall st msg,
     fst (POST app host apiKey body w) = Failure st msg ->
     st = 500 /\
     exists s field property,
       In s successes /\ In (field, property) (properties finalSchema) /\
       fieldRegExp host field (orDefault (pmarkdown (page s)) EmptyString)
       = SearchThrows msg).
Proof.
  intros urls opts successes sourceURL page Hu Hk Hr Hs Hb Hf Hl.
  assert (Hlen : List.length outcomes = List.length urls).
  { pose proof (scrapedInTurn_length opts urls w2) as L. rewrite Hl in L. exact L. }
  assert (Hloop : fallbackLoop app opts urls w2
                  = (map (fun uo => match snd uo with
                                    | Resolved r => r
                                    | Rejected msg => failedScrape msg (fst uo)
                                    end) (combine urls outcomes), w3)).
  { rewrite fallbackLoop_scrapedInTurn, Hl. reflexivity. }
  assert (Hbatch : batchSucceeded o = false).
  { destruct o as [b|m]; [exact (Hf b eq_refl)|reflexivity]. }
  pose proof (scrapePages_fallback opts urls w1 o w2 _ w3 Hb Hbatch Hloop) as Hp.
  assert (Hall : firstn (List.length urls) outcomes = outcomes)
    by (rewrite <- Hlen; apply firstn_all).
  rewrite filter_entries_succeeded, Hall in Hp.
  fold successes in Hp.
  assert (Hpages : map pageOfResult successes = map page successes) by reflexivity.
  rewrite Hpages in Hp.
  assert (HP : POST app host apiKey body w
               = (match extractAll host finalSchema (map page successes) with
                  | Js.Throw msg => Failure 500 msg
                  | Js.Ok extracted =>
                      Success (respond body finalSchema urls
                                 (mkCrawl (map page successes) (List.length urls)
                                    (List.length successes)
                                    (Some (List.length successes))) extracted)
                  end, w3)).
  { unfold POST. rewrite Hu, Hk. cbn [negb]. rewrite Hr.
    fold urls. destruct urls as [|u us] eqn:E; [congruence|].
    fold opts. rewrite Hp. cbn [cdata].
    destruct (extractAll host finalSchema (map page successes)); reflexivity. }
  split; [exact Hlen|]. split; [|split; [|split]].
  - eexists. split; [exact Hp|]. cbn [cdata ccompleted ctotal].
    split; [reflexivity|]. split; [reflexivity|]. split; [reflexivity|].
    intros _ H3. rewrite length_map. split; exact H3.
  - rewrite HP. reflexivity.
  - intros Hc.
    destruct (extractAll_ok finalSchema (map page successes) Hc) as [os Hos].
    pose proof (extractAll_length _ _ _ Hos) as Hn. rewrite length_map in Hn.
    pose proof (extractAll_each _ _ _ Hos) as Heach.
    rewrite HP, Hos. eexists. split; [reflexivity|].
    cbn [data completed totalPages respond ccompleted ctotal].
    assert (Hcompleted : Js.orNat (List.length successes) (List.length os)
                         = List.length successes)
      by (rewrite Hn; apply orNat_same).
    split; [|split; [exact Hcompleted|split]].
    + clear -Heach. revert Heach. generalize os.
      induction successes as [|s rest IH]; intros os' H; inversion H; subst;
        constructor; auto.
    + unfold Js.orNat. destruct (List.length urls =? 0) eqn:E; [|reflexivity].
      apply Nat.eqb_eq in E. destruct urls; [congruence|discriminate E].
    + intros _ H3. rewrite Hcompleted, Hn, H3. split; reflexivity.
  - intros st msg HF. rewrite HP in HF. cbn [fst] in HF.
    destruct (extractAll host finalSchema (map page successes)) as [os|m] eqn:E;
      [discriminate|].
    injection HF as <- <-. split; [reflexivity|].
    destruct (extractAll_throws _ _ _ E) as (pg & k & p & Hin & Hk' & Ht).
    apply in_map_iff in Hin as (s & <- & Hin).
    exists s, k, p. repeat split; assumption.
Qed.

(** C3, as the handler implements it. Every successful response carries
    the strategy [mapCrawl], whichever branch produced the pages. *)
Theorem strategy_is_constant apiKey body w r w' :
  POST app host apiKey body w = (Success r, w') ->
  strategy r = "mapCrawl".
Proof.
  intros H. apply POST_success_inv in H.
  destruct H as (fs & w1 & c & path & ex & _ & _ & _ & _ & _ & _ & ->).
  reflexivity.
Qed.

(** C9. A successful response reports [selectedUrls.length + 2] credits,
    whatever the client returned. *)
Theorem credits_are_selection_plus_two apiKey body w r w' :
  POST app host apiKey body w = (Success r, w') ->
  creditsUsed r = List.length (orDefault (selectedUrls body) []) + 2.
Proof.
  intros H. apply POST_success_inv in H.
  destruct H as (fs & w1 & c & path & ex & _ & _ & _ & _ & _ & _ & ->).
  reflexivity.
Qed.

(** C10. In a successful response the records follow the scraped pages
    one for one: a page with [json] yields that object, a page with
    [extract] only yields that object, and only a page with neither is
    run through the markdown heuristics. *)
Theorem structured_pages_pass_through apiKey body w r w' :
  POST app host apiKey body w = (Success r, w') ->
  exists finalSchema w1 c path,
    resolveSchema app body (orDefault (url body) EmptyString) w
      = (Js.Ok (Some finalSchema), w1) /\
    scrapePages app (scrapeOptionsFor finalSchema (orDefault (maxAge body) "0"))
                (orDefault (selectedUrls body) []) w1 = (c, path, w') /\
    Forall2 (fun page record =>
               match pjson page, pextract page with
               | Some o, _ => record = o
               | None, Some o => record = o
               | None, None =>
                   structuredData host page (properties finalSchema) [] = Js.Ok record
               end)
            (cdata c) (data r).
Proof.
  intros H. apply POST_success_inv in H.
  destruct H as (fs & w1 & c & path & ex & _ & _ & Hr & _ & Hp & He & ->).
  exists fs, w1, c, path. repeat split; auto. simpl.
  apply extractAll_each in He.
  eapply Forall2_impl; [|exact He].
  intros page o. unfold extractPage.
  destruct (pjson page); [congruence|].
  destruct (pextract page); [congruence|auto].
Qed.

End CrawlFacts.

Section CrawlExamples.
Import Crawl Samples.

(** The first level-one heading is the title, even after a level-two one. *)
Example title_from_heading :
  extractTitleFromMarkdown
    (Formatter.lines ["intro"; "## Second"; "#  Hello World "; "more"])
  = "Hello World".
Proof. vm_compute. reflexivity. Qed.

Example title_from_first_line :
  extractTitleFromMarkdown (Formatter.lines ["  plain first line "; "x"])
  = "plain first line".
Proof. vm_compute. reflexivity. Qed.

(** Fields are inferred in the order of the pattern table; a price brings
    the product fields with it. *)
Example inferred_fields :
  map fst (properties
             (inferSchemaFromContent (Some "Price: $12.50 by John Smith, SKU: AB-1") None))
  = ["price"; "author"; "sku"; "title"; "description"; "category"; "availability"].
Proof. vm_compute. reflexivity. Qed.

(** C1 fails as stated. With no URL selected the status is 500, not 400,
    when the API key is not configured, and when the sample scrape made
    for schema inference rejects. *)
Lemma empty_selection_answered_500 :
  (orDefault (selectedUrls (request (Some titleUrlSchema) None (Some []))) [] = [] /\
   status (fst (POST bulkApp quietHost None
                     (request (Some titleUrlSchema) None (Some [])) 0)) = 500) /\
  (orDefault (selectedUrls (request None (Some true) (Some []))) [] = [] /\
   status (fst (POST downApp quietHost liveKey
                     (request None (Some true) (Some [])) 0)) = 500).
Proof. repeat split. Qed.

Lemma unusable_request_is_rejected_witness :
  exists st msg,
    fst (POST bulkApp quietHost liveKey (request None None (Some fiveUrls)) 0)
      = Failure st msg /\
    st = 400.
Proof.
  destruct (unusable_request_is_rejected bulkApp quietHost liveKey
              (request None None (Some fiveUrls)) 0) as (st & msg & H & _ & H400).
  - right. split; [reflexivity|left; reflexivity].
  - exists st, msg. split; [exact H|].
    apply H400; [reflexivity|]. intros _ Hauto. discriminate Hauto.
Defined.

Lemma fallback_returns_successful_pages_witness :
  exists r,
    POST flakyApp quietHost liveKey fiveRequest 0 = (Success r, 6) /\
    List.length (data r) = 3 /\
    completed r = 3.
Proof.
  pose (opts := scrapeOptionsFor titleUrlSchema "0").
  destruct (fallback_returns_successful_pages flakyApp quietHost liveKey fiveRequest 0
              titleUrlSchema 0 (Rejected "batch endpoint unavailable") 1
              (fst (scrapedInTurn flakyApp opts fiveUrls 1)) 6)
    as (_ & _ & _ & Hok & _).
  - reflexivity.
  - reflexivity.
  - reflexivity.
  - discriminate.
  - reflexivity.
  - intros b Hb. discriminate Hb.
  - reflexivity.
  - destruct Hok as (r & HP & _ & _ & _ & H53).
    + intros k p md msg _. discriminate.
    + exists r. split; [exact HP|]. apply H53; reflexivity.
Defined.

(** The records of the five-URL run: [a] and [e] pass their structured
    data through, [c] goes through the heuristics. *)
Example fallback_five_records :
  records (fst (POST flakyApp quietHost liveKey fiveRequest 0))
  = [ [("title", Js.VStr "Alpha"); ("price", Js.VNum "12.5")];
      [("title", Js.VStr "Gamma"); ("url", Js.VStr "https://shop.example/c")];
      [("title", Js.VStr "Epsilon"); ("price", Js.VNum "12.5")] ].
Proof. vm_compute. reflexivity. Qed.

(** C3 fails as stated: on the bulk path the strategy is [mapCrawl],
    which is neither [bulk] nor [bulk_with_fallback]; the fallback path
    reports the same value. *)
Lemma strategy_names_no_path :
  exists r r' w w',
    POST bulkApp quietHost liveKey fiveRequest 0 = (Success r, w) /\
    pathTaken bulkApp (scrapeOptionsFor titleUrlSchema "0") fiveUrls 0 = BulkPath /\
    strategy r <> "bulk" /\ strategy r <> "bulk_with_fallback" /\
    POST flakyApp quietHost liveKey fiveRequest 0 = (Success r', w') /\
    pathTaken flakyApp (scrapeOptionsFor titleUrlSchema "0") fiveUrls 0 = FallbackPath /\
    strategy r' = strategy r.
Proof.
  do 4 eexists.
  split; [vm_compute; reflexivity|].
  split; [vm_compute; reflexivity|].
  split; [simpl; discriminate|].
  split; [simpl; discriminate|].
  split; [vm_compute; reflexivity|].
  split; vm_compute; reflexivity.
Qed.

Lemma strategy_is_constant_witness :
  exists r w',
    POST flakyApp quietHost liveKey fiveRequest 0 = (Success r, w') /\
    strategy r = "mapCrawl".
Proof.
  destruct (POST flakyApp quietHost liveKey fiveRequest 0) as [[st msg|r] w'] eqn:E.
  - vm_compute in E. discriminate E.
  - exists r, w'. split; [reflexivity|].
    exact (strategy_is_constant flakyApp quietHost liveKey fiveRequest 0 r w' E).
Defined.

(** The client reports 99 credits for the batch; the response says 7. *)
Lemma credits_are_selection_plus_two_witness :
  exists r w',
    POST bulkApp quietHost liveKey fiveRequest 0 = (Success r, w') /\
    creditsUsed r = 7.
Proof.
  destruct (POST bulkApp quietHost liveKey fiveRequest 0) as [[st msg|r] w'] eqn:E.
  - vm_compute in E. discriminate E.
  - exists r, w'. split; [reflexivity|].
    exact (credits_are_selection_plus_two bulkApp quietHost liveKey fiveRequest 0 r w' E).
Defined.

Lemma structured_pages_pass_through_witness :
  exists r w' pages,
    POST flakyApp quietHost liveKey fiveRequest 0 = (Success r, w') /\
    Forall2 (fun page record =>
               match pjson page, pextract page with
               | Some o, _ => record = o
               | None, Some o => record = o
               | None, None =>
                   structuredData quietHost page (properties titleUrlSchema) [] = Js.Ok record
               end)
            pages (data r).
Proof.
  destruct (POST flakyApp quietHost liveKey fiveRequest 0) as [[st msg|r] w'] eqn:E.
  - vm_compute in E. discriminate E.
  - destruct (structured_pages_pass_through flakyApp quietHost liveKey fiveRequest 0 r w' E)
      as (fs & w1 & c & path & Hr & _ & HF).
    assert (fs = titleUrlSchema) as -> by (unfold resolveSchema in Hr; simpl in Hr; congruence).
    exists r, w', (cdata c). split; [reflexivity|exact HF].
Defined.

End CrawlExamples.

(* ================================================================== *)
(** * Properties: the URL tree *)
(* ================================================================== *)

Section UrlTreeFacts.
Import UrlTree.

(** Induction over a node with the statement available for every child. *)
Lemma TreeNode_nested_ind (P : TreeNode -> Prop) :
  (forall us cs c p, Forall (fun kc => P (snd kc)) cs -> P (mkNode us cs c p)) ->
  forall n, P n.
Proof.
  intros step. fix IH 1. intros [us cs c p]. apply step.
  induction cs as [|[k child] rest IHrest]; constructor.
  - simpl. apply IH.
  - exact IHrest.
Qed.





Lemma childrenUrls_app cs ds : childrenUrls (cs ++ ds) = childrenUrls cs ++ childrenUrls ds.
Proof. unfold childrenUrls. apply flat_map_app. Qed.








Lemma forallb_filter_id {A : Type} (f : A -> bool) l :
  forallb f l = true -> filter f l = l.
Proof.
  induction l as [|x l IH]; simpl; [reflexivity|].
  intros H. apply andb_true_iff in H as [Hx Hl]. rewrite Hx, IH; auto.
Qed.









(** The URLs below a node sit, as a block, among those of any node above. *)
Lemma nodesOf_urls_block : forall n m,
  In m (nodesOf n) ->
  exists before after, subtreeUrls n = before ++ subtreeUrls m ++ after.
Proof.
  induction n as [us cs c p IH] using TreeNode_nested_ind.
  intros m [<-|Hin].
  - exists [], []. simpl. now rewrite app_nil_r.
  - cbn [nodesOf children] in Hin. cbn [subtreeUrls urls children].
    revert us. induction IH as [|kc rest H _ IHrest]; intros us; [destruct Hin|].
    cbn [flat_map] in Hin. apply in_app_or in Hin as [Hin|Hin].
    + destruct (H m Hin) as (b & a & E).
      exists (us ++ b), (a ++ flat_map (fun kc => subtreeUrls (snd kc)) rest).
      cbn [flat_map]. rewrite E, <- !app_assoc. reflexivity.
    + destruct (IHrest Hin (us ++ subtreeUrls (snd kc))) as (b & a & E).
      exists b, a. cbn [flat_map]. rewrite <- E, <- app_assoc. reflexivity.
Qed.



End UrlTreeFacts.

Section UrlTreeExamples.
Import UrlTree.



(** A segment that names an inherited property makes the walk throw: the
    URL is dropped, and nodes created on the way stay empty. *)
Example inherited_segment_drops_url :
  buildUrlTree plainUrl ["https://a.example/m/toString"]
  = [("https://a.example",
      mkNode [] [("m", mkNode [] [] 0 "https://a.example/m")] 0 "https://a.example")].
Proof. vm_compute. reflexivity. Qed.

End UrlTreeExamples.



(* ================================================================== *)
(** * Properties: the export formatter *)
(* ================================================================== *)

Section CsvFacts.
Import Formatter.

Lemma scan_app a : forall b st, scan (a ++ b)%string st = scan b (scan a st).
Proof. induction a as [|c a IH]; intros b st; simpl; [reflexivity|apply IH]. Qed.

Lemma orb_false_3 a b c : a || b || c = false -> a = false /\ b = false /\ c = false.
Proof. destruct a, b, c; simpl; intros H; try discriminate; auto. Qed.

Lemma plain_neutral : forall s, needsQuoting s = false -> neutral s.
Proof.
  unfold needsQuoting, neutral.
  induction s as [|c s IH]; intros H n ws; cbn [scan]; [reflexivity|].
  cbn [Js.anyChar] in H. apply orb_false_3 in H as (Hq & Hc & Hl).
  apply orb_false_iff in Hq as [Hq1 Hq2].
  apply orb_false_iff in Hc as [Hc1 Hc2].
  apply orb_false_iff in Hl as [Hl1 Hl2].
  unfold scanStep. cbn [inQuotes commas widths].
  rewrite (Ascii.eqb_sym c Js.QUOTE), Hq1, (Ascii.eqb_sym c Js.COMMA), Hc1,
          (Ascii.eqb_sym c Js.LF), Hl1.
  apply IH. now rewrite Hq2, Hc2, Hl2.
Qed.

Lemma scanStep_inside c n ws :
  Ascii.eqb c Js.QUOTE = false ->
  scanStep (mkScan true n ws) c = mkScan true n ws.
Proof. intros H. unfold scanStep. rewrite H. reflexivity. Qed.

Lemma scanStep_close n ws : scanStep (mkScan true n ws) Js.QUOTE = mkScan false n ws.
Proof. reflexivity. Qed.

Lemma scanStep_open n ws : scanStep (mkScan false n ws) Js.QUOTE = mkScan true n ws.
Proof. reflexivity. Qed.

Lemma replaceNewlines_lf s :
  Js.replaceNewlines (String Js.LF s) = String Js.SPACE (Js.replaceNewlines s).
Proof. reflexivity. Qed.

Lemma replaceNewlines_crlf s :
  Js.replaceNewlines (String Js.CR (String Js.LF s)) = String Js.SPACE (Js.replaceNewlines s).
Proof. reflexivity. Qed.

Lemma replaceNewlines_cr_end :
  Js.replaceNewlines (String Js.CR EmptyString) = String Js.CR EmptyString.
Proof. reflexivity. Qed.

Lemma replaceNewlines_cr d s :
  Ascii.eqb d Js.LF = false ->
  Js.replaceNewlines (String Js.CR (String d s))
  = String Js.CR (Js.replaceNewlines (String d s)).
Proof.
  intros H. cbn [Js.replaceNewlines].
  change (Ascii.eqb Js.CR Js.LF) with false. change (Ascii.eqb Js.CR Js.CR) with true.
  cbv iota. rewrite H. reflexivity.
Qed.

Lemma replaceNewlines_other c s :
  Ascii.eqb c Js.LF = false -> Ascii.eqb c Js.CR = false ->
  Js.replaceNewlines (String c s) = String c (Js.replaceNewlines s).
Proof. intros Hl Hr. cbn [Js.replaceNewlines]. rewrite Hl, Hr. reflexivity. Qed.

Lemma doubleQuotes_quote s :
  Js.doubleQuotes (String Js.QUOTE s) = String Js.QUOTE (String Js.QUOTE (Js.doubleQuotes s)).
Proof. reflexivity. Qed.

Lemma doubleQuotes_other c s :
  Ascii.eqb c Js.QUOTE = false ->
  Js.doubleQuotes (String c s) = String c (Js.doubleQuotes s).
Proof. intros H. cbn [Js.doubleQuotes]. rewrite H. reflexivity. Qed.

(** Inside quotes, an escaped value brings the reader back inside quotes. *)
Lemma escaped_keeps_quotes : forall k v, String.length v <= k ->
  forall n ws,
    scan (Js.replaceNewlines (Js.doubleQuotes v)) (mkScan true n ws) = mkScan true n ws.
Proof.
  induction k as [|k IH]; intros v Hlen n ws.
  - destruct v; [reflexivity|simpl in Hlen; lia].
  - destruct v as [|c v]; [reflexivity|].
    cbn [String.length] in Hlen. assert (Hv : String.length v <= k) by lia.
    destruct (Ascii.eqb c Js.QUOTE) eqn:Hq.
    { apply Ascii.eqb_eq in Hq. subst c.
      rewrite doubleQuotes_quote.
      rewrite replaceNewlines_other by reflexivity.
      rewrite replaceNewlines_other by reflexivity.
      cbn [scan]. rewrite scanStep_close, scanStep_open. now apply IH. }
    rewrite (doubleQuotes_other c v Hq).
    destruct (Ascii.eqb c Js.LF) eqn:Hl.
    { apply Ascii.eqb_eq in Hl. subst c. rewrite replaceNewlines_lf.
      cbn [scan]. rewrite scanStep_inside by reflexivity. now apply IH. }
    destruct (Ascii.eqb c Js.CR) eqn:Hr.
    2:{ rewrite (replaceNewlines_other c _ Hl Hr).
        cbn [scan]. rewrite (scanStep_inside c n ws Hq). now apply IH. }
    apply Ascii.eqb_eq in Hr. subst c.
    destruct v as [|d v'].
    { reflexivity. }
    destruct (Ascii.eqb d Js.LF) eqn:Hdl.
    + apply Ascii.eqb_eq in Hdl. subst d.
      rewrite doubleQuotes_other by reflexivity.
      rewrite replaceNewlines_crlf.
      cbn [scan]. rewrite scanStep_inside by reflexivity.
      apply IH. cbn [String.length] in Hv. lia.
    + assert (Hd : exists e rest, Js.doubleQuotes (String d v') = String e rest
                                  /\ Ascii.eqb e Js.LF = false).
      { destruct (Ascii.eqb d Js.QUOTE) eqn:Hdq.
        - apply Ascii.eqb_eq in Hdq. subst d. rewrite doubleQuotes_quote.
          do 2 eexists. split; reflexivity.
        - rewrite (doubleQuotes_other d v' Hdq). do 2 eexists. split; [reflexivity|exact Hdl]. }
      destruct Hd as (e & rest & He & Hel).
      pose proof (IH (String d v') Hv n ws) as H. rewrite He in H |- *.
      rewrite (replaceNewlines_cr e rest Hel).
      cbn [scan]. rewrite scanStep_inside by reflexivity. exact H.
Qed.

Lemma quoted_neutral v : neutral (quoted (Js.replaceNewlines (Js.doubleQuotes v))).
Proof.
  intros n ws. unfold quoted. cbn [scan]. rewrite scanStep_open, scan_app.
  rewrite (escaped_keeps_quotes (String.length v) v (le_n _)).
  reflexivity.
Qed.

Lemma shopifyCell_neutral v : neutral (shopifyCell v).
Proof.
  unfold shopifyCell. destruct (needsQuoting v) eqn:H.
  - apply quoted_neutral.
  - now apply plain_neutral.
Qed.

(** A row of neutral cells shows one comma less than it has cells. *)
Lemma scan_row : forall cells n ws,
  Forall neutral cells -> cells <> [] ->
  scan (Js.join "," cells) (mkScan false n ws)
  = mkScan false (n + (List.length cells - 1)) ws.
Proof.
  induction cells as [|c rest IH]; intros n ws Hall Hne; [congruence|].
  inversion Hall as [|? ? Hc Hrest]; subst.
  destruct rest as [|c' rest'].
  - cbn [Js.join List.length]. rewrite Hc. f_equal. lia.
  - change (Js.join "," (c :: c' :: rest'))
      with (c ++ "," ++ Js.join "," (c' :: rest'))%string.
    rewrite scan_app, Hc.
    change ("," ++ Js.join "," (c' :: rest'))%string
      with (String Js.COMMA (Js.join "," (c' :: rest'))).
    cbn [scan]. change (scanStep (mkScan false n ws) Js.COMMA) with (mkScan false (S n) ws).
    rewrite IH by (auto; discriminate). f_equal. cbn [List.length]. lia.
Qed.

Lemma scan_lines : forall ls l ws,
  fullLine l -> Forall fullLine ls ->
  scan (Js.join nl (l :: ls)) (mkScan false 0 ws)
  = mkScan false 27 (ws ++ List.repeat 28 (List.length ls)).
Proof.
  induction ls as [|l' ls IH]; intros l ws Hl Hls.
  - cbn [Js.join List.length List.repeat]. rewrite app_nil_r. apply Hl.
  - inversion Hls as [|? ? Hl' Hrest]; subst.
    change (Js.join nl (l :: l' :: ls)) with (l ++ nl ++ Js.join nl (l' :: ls))%string.
    rewrite scan_app, Hl.
    change (nl ++ Js.join nl (l' :: ls))%string with (String Js.LF (Js.join nl (l' :: ls))).
    cbn [scan].
    change (scanStep (mkScan false 27 ws) Js.LF) with (mkScan false 0 (ws ++ [28])).
    rewrite (IH l' (ws ++ [28]) Hl' Hrest), <- app_assoc. reflexivity.
Qed.

Lemma header_fullLine : fullLine (Js.join "," shopifyHeaders).
Proof.
  intros ws. rewrite scan_row; [reflexivity| |discriminate].
  unfold shopifyHeaders.
  repeat (constructor; [apply plain_neutral; reflexivity|]). constructor.
Qed.

Lemma shopifyLine_fullLine index item : fullLine (shopifyLine index item).
Proof.
  intros ws. unfold shopifyLine. rewrite scan_row.
  - rewrite length_map. reflexivity.
  - apply Forall_map, Forall_forall. intros h _. apply shopifyCell_neutral.
  - discriminate.
Qed.

Lemma mapIndexed_length {A B : Type} (f : nat -> A -> B) : forall l i,
  List.length (mapIndexed f i l) = List.length l.
Proof. induction l as [|x l IH]; intros i; simpl; [reflexivity|now rewrite IH]. Qed.

Lemma mapIndexed_Forall {A B : Type} (f : nat -> A -> B) (P : B -> Prop) :
  (forall i x, P (f i x)) -> forall l i, Forall P (mapIndexed f i l).
Proof. intros H. induction l as [|x l IH]; intros i; simpl; constructor; auto. Qed.

Lemma csvWidths_nonempty c t :
  csvWidths (String c t)
  = widths (scan (String c t) (mkScan false 0 [])) ++ [S (commas (scan (String c t) (mkScan false 0 [])))].
Proof. reflexivity. Qed.

Lemma export_starts_with_header ls :
  exists c t, Js.join nl (Js.join "," shopifyHeaders :: ls) = String c t.
Proof.
  destruct ls as [|l ls'].
  - do 2 eexists. cbn [Js.join]. vm_compute. reflexivity.
  - do 2 eexists.
    change (Js.join nl (Js.join "," shopifyHeaders :: l :: ls'))
      with (Js.join "," shopifyHeaders ++ nl ++ Js.join nl (l :: ls'))%string.
    reflexivity.
Qed.

Lemma shopify_widths item rest :
  csvWidths (formatShopifyCSV (item :: rest))
  = List.repeat 28 (S (S (List.length rest))).
Proof.
  unfold formatShopifyCSV.
  remember (mapIndexed shopifyLine 0 (item :: rest)) as ls eqn:Els.
  assert (Hlen : List.length ls = S (List.length rest))
    by (subst ls; rewrite mapIndexed_length; reflexivity).
  assert (Hfull : Forall fullLine ls)
    by (subst ls; apply mapIndexed_Forall; intros; apply shopifyLine_fullLine).
  pose proof (scan_lines ls _ [] header_fullLine Hfull) as Hscan.
  destruct (export_starts_with_header ls) as (c & t & E).
  remember (Js.join nl (Js.join "," shopifyHeaders :: ls)) as doc eqn:Edoc.
  rewrite E, csvWidths_nonempty, <- E, Hscan.
  cbn [widths commas]. rewrite Hlen. rewrite app_nil_l.
  symmetry. apply (repeat_cons (S (List.length rest)) 28).
Qed.

(** C6. Read back as CSV, the Shopify export of a non-empty record list
    has one header row and one row per record, each of exactly 28 fields,
    whatever the records hold; the export of the empty list is the empty
    text, which has no row. A record without [weight], without [price], or
    with neither [inventory_quantity] nor [stock], gets [0] in the matching
    column. *)
Theorem shopify_csv_has_28_columns data :
  csvWidths (formatShopifyCSV data)
  = List.repeat 28 (match data with [] => 0 | _ => S (List.length data) end) /\
  List.length shopifyHeaders = 28 /\
  forall index item,
    (Js.get "weight" item = None ->
     rowGet "Variant Grams" (shopifyRow index item) = "0") /\
    (Js.get "inventory_quantity" item = None -> Js.get "stock" item = None ->
     rowGet "Variant Inventory Qty" (shopifyRow index item) = "0") /\
    (Js.get "price" item = None ->
     rowGet "Variant Price" (shopifyRow index item) = "0").
Proof.
  split; [|split; [reflexivity|]].
  - destruct data as [|item rest]; [reflexivity|apply shopify_widths].
  - intros index item. unfold shopifyRow.
    cbn [rowGet String.eqb Ascii.eqb Bool.eqb]. repeat split.
    + intros H. rewrite H. reflexivity.
    + intros H1 H2. rewrite H1, H2. reflexivity.
    + intros H. rewrite H. reflexivity.
Qed.

End CsvFacts.

Section BatchFacts.
Import Formatter.

Lemma ceilDiv_gt n size j : 1 <= size -> (j < ceilDiv n size <-> j * size < n).
Proof.
  intros Hs. unfold ceilDiv. split; intros H.
  - assert (Hq : size * ((n + size - 1) / size) <= n + size - 1)
      by (apply Nat.Div0.mul_div_le).
    nia.
  - apply (Nat.lt_le_trans _ (S j)); [lia|].
    apply Nat.div_le_lower_bound; [lia|]. nia.
Qed.

Lemma slice_length {A : Type} (data : list A) a size :
  List.length (slice a (a + size) data) = min size (List.length data - a).
Proof.
  unfold slice. rewrite length_firstn, length_skipn.
  replace (a + size - a) with size by lia. reflexivity.
Qed.

Lemma firstn_add {A : Type} a b : forall l : list A,
  firstn (a + b) l = firstn a l ++ firstn b (skipn a l).
Proof.
  induction a as [|a IH]; intros l; [reflexivity|].
  destruct l as [|x l]; simpl.
  - now rewrite firstn_nil.
  - now rewrite IH.
Qed.

(** Consecutive batches, put end to end, are a prefix of what is left. *)
Lemma concat_batches {A : Type} (data : list A) size : forall k j,
  List.concat (map (batchAt data size) (seq j k))
  = firstn (k * size) (skipn (j * size) data).
Proof.
  induction k as [|k IH]; intros j; [reflexivity|].
  cbn [seq map List.concat]. rewrite IH.
  unfold batchAt at 1, slice.
  replace (j * size + size - j * size) with size by lia.
  replace (S k * size) with (size + k * size) by lia.
  rewrite firstn_add, skipn_skipn.
  replace (size + j * size) with (S j * size) by lia. reflexivity.
Qed.

(** The slicing loop, started at a multiple of [size] with enough fuel for
    the records still to slice, ends and appends the remaining batches. *)
Lemma sliceLoop_ends {A : Type} (data : list A) size : 1 <= size ->
  forall fuel j batches,
    List.length data - j * size <= fuel ->
    sliceLoop fuel data size (j * size) batches
    = Some (batches
            ++ map (batchAt data size) (seq j (ceilDiv (List.length data) size - j))).
Proof.
  intros Hs. induction fuel as [|fuel IH]; intros j batches Hfuel.
  - cbn [sliceLoop].
    destruct (j * size <? List.length data) eqn:E.
    + apply Nat.ltb_lt in E. lia.
    + apply Nat.ltb_ge in E.
      assert (Hc : ceilDiv (List.length data) size - j = 0).
      { destruct (Nat.le_gt_cases (ceilDiv (List.length data) size) j) as [H|H]; [lia|].
        apply ceilDiv_gt in H; [lia|exact Hs]. }
      rewrite Hc. cbn [seq map]. now rewrite app_nil_r.
  - cbn [sliceLoop].
    destruct (j * size <? List.length data) eqn:E.
    + apply Nat.ltb_lt in E.
      replace (j * size + size) with (S j * size) by lia.
      rewrite IH by nia.
      assert (Hj : j < ceilDiv (List.length data) size) by (apply ceilDiv_gt; assumption).
      replace (ceilDiv (List.length data) size - j)
        with (S (ceilDiv (List.length data) size - S j)) by lia.
      cbn [seq map]. rewrite <- app_assoc. cbn [app].
      unfold batchAt at 1. replace (S j * size) with (j * size + size) by lia. reflexivity.
    + apply Nat.ltb_ge in E.
      assert (Hc : ceilDiv (List.length data) size - j = 0).
      { destruct (Nat.le_gt_cases (ceilDiv (List.length data) size) j) as [H|H]; [lia|].
        apply ceilDiv_gt in H; [lia|exact Hs]. }
      rewrite Hc. cbn [seq map]. now rewrite app_nil_r.
Qed.

Lemma natToString_inj a b : Js.natToString a = Js.natToString b -> a = b.
Proof.
  unfold Js.natToString. intros H.
  apply Unsigned.to_uint_inj.
  pose proof (NilEmpty.usu (Nat.to_uint a)) as Ha.
  pose proof (NilEmpty.usu (Nat.to_uint b)) as Hb.
  rewrite H in Ha. congruence.
Qed.

Lemma string_length_append a : forall b,
  String.length (a ++ b)%string = String.length a + String.length b.
Proof. induction a as [|c a IH]; intros b; simpl; [reflexivity|now rewrite IH]. Qed.

Lemma append_inv_tail t : forall a b, (a ++ t)%string = (b ++ t)%string -> a = b.
Proof.
  induction a as [|c a IH]; intros [|d b] H; simpl in H.
  - reflexivity.
  - apply (f_equal String.length) in H. simpl in H.
    rewrite string_length_append in H. lia.
  - apply (f_equal String.length) in H. simpl in H.
    rewrite string_length_append in H. lia.
  - inversion H; subst. f_equal. now apply IH.
Qed.

Lemma partName_inj ext i j : partName i ext = partName j ext -> i = j.
Proof.
  unfold partName. intros H.
  assert (H' : (Js.natToString (i + 1) ++ "." ++ ext)%string
               = (Js.natToString (j + 1) ++ "." ++ ext)%string).
  { simpl in H. now inversion H. }
  apply append_inv_tail, natToString_inj in H'. lia.
Qed.

Lemma zipFile_fresh name content : forall zip,
  ~ In name (map fst zip) -> zipFile name content zip = zip ++ [(name, content)].
Proof.
  induction zip as [|[n c] rest IH]; intros Hnot; simpl; [reflexivity|].
  destruct (String.eqb name n) eqn:E.
  - apply String.eqb_eq in E. subst. exfalso. apply Hnot. now left.
  - rewrite IH; [reflexivity|]. intros Hin. apply Hnot. now right.
Qed.

(** The zipping loop adds one file per batch, named by its position. *)
Lemma zipLoop_parts clock format ext : forall batches i zip,
  (forall name, In name (map fst zip) -> exists k, k < i /\ name = partName k ext) ->
  zipLoop clock format ext batches i zip
  = match formatParts clock format batches i with
    | Js.Throw msg => Js.Throw msg
    | Js.Ok texts =>
        Js.Ok (zip ++ combine (map (fun k => partName k ext)
                                      (seq i (List.length batches))) texts)
    end.
Proof.
  induction batches as [|batch rest IH]; intros i zip Hzip.
  - cbn. now rewrite app_nil_r.
  - cbn [zipLoop formatParts].
    destruct (formatExportData (clock i) batch format) as [text|msg]; [|reflexivity].
    rewrite zipFile_fresh.
    + rewrite IH.
      * destruct (formatParts clock format rest (S i)) as [texts|msg]; [|reflexivity].
        cbn [List.length seq map combine]. now rewrite <- app_assoc.
      * intros name Hin. rewrite map_app in Hin. apply in_app_or in Hin as [Hin|Hin].
        -- destruct (Hzip name Hin) as (k & Hk & ->). exists k. split; [lia|reflexivity].
        -- destruct Hin as [<-|[]]. exists i. split; [lia|reflexivity].
    + intros Hin. destruct (Hzip _ Hin) as (k & Hk & E).
      apply partName_inj in E. lia.
Qed.

Example partName_first : partName 0 "csv" = "export-part1.csv".
Proof. reflexivity. Qed.

(** C7. For a batch size of at least 1 the slicing loop ends with
    [ceil(len / size)] consecutive batches of [size] records, the last one
    possibly shorter, which put end to end give the records back. Every
    batch is formatted by [formatExportData] for the chosen format and
    filed as [export-part{n}.{ext}], [n] counting from 1; a throw while
    formatting leaves no archive. 127 records at size 50 give batches of
    50, 50 and 27 records, filed as parts 1, 2 and 3, and 50 records at
    size 50 give one batch, filed as part 1. *)
Theorem batched_export_parts clock timestamp data size format :
  1 <= size ->
  let count := ceilDiv (List.length data) size in
  let batches := map (batchAt data size) (seq 0 count) in
  let ext := lookupExt format batchExtensions in
  let names :=
    map (fun j => ("export-part" ++ Js.natToString (j + 1) ++ "." ++ ext)%string)
        (seq 0 count) in
  sliceLoop (List.length data) data size 0 [] = Some batches /\
  List.length batches = count /\
  List.concat batches = data /\
  (forall j, j < count ->
     List.length (batchAt data size j) = min size (List.length data - j * size)) /\
  downloadBatchedFiles clock timestamp data size format
  = match formatParts clock format batches 0 with
    | Js.Throw msg => Fails msg
    | Js.Ok texts => Archive ("export-" ++ timestamp ++ ".zip")%string (combine names texts)
    end /\
  (List.length data = 127 -> size = 50 ->
   map (@List.length Js.Obj) batches = [50; 50; 27] /\
   names = [ ("export-part1." ++ ext)%string; ("export-part2." ++ ext)%string;
             ("export-part3." ++ ext)%string ]) /\
  (List.length data = 50 -> size = 50 ->
   map (@List.length Js.Obj) batches = [50] /\
   names = [ ("export-part1." ++ ext)%string ]).
Proof.
  intros Hs count batches ext names.
  assert (Hloop : sliceLoop (List.length data) data size 0 [] = Some batches).
  { pose proof (sliceLoop_ends data size Hs (List.length data) 0 []) as H.
    cbn [Nat.mul] in H. rewrite !Nat.sub_0_r, app_nil_l in H. apply H. lia. }
  assert (Hlen : List.length batches = count)
    by (unfold batches; now rewrite length_map, length_seq).
  split; [exact Hloop|]. split; [exact Hlen|]. split; [|split; [|split; [|split]]].
  - unfold batches. rewrite concat_batches. cbn [Nat.mul skipn].
    apply firstn_all2.
    destruct (Nat.le_gt_cases (List.length data) (count * size)) as [H|H]; [exact H|].
    apply ceilDiv_gt in H; [|exact Hs]. unfold count in H. lia.
  - intros j _. unfold batchAt. apply slice_length.
  - unfold downloadBatchedFiles. rewrite Hloop.
    rewrite zipLoop_parts by (intros name []).
    rewrite Hlen. destruct (formatParts clock format batches 0); reflexivity.
  - intros Hn ->. unfold names, batches, count. rewrite Hn.
    change (ceilDiv 127 50) with 3. cbn [seq map].
    unfold batchAt. rewrite !slice_length, Hn. split; reflexivity.
  - intros Hn ->. unfold names, batches, count. rewrite Hn.
    change (ceilDiv 50 50) with 1. cbn [seq map].
    unfold batchAt. rewrite !slice_length, Hn. split; reflexivity.
Qed.

End BatchFacts.

Section FormatterExamples.
Import Formatter Samples.

Lemma shopify_csv_has_28_columns_witness :
  csvWidths (formatShopifyCSV [awkwardProduct; product "Plain"]) = [28; 28; 28] /\
  rowGet "Variant Grams" (shopifyRow 0 awkwardProduct) = "0".
Proof.
  destruct (shopify_csv_has_28_columns [awkwardProduct; product "Plain"]) as (Hw & _ & Hd).
  split; [exact Hw|].
  destruct (Hd 0 awkwardProduct) as (Hgrams & _ & _).
  apply Hgrams. reflexivity.
Defined.

(** The awkward title is quoted, its quotes doubled and its line break
    replaced by a blank. *)
Example shopify_awkward_title :
  shopifyCell (rowGet "Title" (shopifyRow 0 awkwardProduct))
  = quoted ("Shoe, " ++ String Js.QUOTE (String Js.QUOTE "blue")
            ++ String Js.QUOTE (String Js.QUOTE " size 9"))%string.
Proof. vm_compute. reflexivity. Qed.

Lemma batched_export_parts_witness :
  map (@List.length Js.Obj)
      (map (batchAt (List.repeat (product "P") 127) 50) (seq 0 3)) = [50; 50; 27] /\
  sliceLoop 127 (List.repeat (product "P") 127) 50 0 []
  = Some (map (batchAt (List.repeat (product "P") 127) 50) (seq 0 3)) /\
  exists texts,
    downloadBatchedFiles stoppedClock "1735725600000" (List.repeat (product "P") 127) 50 "json"
    = Archive "export-1735725600000.zip"
        (combine ["export-part1.json"; "export-part2.json"; "export-part3.json"] texts).
Proof.
  destruct (batched_export_parts stoppedClock "1735725600000"
              (List.repeat (product "P") 127) 50 "json")
    as (Hloop & _ & _ & _ & Harchive & H127 & _).
  - lia.
  - split; [apply H127; reflexivity|]. split; [exact Hloop|].
    rewrite Harchive.
    destruct (formatParts stoppedClock "json" _ 0) as [texts|msg] eqn:E.
    + exists texts. reflexivity.
    + vm_compute in E. discriminate E.
Defined.

(** Three records in batches of two, as CSV. *)
Example batched_csv_archive :
  downloadBatchedFiles stoppedClock "17" [product "A"; product "B"; product "C"] 2 "csv"
  = Archive "export-17.zip"
      [ ("export-part1.csv",
         lines ["title,price"; quoted "A" ++ ",9.5"; quoted "B" ++ ",9.5"]%string);
        ("export-part2.csv", lines ["title,price"; quoted "C" ++ ",9.5"]%string) ].
Proof. vm_compute. reflexivity. Qed.

(** With a batch size of 0 the slicing loop never advances. *)
Example batch_size_zero_hangs :
  downloadBatchedFiles stoppedClock "17" [product "A"] 0 "csv" = Hangs.
Proof. reflexivity. Qed.

(** [startExport] sends a list that fits one batch to a single file, not
    to an archive of one part. *)
Example single_batch_is_a_plain_file :
  startExport stoppedClock "17" [product "A"; product "B"] 2 "csv"
  = File "export-17.csv" (lines ["title,price"; quoted "A" ++ ",9.5"; quoted "B" ++ ",9.5"]%string).
Proof. vm_compute. reflexivity. Qed.

(** A title that is not a string makes the WordPress export throw. *)
Example wordpress_numeric_title_throws :
  formatExportData (stoppedClock 0) [[("title", Js.VNum "42")]] "wordpress"
  = Js.Throw "title.toLowerCase is not a function".
Proof. reflexivity. Qed.

End FormatterExamples.


Section JsonFacts.
Import Formatter.

Lemma string_app_assoc a : forall b c, ((a ++ b) ++ c)%string = (a ++ (b ++ c))%string.
Proof. induction a as [|x a IH]; intros b c; simpl; [reflexivity|now rewrite IH]. Qed.

Lemma string_app_nil a : (a ++ "")%string = a.
Proof. induction a as [|x a IH]; simpl; [reflexivity|now rewrite IH]. Qed.

(** Reading one escaped character gives the character back. *)
Lemma parseChars_escapeChar c tail :
  parseChars (escapeChar c ++ tail)%string = consChar c (parseChars tail).
Proof.
  destruct c as [[] [] [] [] [] [] [] []]; reflexivity.
Qed.

Lemma parseChars_escapeChars : forall s rest,
  parseChars (escapeChars s ++ String Js.QUOTE rest)%string = Some (s, rest).
Proof.
  induction s as [|c s IH]; intros rest.
  - reflexivity.
  - cbn [escapeChars]. rewrite string_app_assoc, parseChars_escapeChar, IH. reflexivity.
Qed.

Lemma parseChars_quoteJSON s rest :
  exists tail, (quoteJSON s ++ rest)%string = String Js.QUOTE tail /\
               parseChars tail = Some (s, rest).
Proof.
  exists (escapeChars s ++ String Js.QUOTE rest)%string. split.
  - unfold quoteJSON, quoted. cbn [String.append]. now rewrite string_app_assoc.
  - apply parseChars_escapeChars.
Qed.

Lemma numStep_numberChar st c st' : numStep st c = Some st' -> isNumberChar c = true.
Proof.
  unfold isNumberChar, isSign, isExponentMark.
  destruct st; cbn [numStep]; unfold isSign, isExponentMark;
    repeat match goal with
           | |- context [if ?b then _ else _] => let E := fresh "E" in destruct b eqn:E
           end;
    intros H; try discriminate H;
    repeat match goal with
           | E : Ascii.eqb _ _ = true |- _ => apply Ascii.eqb_eq in E; subst
           | E : _ || _ = true |- _ => apply orb_true_iff in E as [E|E]
           end;
    try reflexivity;
    repeat match goal with
           | E : ?b = true |- context [?b] => rewrite E
           end;
    rewrite ?orb_true_r; reflexivity.
Qed.

Lemma readNumber_follows : forall r st rest,
  followsGrammar st r = true -> delimits rest = true ->
  readNumber st (r ++ rest)%string = Some (r, rest).
Proof.
  induction r as [|c r IH]; intros st rest Hg Hd.
  - cbn in Hg |- *. destruct rest as [|d rest'].
    + cbn. now rewrite Hg.
    + cbn [readNumber]. cbn in Hd. apply negb_true_iff in Hd.
      destruct (numStep st d) as [st'|] eqn:E.
      * apply numStep_numberChar in E. congruence.
      * now rewrite Hg.
  - cbn in Hg |- *. destruct (numStep st c) as [st'|]; [|discriminate].
    rewrite (IH st' rest Hg Hd). reflexivity.
Qed.

(** The first character of a number is a minus sign or a digit; no other
    kind of value starts with one. *)
Lemma number_head c :
  (Ascii.eqb c "-" || Js.isDigit c) = true ->
  isJsonSpace c = false /\
  Ascii.eqb c "n" = false /\ Ascii.eqb c "t" = false /\ Ascii.eqb c "f" = false /\
  Ascii.eqb c Js.QUOTE = false /\ Ascii.eqb c "[" = false /\ Ascii.eqb c "{" = false /\
  Ascii.eqb c "]" = false /\ Ascii.eqb c "}" = false.
Proof.
  destruct c as [[] [] [] [] [] [] [] []]; intros H;
    first [discriminate H | repeat split].
Qed.

Lemma followsGrammar_head r :
  followsGrammar NStart r = true ->
  exists c t, r = String c t /\ (Ascii.eqb c "-" || Js.isDigit c) = true.
Proof.
  destruct r as [|c t]; [discriminate|]. intros H. exists c, t. split; [reflexivity|].
  cbn in H. destruct (Ascii.eqb c "-"); [reflexivity|].
  destruct (Ascii.eqb c "0") eqn:E0.
  - apply Ascii.eqb_eq in E0. subst. reflexivity.
  - destruct (Js.isDigit c); [reflexivity|discriminate].
Qed.

(** Induction over a value with the statement available for every item
    of an array and every member of an object. *)
Lemma Value_nested_ind (P : Js.Value -> Prop) :
  P Js.VNull ->
  (forall b, P (Js.VBool b)) ->
  (forall r, P (Js.VNum r)) ->
  (forall s, P (Js.VStr s)) ->
  (forall items, Forall P items -> P (Js.VArr items)) ->
  (forall fields, Forall (fun kv => P (snd kv)) fields -> P (Js.VObj fields)) ->
  forall v, P v.
Proof.
  intros Hnull Hbool Hnum Hstr Harr Hobj. fix IH 1. intros [ |b|r|s|items|fields].
  - exact Hnull.
  - apply Hbool.
  - apply Hnum.
  - apply Hstr.
  - apply Harr. induction items as [|x rest IHrest]; constructor; [apply IH|exact IHrest].
  - apply Hobj. induction fields as [|[k x] rest IHrest]; constructor;
      [simpl; apply IH|exact IHrest].
Qed.

Lemma skipWs_blank : forall indent s, blank indent = true -> skipWs (indent ++ s)%string = skipWs s.
Proof.
  unfold blank. induction indent as [|c indent IH]; intros s H; [reflexivity|].
  cbn [Js.anyChar] in H. apply negb_true_iff, orb_false_iff in H as [Hc Hrest].
  apply negb_false_iff, Ascii.eqb_eq in Hc. subst c.
  cbn. apply IH. now rewrite Hrest.
Qed.

Lemma skipWs_nl s : skipWs (nl ++ s)%string = skipWs s.
Proof. reflexivity. Qed.

Lemma blank_deeper indent : blank indent = true -> blank (indent ++ "  ")%string = true.
Proof.
  unfold blank. induction indent as [|c indent IH]; intros H; [reflexivity|].
  cbn [Js.anyChar String.append] in H |- *.
  apply negb_true_iff, orb_false_iff in H as [Hc Hrest].
  rewrite Hc. cbn [orb]. apply IH. now rewrite Hrest.
Qed.

(** Parsing looks at a text only past its leading white space. *)
Lemma parseValue_skip fuel a b : skipWs a = skipWs b -> parseValue fuel a = parseValue fuel b.
Proof. intros H. destruct fuel; cbn [parseValue]; [reflexivity|now rewrite H]. Qed.

Lemma parseMembers_skip fuel a b acc :
  skipWs a = skipWs b -> parseMembers fuel a acc = parseMembers fuel b acc.
Proof. intros H. destruct fuel; cbn [parseMembers]; [reflexivity|now rewrite H]. Qed.

Lemma grammar_finite r : followsGrammar NStart r = true -> finite r = true.
Proof.
  intros H. unfold finite.
  destruct (String.eqb r "NaN") eqn:E1;
    [apply String.eqb_eq in E1; subst; discriminate H|].
  destruct (String.eqb r "Infinity") eqn:E2;
    [apply String.eqb_eq in E2; subst; discriminate H|].
  destruct (String.eqb r "-Infinity") eqn:E3;
    [apply String.eqb_eq in E3; subst; discriminate H|].
  reflexivity.
Qed.

(** The text of a value starts with a character that is neither white
    space nor a closing bracket, and a number char only for a number. *)
Lemma stringify_head indent v :
  JsonSafe v ->
  exists c t, stringify indent v = String c t /\
              isJsonSpace c = false /\ Ascii.eqb c "]" = false /\ Ascii.eqb c "}" = false.
Proof.
  intros H. destruct v as [ |[]|r|s|[|x xs]|[|kv kvs]];
    try (do 2 eexists; split; [reflexivity|repeat split]).
  inversion H as [| |r' Hn| | |]; subst.
  unfold jsonNumber in Hn. apply andb_true_iff in Hn as [Hg Hz].
  destruct (followsGrammar_head r Hg) as (c & t & -> & Hc).
  exists c, t. cbn [stringify].
  rewrite (grammar_finite _ Hg). split; [reflexivity|].
  destruct (number_head c Hc) as (? & _ & _ & _ & _ & _ & _ & ? & ?). auto.
Qed.

Lemma stringify_arr indent x xs :
  stringify indent (Js.VArr (x :: xs))
  = ("[" ++ nl ++ (indent ++ "  ")
         ++ Js.join ("," ++ nl ++ (indent ++ "  "))
                    (map (stringify (indent ++ "  ")) (x :: xs))
         ++ nl ++ indent ++ "]")%string.
Proof. reflexivity. Qed.

Lemma stringify_obj indent kv kvs :
  stringify indent (Js.VObj (kv :: kvs))
  = ("{" ++ nl ++ (indent ++ "  ")
         ++ Js.join ("," ++ nl ++ (indent ++ "  "))
                    (map (memberText (indent ++ "  ")) (kv :: kvs))
         ++ nl ++ indent ++ "}")%string.
Proof. reflexivity. Qed.

Lemma join_cons sep a b l :
  Js.join sep (a :: b :: l) = (a ++ sep ++ Js.join sep (b :: l))%string.
Proof. reflexivity. Qed.

(** The element loop reads the items of an array up to its bracket. *)
Lemma parseElements_items indent inner rest :
  blank indent = true -> blank inner = true ->
  forall xs x acc fuel,
    Forall readsBack (x :: xs) ->
    needAll need (x :: xs) <= fuel ->
    parseElements fuel
      (nl ++ inner
          ++ Js.join ("," ++ nl ++ inner) (map (stringify inner) (x :: xs))
          ++ nl ++ indent ++ "]" ++ rest)%string acc
    = Some (Js.VArr (acc ++ x :: xs), rest).
Proof.
  intros Hblank Hinner.
  induction xs as [|y ys IH]; intros x acc fuel Hall Hfuel;
    inversion Hall as [|? ? Hx Hrest]; subst;
    destruct fuel as [|fuel]; cbn [needAll fold_right] in Hfuel; try lia;
    cbn [parseElements].
  - cbn [map Js.join].
    rewrite (parseValue_skip fuel _
               (stringify inner x ++ nl ++ indent ++ "]" ++ rest)%string)
      by (rewrite skipWs_nl; apply skipWs_blank; exact Hinner).
    rewrite (Hx inner (nl ++ indent ++ "]" ++ rest)%string fuel Hinner)
      by (try reflexivity; lia).
    rewrite skipWs_nl, (skipWs_blank indent _ Hblank). reflexivity.
  - cbn [map]. rewrite join_cons, !string_app_assoc.
    rewrite (parseValue_skip fuel _
               (stringify inner x
                ++ "," ++ nl ++ inner
                ++ Js.join ("," ++ nl ++ inner)
                           (stringify inner y :: map (stringify inner) ys)
                ++ nl ++ indent ++ "]" ++ rest)%string)
      by (rewrite skipWs_nl; apply skipWs_blank; exact Hinner).
    rewrite (Hx inner _ fuel Hinner) by (try reflexivity; lia).
    change (skipWs ("," ++ nl ++ inner
                ++ Js.join ("," ++ nl ++ inner)
                           (stringify inner y :: map (stringify inner) ys)
                ++ nl ++ indent ++ "]" ++ rest)%string)
      with (String "," (nl ++ inner
                ++ Js.join ("," ++ nl ++ inner)
                           (map (stringify inner) (y :: ys))
                ++ nl ++ indent ++ "]" ++ rest)%string).
    change (Ascii.eqb "," ",") with true. cbv iota.
    rewrite (IH y (acc ++ [x]) fuel Hrest) by (cbn [needAll fold_right]; lia).
    now rewrite <- app_assoc.
Qed.

(** The member loop reads the members of an object up to its brace. *)
Lemma parseMembers_fields indent inner rest :
  blank indent = true -> blank inner = true ->
  forall kvs kv acc fuel,
    Forall (fun kv => readsBack (snd kv)) (kv :: kvs) ->
    needAll (fun kv => need (snd kv)) (kv :: kvs) <= fuel ->
    parseMembers fuel
      (nl ++ inner
          ++ Js.join ("," ++ nl ++ inner) (map (memberText inner) (kv :: kvs))
          ++ nl ++ indent ++ "}" ++ rest)%string acc
    = Some (Js.VObj (Js.fromEntries (acc ++ kv :: kvs)), rest).
Proof.
  intros Hblank Hinner.
  induction kvs as [|kv' kvs IH]; intros [k v] acc fuel Hall Hfuel;
    inversion Hall as [|? ? Hv Hrest]; subst; cbn [snd] in Hv;
    destruct fuel as [|fuel]; cbn [needAll fold_right snd] in Hfuel; try lia.
  - cbn [map Js.join]. unfold memberText. cbn [fst snd]. rewrite !string_app_assoc.
    destruct (parseChars_quoteJSON k
                (": " ++ stringify inner v ++ nl ++ indent ++ "}" ++ rest)%string)
      as (tail & Etail & Hkey).
    rewrite (parseMembers_skip (S fuel) _ (String Js.QUOTE tail))
      by (rewrite skipWs_nl, (skipWs_blank inner _ Hinner), Etail; reflexivity).
    cbn [parseMembers]. change (skipWs (String Js.QUOTE tail)) with (String Js.QUOTE tail).
    cbv iota. change (Ascii.eqb Js.QUOTE Js.QUOTE) with true. cbv iota.
    rewrite Hkey.
    change (skipWs (": " ++ stringify inner v ++ nl ++ indent ++ "}" ++ rest)%string)
      with (String ":" (" " ++ stringify inner v ++ nl ++ indent ++ "}" ++ rest)%string).
    cbv iota. change (Ascii.eqb ":" ":") with true. cbv iota.
    rewrite (parseValue_skip fuel _ (stringify inner v ++ nl ++ indent ++ "}" ++ rest)%string)
      by reflexivity.
    rewrite (Hv inner (nl ++ indent ++ "}" ++ rest)%string fuel Hinner)
      by (try reflexivity; lia).
    rewrite skipWs_nl, (skipWs_blank indent _ Hblank). reflexivity.
  - cbn [map]. rewrite join_cons. unfold memberText at 1. cbn [fst snd].
    rewrite !string_app_assoc.
    destruct (parseChars_quoteJSON k
                (": " ++ stringify inner v ++ "," ++ nl ++ inner
                 ++ Js.join ("," ++ nl ++ inner)
                            (memberText inner kv' :: map (memberText inner) kvs)
                 ++ nl ++ indent ++ "}" ++ rest)%string)
      as (tail & Etail & Hkey).
    rewrite (parseMembers_skip (S fuel) _ (String Js.QUOTE tail))
      by (rewrite skipWs_nl, (skipWs_blank inner _ Hinner), Etail; reflexivity).
    cbn [parseMembers]. change (skipWs (String Js.QUOTE tail)) with (String Js.QUOTE tail).
    cbv iota. change (Ascii.eqb Js.QUOTE Js.QUOTE) with true. cbv iota.
    rewrite Hkey.
    match goal with
    | |- context [skipWs (": " ++ ?X)%string] =>
        change (skipWs (": " ++ X)%string) with (String ":" (" " ++ X)%string)
    end.
    cbv iota. change (Ascii.eqb ":" ":") with true. cbv iota.
    match goal with
    | |- context [parseValue fuel (" " ++ ?X)%string] =>
        rewrite (parseValue_skip fuel (" " ++ X)%string X) by reflexivity
    end.
    rewrite (Hv inner _ fuel Hinner) by (try reflexivity; lia).
    match goal with
    | |- context [skipWs ("," ++ ?X)%string] =>
        change (skipWs ("," ++ X)%string) with (String "," X)
    end.
    cbv iota. change (Ascii.eqb "," ",") with true. cbv iota.
    change (memberText inner kv' :: map (memberText inner) kvs)
      with (map (memberText inner) (kv' :: kvs)).
    rewrite (IH kv' (acc ++ [(k, v)]) fuel Hrest) by (cbn [needAll fold_right]; lia).
    now rewrite <- app_assoc.
Qed.

Lemma Forall_modus {A : Type} (P Q : A -> Prop) l :
  Forall (fun x => P x -> Q x) l -> Forall P l -> Forall Q l.
Proof.
  induction 1 as [|x l H _ IH]; intros HP; constructor;
    inversion HP; subst; auto.
Qed.

Lemma parseValue_array fuel text :
  parseValue (S fuel) (String "[" text)
  = match skipWs text with
    | EmptyString => None
    | String d rest' =>
        if Ascii.eqb d "]" then Some (Js.VArr [], rest') else parseElements fuel text []
    end.
Proof. reflexivity. Qed.

Lemma parseValue_object fuel text :
  parseValue (S fuel) (String "{" text)
  = match skipWs text with
    | EmptyString => None
    | String d rest' =>
        if Ascii.eqb d "}" then Some (Js.VObj [], rest') else parseMembers fuel text []
    end.
Proof. reflexivity. Qed.

Lemma parseValue_open_array fuel text c t :
  skipWs text = String c t -> Ascii.eqb c "]" = false ->
  parseValue (S fuel) (String "[" text) = parseElements fuel text [].
Proof. intros H Hc. now rewrite parseValue_array, H, Hc. Qed.

Lemma parseValue_open_object fuel text c t :
  skipWs text = String c t -> Ascii.eqb c "}" = false ->
  parseValue (S fuel) (String "{" text) = parseMembers fuel text [].
Proof. intros H Hc. now rewrite parseValue_object, H, Hc. Qed.

Lemma parseValue_string fuel text :
  parseValue (S fuel) (String Js.QUOTE text)
  = match parseChars text with
    | Some (s, rest') => Some (Js.VStr s, rest')
    | None => None
    end.
Proof. reflexivity. Qed.

Lemma join_head sep c t l tail :
  exists t', (Js.join sep (String c t :: l) ++ tail)%string = String c t'.
Proof. destruct l as [|y ys]; [|rewrite join_cons]; eexists; reflexivity. Qed.

(** Every JSON-safe value is read back from its text. *)
Lemma safe_readsBack : forall v, JsonSafe v -> readsBack v.
Proof.
  induction v as [ |b|r|s|items IH|fields IH] using Value_nested_ind;
    intros Hsafe indent rest fuel Hblank Hfuel Hdel;
    (destruct fuel as [|fuel]; [cbn [need] in Hfuel; lia|]).
  - reflexivity.
  - destruct b; reflexivity.
  - inversion Hsafe as [| |r' Hn| | |]; subst.
    unfold jsonNumber in Hn. apply andb_true_iff in Hn as [Hg Hz].
    cbn [stringify]. rewrite (grammar_finite r Hg).
    destruct (followsGrammar_head r Hg) as (c & t & -> & Hc).
    destruct (number_head c Hc) as (Hws & Hn' & Ht & Hf & Hq & Hb & Hbr & _ & _).
    cbn [String.append parseValue skipWs]. rewrite Hws, Hn', Ht, Hf, Hq, Hb, Hbr.
    change (String c (t ++ rest)) with (String c t ++ rest)%string.
    rewrite (readNumber_follows _ NStart rest Hg Hdel).
    unfold numberOfToken. apply negb_true_iff in Hz. rewrite Hz. reflexivity.
  - cbn [stringify].
    destruct (parseChars_quoteJSON s rest) as (tail & -> & Hs).
    rewrite parseValue_string, Hs. reflexivity.
  - inversion Hsafe as [| | | |items' Hitems|]; subst.
    destruct items as [|x xs]; [reflexivity|].
    pose proof (Forall_modus _ _ _ IH Hitems) as Hall.
    cbn [need] in Hfuel.
    rewrite stringify_arr.
    remember (indent ++ "  ")%string as inner eqn:Einner.
    assert (Hinner : blank inner = true) by (subst inner; now apply blank_deeper).
    destruct (stringify_head inner x) as (c & t & Ehead & Hws & Hbr & _);
      [now inversion Hitems|].
    rewrite !string_app_assoc.
    change ("[" ++ ?X)%string with (String "[" X).
    destruct (join_head ("," ++ nl ++ inner) c t (map (stringify inner) xs)
                        (nl ++ indent ++ "]" ++ rest)%string) as (t' & Et').
    rewrite (parseValue_open_array fuel _ c t').
    + exact (parseElements_items indent inner rest Hblank Hinner xs x [] fuel Hall
               ltac:(lia)).
    + rewrite skipWs_nl, (skipWs_blank inner _ Hinner). cbn [map].
      rewrite Ehead, Et'. cbn [skipWs]. now rewrite Hws.
    + exact Hbr.
  - inversion Hsafe as [| | | | |fields' Hwf Hfields]; subst.
    destruct fields as [|kv kvs]; [reflexivity|].
    pose proof (Forall_modus _ _ _ IH Hfields) as Hall.
    cbn [need] in Hfuel.
    rewrite stringify_obj.
    remember (indent ++ "  ")%string as inner eqn:Einner.
    assert (Hinner : blank inner = true) by (subst inner; now apply blank_deeper).
    rewrite !string_app_assoc.
    change ("{" ++ ?X)%string with (String "{" X).
    assert (Ehead : exists t, memberText inner kv = String Js.QUOTE t)
      by (eexists; reflexivity).
    destruct Ehead as (t & Ehead).
    destruct (join_head ("," ++ nl ++ inner) Js.QUOTE t (map (memberText inner) kvs)
                        (nl ++ indent ++ "}" ++ rest)%string) as (t' & Et').
    rewrite (parseValue_open_object fuel _ Js.QUOTE t').
    + rewrite (parseMembers_fields indent inner rest Hblank Hinner kvs kv [] fuel Hall
                 ltac:(lia)).
      cbn [app]. now rewrite Hwf.
    + rewrite skipWs_nl, (skipWs_blank inner _ Hinner). cbn [map].
      rewrite Ehead, Et'. reflexivity.
    + reflexivity.
Qed.

Lemma needAll_join {A : Type} (cost : A -> nat) (text : A -> string) sep :
  1 <= String.length sep ->
  forall l,
    Forall (fun x => cost x <= String.length (text x)) l ->
    needAll cost l <= String.length (Js.join sep (map text l)) + 1.
Proof.
  intros Hsep. induction l as [|x [|y l'] IH]; intros Hall.
  - cbn. lia.
  - inversion Hall; subst. cbn. lia.
  - inversion Hall as [|? ? Hx Hrest]; subst. specialize (IH Hrest).
    cbn [map] in IH |- *. rewrite join_cons, !string_length_append.
    cbn [needAll fold_right] in IH |- *. lia.
Qed.

Lemma jsonNumber_nonempty r : jsonNumber r = true -> 1 <= String.length r.
Proof.
  unfold jsonNumber. intros H. apply andb_true_iff in H as [Hg _].
  destruct r; [discriminate Hg|cbn; lia].
Qed.

(** The fuel a value needs does not exceed the length of its text. *)
Lemma need_le_length : forall v, JsonSafe v ->
  forall indent, need v <= String.length (stringify indent v).
Proof.
  induction v as [ |b|r|s|items IH|fields IH] using Value_nested_ind;
    intros Hsafe indent.
  - cbn. lia.
  - destruct b; cbn; lia.
  - inversion Hsafe as [| |r' Hn| | |]; subst. cbn [stringify need].
    pose proof (jsonNumber_nonempty r Hn) as Hlen.
    unfold jsonNumber in Hn. apply andb_true_iff in Hn as [Hg _].
    now rewrite (grammar_finite r Hg).
  - cbn. lia.
  - inversion Hsafe as [| | | |items' Hitems|]; subst.
    destruct items as [|x xs]; [cbn; lia|].
    rewrite stringify_arr. cbn [need].
    pose proof (needAll_join need (stringify (indent ++ "  "))
                  ("," ++ nl ++ (indent ++ "  "))%string ltac:(cbn; lia) (x :: xs)) as H.
    rewrite !string_length_append. cbn [String.length].
    assert (Hall : Forall (fun v => need v <= String.length (stringify (indent ++ "  ") v))
                          (x :: xs)).
    { clear H. revert IH Hitems. generalize (x :: xs). intros l IH Hs.
      induction IH as [|y l Hy _ IHl]; constructor; inversion Hs; subst; auto. }
    specialize (H Hall). lia.
  - inversion Hsafe as [| | | | |fields' Hwf Hfields]; subst.
    destruct fields as [|kv kvs]; [cbn; lia|].
    rewrite stringify_obj. cbn [need].
    pose proof (needAll_join (fun kv => need (snd kv)) (memberText (indent ++ "  "))
                  ("," ++ nl ++ (indent ++ "  "))%string ltac:(cbn; lia) (kv :: kvs)) as H.
    rewrite !string_length_append. cbn [String.length].
    assert (Hall : Forall (fun kv => need (snd kv)
                                     <= String.length (memberText (indent ++ "  ") kv))
                          (kv :: kvs)).
    { clear H. revert IH Hfields. generalize (kv :: kvs). intros l IH Hs.
      induction IH as [|y l Hy _ IHl]; constructor; inversion Hs; subst; auto.
      unfold memberText. rewrite !string_length_append.
      specialize (Hy ltac:(assumption) (indent ++ "  ")%string). lia. }
    specialize (H Hall). lia.
Qed.

(** [JSON.parse(JSON.stringify(v, null, 2))] is [v] for a JSON-safe [v]. *)
Lemma parse_stringify v : JsonSafe v -> parseJSON (stringify EmptyString v) = Some v.
Proof.
  intros Hsafe. unfold parseJSON.
  pose proof (safe_readsBack v Hsafe EmptyString EmptyString
                (S (String.length (stringify EmptyString v)))) as H.
  rewrite string_app_nil in H. rewrite H; try reflexivity.
  pose proof (need_le_length v Hsafe EmptyString). lia.
Qed.

Lemma recordValue_safe v : recordValue v = true -> JsonSafe v.
Proof.
  destruct v as [ |b|r|s|items|fields]; cbn; intros H; try discriminate; try constructor.
  - exact H.
  - induction items as [|x xs IH]; constructor; cbn in H;
      apply andb_true_iff in H as [Hx Hxs].
    + destruct x; try discriminate. constructor.
    + now apply IH.
Qed.

Lemma jsonSafeRecord_safe o : jsonSafeRecord o -> JsonSafe (Js.VObj o).
Proof.
  intros [Hwf Hvals]. constructor; [exact Hwf|].
  unfold Js.values in Hvals. rewrite forallb_forall in Hvals.
  apply Forall_forall. intros kv Hin. apply recordValue_safe, Hvals.
  now apply in_map.
Qed.

(** C8. For records whose values are strings, finite numbers, booleans,
    arrays of strings or null, the JSON export parses back to the list of
    records it was made from, field for field and in the same order. *)
Theorem json_export_round_trip clock data :
  Forall jsonSafeRecord data ->
  exists text,
    formatExportData clock data "json" = Js.Ok text /\
    parseJSON text = Some (recordsValue data).
Proof.
  intros Hall. exists (stringify EmptyString (recordsValue data)).
  split; [reflexivity|].
  apply parse_stringify. constructor.
  induction Hall as [|o rest Ho _ IH]; constructor; [|exact IH].
  now apply jsonSafeRecord_safe.
Qed.

End JsonFacts.

Section JsonExamples.
Import Formatter Samples.

Lemma json_export_round_trip_witness :
  exists text,
    formatExportData (stoppedClock 0) [mixedRecord; product "P"; []] "json" = Js.Ok text /\
    parseJSON text = Some (recordsValue [mixedRecord; product "P"; []]).
Proof.
  apply (json_export_round_trip (stoppedClock 0) [mixedRecord; product "P"; []]).
  repeat constructor.
Defined.

(** The text of a small export. *)
Example json_export_text :
  formatExportData (stoppedClock 0) [product "P"; []] "json"
  = Js.Ok (lines [ "[";
                      "  {";
                      "    " ++ quoted "title" ++ ": " ++ quoted "P" ++ ",";
                      "    " ++ quoted "price" ++ ": 9.5";
                      "  },";
                      "  {}";
                      "]" ])%string.
Proof. reflexivity. Qed.

(** NaN is no JSON-safe number: it is written as [null]. *)
Example nan_is_written_as_null :
  parseJSON (stringify EmptyString (recordsValue [[("rating", Js.VNum "NaN")]]))
  = Some (recordsValue [[("rating", Js.VNull)]]).
Proof. vm_compute. reflexivity. Qed.

(** Keys that are array indices are listed first when an object is built. *)
Example parse_lists_indices_first :
  option_map (fun v => match v with Js.VObj o => Js.keys o | _ => [] end)
             (parseJSON ("{" ++ quoted "b" ++ ":1," ++ quoted "10" ++ ":2,"
                             ++ quoted "9" ++ ":3}")%string)
  = Some ["9"; "10"; "b"].
Proof. vm_compute. reflexivity. Qed.

End JsonExamples.

(* ================================================================== *)
(** * Properties: property writes *)
(* ================================================================== *)

Section ObjectFacts.

Context {A : Type}.
Implicit Types (o : list (string * A)) (k : string) (v : A).

Lemma hasKey_In k o : Js.hasKey k o = true <-> In k (map fst o).
Proof.
  induction o as [|[k' v'] o IH]; simpl; [split; [discriminate|intros []]|].
  rewrite orb_true_iff, IH, String.eqb_eq. split; intros [H|H]; auto.
Qed.

Lemma keys_replaceValue k v o : map fst (Js.replaceValue k v o) = map fst o.
Proof.
  induction o as [|[k' v'] o IH]; simpl; [reflexivity|].
  destruct (String.eqb_spec k k'); simpl; congruence.
Qed.

Lemma In_placeNew k v o (e : string * A) :
  In e (Js.placeNew k v o) <-> e = (k, v) \/ In e o.
Proof.
  induction o as [|[k' v'] o IH]; simpl; [intuition|].
  destruct (Js.listedBefore k k'); simpl; [intuition|].
  rewrite IH. intuition.
Qed.

Lemma In_keys_set k k' v o :
  In k (map fst (Js.set k' v o)) <-> k = k' \/ In k (map fst o).
Proof.
  unfold Js.set. destruct (Js.hasKey k' o) eqn:H.
  - rewrite keys_replaceValue. apply hasKey_In in H.
    split; [auto|intros [->|]; auto].
  - rewrite !in_map_iff. split.
    + intros ([k0 v0] & <- & Hin). apply In_placeNew in Hin as [E|Hin].
      * inversion E. now left.
      * right. exists (k0, v0). auto.
    + intros [->|([k0 v0] & <- & Hin)].
      * exists (k', v). split; [reflexivity|]. apply In_placeNew. now left.
      * exists (k0, v0). split; [reflexivity|]. apply In_placeNew. now right.
Qed.

(** Writing the same keys with other values lists them alike. *)
Lemma set_map {B : Type} (f : string -> A -> B) k v o :
  map (fun kv => (fst kv, f (fst kv) (snd kv))) (Js.set k v o)
  = Js.set k (f k v) (map (fun kv => (fst kv, f (fst kv) (snd kv))) o).
Proof.
  unfold Js.set.
  assert (Hk : Js.hasKey k (map (fun kv => (fst kv, f (fst kv) (snd kv))) o) = Js.hasKey k o).
  { induction o as [|[k' v'] o IH]; simpl; [reflexivity|]. now rewrite IH. }
  rewrite Hk. clear Hk. destruct (Js.hasKey k o).
  - induction o as [|[k' v'] o IH]; simpl; [reflexivity|].
    destruct (String.eqb_spec k k'); simpl; [reflexivity|]. now rewrite IH.
  - induction o as [|[k' v'] o IH]; simpl; [reflexivity|].
    destruct (Js.listedBefore k k'); simpl; [reflexivity|]. now rewrite IH.
Qed.

Lemma fold_set_map {B : Type} (f : string -> A -> B) entries : forall o,
  map (fun kv => (fst kv, f (fst kv) (snd kv)))
      (fold_left (fun acc kv => Js.set (fst kv) (snd kv) acc) entries o)
  = fold_left (fun acc kv => Js.set (fst kv) (f (fst kv) (snd kv)) acc) entries
              (map (fun kv => (fst kv, f (fst kv) (snd kv))) o).
Proof.
  induction entries as [|[k v] entries IH]; intros o; simpl; [reflexivity|].
  rewrite IH, set_map. reflexivity.
Qed.

(** Away from [__proto__] an assignment is a property write. *)
Lemma fold_assign_set {B : Type} (f : string -> A -> B) entries :
  forall o : list (string * B),
  ~ In "__proto__" (map fst entries) ->
  fold_left (fun acc kv => Js.assign (fst kv) (f (fst kv) (snd kv)) acc) entries o
  = fold_left (fun acc kv => Js.set (fst kv) (f (fst kv) (snd kv)) acc) entries o.
Proof.
  induction entries as [|[k v] entries IH]; intros o Hnot; cbn [fold_left fst snd];
    [reflexivity|].
  cbn [map fst] in Hnot. unfold Js.assign at 2.
  destruct (String.eqb_spec k "__proto__") as [->|_].
  - exfalso. apply Hnot. now left.
  - apply IH. intros Hin. apply Hnot. now right.
Qed.

End ObjectFacts.

(* ================================================================== *)
(** * Properties: more about the crawl handler *)
(* ================================================================== *)

Section CrawlHandlerFacts.
Import Crawl.

Context {W : Type} (app : FirecrawlApp W) (host : Host).

Lemma take_length n : forall s, String.length (Js.take n s) <= n.
Proof.
  induction n as [|n IH]; intros [|c s]; simpl; try lia.
  specialize (IH s). lia.
Qed.

Lemma scrapePages_counts opts urls w c path w' :
  scrapePages app opts urls w = (c, path, w') ->
  ctotal c = List.length urls /\
  ccompleted c = List.length (cdata c) /\
  (path = FallbackPath -> List.length (cdata c) <= List.length urls).
Proof.
  unfold scrapePages, fallbackCrawl. intros H.
  assert (Hfall : forall w1,
            (let (results, w2) := fallbackLoop app opts urls w1 in
             (mkCrawl (map pageOfResult (filter rsuccess results)) (List.length urls)
                      (List.length (filter rsuccess results))
                      (Some (List.length (filter rsuccess results))), w2))
            = (c, w') ->
            ctotal c = List.length urls /\ ccompleted c = List.length (cdata c) /\
            List.length (cdata c) <= List.length urls).
  { intros w1 E. pose proof (@fallbackLoop_length W app opts urls w1) as L.
    destruct (fallbackLoop app opts urls w1) as [results w2]. simpl in L.
    inversion E; subst. simpl. rewrite length_map.
    repeat split. rewrite <- L. apply filter_length_le. }
  destruct (batchScrapeUrls app urls opts w) as [[b|m] w1].
  - destruct (bsuccess b).
    + inversion H; subst. simpl. repeat split. discriminate.
    + destruct (fallbackLoop app opts urls w1) as [results w2] eqn:E.
      inversion H; subst. specialize (Hfall w1). rewrite E in Hfall.
      destruct (Hfall eq_refl) as (? & ? & ?). auto.
  - destruct (fallbackLoop app opts urls w1) as [results w2] eqn:E.
    inversion H; subst. specialize (Hfall w1). rewrite E in Hfall.
    destruct (Hfall eq_refl) as (? & ? & ?). auto.
Qed.

(** X1. The counters of a successful response: [totalPages] is the number of
    selected URLs, which is at least one, and [completed] is the number of
    records returned; after a fallback no more pages are completed than
    URLs were selected. *)
Theorem response_counts apiKey body w r w' :
  POST app host apiKey body w = (Success r, w') ->
  totalPages r = List.length (orDefault (selectedUrls body) []) /\
  1 <= totalPages r /\
  completed r = List.length (data r) /\
  (forall finalSchema w1,
     resolveSchema app body (orDefault (url body) EmptyString) w
       = (Js.Ok (Some finalSchema), w1) ->
     pathTaken app (scrapeOptionsFor finalSchema (orDefault (maxAge body) "0"))
               (orDefault (selectedUrls body) []) w1 = FallbackPath ->
     completed r <= totalPages r).
Proof.
  intros H. apply POST_success_inv in H.
  destruct H as (fs & w1 & c & path & ex & _ & _ & Hr & Hs & Hp & He & ->).
  destruct (scrapePages_counts _ _ _ _ _ _ Hp) as (Ht & Hc & Hle).
  pose proof (extractAll_length host _ _ _ He) as Hlen.
  assert (Hpos : 1 <= List.length (orDefault (selectedUrls body) [])).
  { destruct (orDefault (selectedUrls body) []); [congruence|simpl; lia]. }
  assert (Htotal : Js.orNat (ctotal c) (List.length ex)
                   = List.length (orDefault (selectedUrls body) [])).
  { rewrite Ht. unfold Js.orNat.
    destruct (Nat.eqb_spec (List.length (orDefault (selectedUrls body) [])) 0); [lia|reflexivity]. }
  assert (Hdone : Js.orNat (ccompleted c) (List.length ex) = List.length ex).
  { rewrite Hc, <- Hlen. apply orNat_same. }
  simpl. rewrite Htotal, Hdone. repeat split; auto.
  intros fs' w1' Hr' Hpath. rewrite Hr in Hr'. inversion Hr'; subst.
  unfold pathTaken in Hpath. rewrite Hp in Hpath. simpl in Hpath.
  rewrite Hlen. auto.
Qed.

(** X2. A request without a URL, a request arriving while the API key is not
    configured, a request with a schema but no selected URL, and a request
    with neither a schema nor [autoInfer] are all refused without any call
    to the Firecrawl client: the outside world is left as it was. *)
Theorem refused_before_any_client_call apiKey body w :
  missing (url body) = true \/
  keyConfigured apiKey = false \/
  (schema body <> None /\ orDefault (selectedUrls body) [] = []) \/
  (schema body = None /\ orDefault (autoInfer body) false = false) ->
  snd (POST app host apiKey body w) = w /\
  exists st msg, fst (POST app host apiKey body w) = Failure st msg.
Proof.
  intros H. unfold POST.
  destruct (missing (url body)); [simpl; eauto|].
  destruct (keyConfigured apiKey); simpl; [|eauto].
  destruct H as [H|[H|[[Hs Hu]|[Hs Ha]]]]; try discriminate; unfold resolveSchema.
  - destruct (schema body) as [s|]; [|congruence]. rewrite Hu. simpl. eauto.
  - rewrite Hs, Ha. simpl. eauto.
Qed.

(** X3. Raw data is returned exactly when [includeRaw] is set; it then has one
    entry per record, and the markdown of an entry is cut to 2000
    characters plus an ellipsis. *)
Theorem raw_data_follows_records apiKey body w r w' :
  POST app host apiKey body w = (Success r, w') ->
  (orDefault (includeRaw body) false = false -> rawData r = None) /\
  (orDefault (includeRaw body) false = true ->
   exists raws,
     rawData r = Some raws /\
     List.length raws = List.length (data r) /\
     Forall (fun raw => String.length (rawMarkdown raw) <= 2003) raws).
Proof.
  intros H. apply POST_success_inv in H.
  destruct H as (fs & w1 & c & path & ex & _ & _ & _ & _ & _ & He & ->).
  pose proof (extractAll_length host _ _ _ He) as Hlen.
  simpl. split; intros Hraw; rewrite Hraw; [reflexivity|].
  eexists. split; [reflexivity|]. split; [now rewrite length_map|].
  apply Forall_map, Forall_forall. intros page _. unfold rawPage. cbn [rawMarkdown].
  rewrite string_length_append.
  pose proof (take_length 2000 (orDefault (pmarkdown page) EmptyString)).
  destruct (2000 <? _); cbn [String.length]; lia.
Qed.

(** X4. Where the schema of a successful response comes from. A schema sent
    with the request is used as it is, without a sample scrape, and is
    echoed as [inferredSchema] when [autoInfer] is set. Without one, the
    request had [autoInfer] set, the sample scrape resolved, and the schema
    is the one inferred from the sample, or the default schema when the
    sample reports [success: false]. *)
Theorem schema_of_response apiKey body w r w' :
  POST app host apiKey body w = (Success r, w') ->
  match schema body with
  | Some s =>
      resolveSchema app body (orDefault (url body) EmptyString) w = (Js.Ok (Some s), w) /\
      inferredSchema r = (if orDefault (autoInfer body) false then Some s else None)
  | None =>
      orDefault (autoInfer body) false = true /\
      exists sample w1,
        scrapeUrl app (orDefault (url body) EmptyString) sampleOptions w
          = (Resolved sample, w1) /\
        inferredSchema r
        = Some (if rsuccess sample
                then inferSchemaFromContent (rmarkdown sample) (rhtml sample)
                else getDefaultSchema)
  end.
Proof.
  intros H. apply POST_success_inv in H.
  destruct H as (fs & w1 & c & path & ex & _ & _ & Hr & _ & _ & _ & ->).
  unfold resolveSchema in *. simpl.
  destruct (schema body) as [s|].
  - inversion Hr; subst. auto.
  - destruct (orDefault (autoInfer body) false); [|discriminate].
    split; [reflexivity|].
    destruct (scrapeUrl app _ sampleOptions w) as [[sample|m] w2]; [|discriminate].
    exists sample, w2. split; [reflexivity|].
    destruct (rsuccess sample); inversion Hr; reflexivity.
Qed.

(** X5. When the batch call resolves with [success: true] no URL is scraped
    on its own: the response is a success computed from the pages of the
    batch, one record per page, and [completed] is their number. A batch
    without [data] gives no record. *)
Theorem bulk_returns_batch_pages apiKey body w finalSchema w1 b w2 :
  let urls := orDefault (selectedUrls body) [] in
  let opts := scrapeOptionsFor finalSchema (orDefault (maxAge body) "0") in
  let pages := orDefault (bdata b) [] in
  missing (url body) = false ->
  keyConfigured apiKey = true ->
  resolveSchema app body (orDefault (url body) EmptyString) w
    = (Js.Ok (Some finalSchema), w1) ->
  urls <> [] ->
  batchScrapeUrls app urls opts w1 = (Resolved b, w2) ->
  bsuccess b = true ->
  fieldsCompile host finalSchema ->
  exists r,
    POST app host apiKey body w = (Success r, w2) /\
    extractAll host finalSchema pages = Js.Ok (data r) /\
    List.length (data r) = List.length pages /\
    completed r = List.length pages /\
    (bdata b = None -> data r = [] /\ completed r = 0).
Proof.
  intros urls opts pages Hu Hk Hr Hs Hb Hok Hc.
  destruct (extractAll_ok host finalSchema pages Hc) as [os Hos].
  pose proof (extractAll_length host _ _ _ Hos) as Hlen.
  assert (Hp : scrapePages app opts urls w1
               = (mkCrawl pages (List.length urls) (List.length pages)
                          (match bcreditsUsed b with
                           | Some n => Some n
                           | None => Some (List.length pages)
                           end), BulkPath, w2)).
  { unfold scrapePages. rewrite Hb, Hok. reflexivity. }
  exists (respond body finalSchema urls
            (mkCrawl pages (List.length urls) (List.length pages)
                     (match bcreditsUsed b with
                      | Some n => Some n
                      | None => Some (List.length pages)
                      end)) os).
  assert (Hdone : Js.orNat (List.length pages) (List.length os) = List.length pages)
    by (rewrite Hlen; apply orNat_same).
  split; [eapply POST_success_intro; eauto|].
  simpl. rewrite Hdone.
  split; [exact Hos|]. split; [exact Hlen|]. split; [reflexivity|].
  intros Hnone. unfold pages in *. rewrite Hnone in *. simpl in Hlen.
  destruct os; [split; reflexivity|discriminate Hlen].
Qed.

End CrawlHandlerFacts.

Section CrawlHandlerExamples.
Import Crawl Samples.

Lemma response_counts_witness :
  exists r w',
    POST flakyApp quietHost liveKey fiveRequest 0 = (Success r, w') /\
    totalPages r = 5 /\ completed r = 3.
Proof.
  destruct (POST flakyApp quietHost liveKey fiveRequest 0) as [[st msg|r] w'] eqn:E.
  - vm_compute in E. discriminate E.
  - destruct (response_counts flakyApp quietHost liveKey fiveRequest 0 r w' E)
      as (Ht & _ & Hc & _).
    exists r, w'. split; [reflexivity|]. split; [exact Ht|].
    rewrite Hc. vm_compute in E. inversion E. reflexivity.
Defined.

Lemma refused_before_any_client_call_witness :
  snd (POST bulkApp quietHost liveKey (request (Some titleUrlSchema) (Some true) (Some [])) 0)
  = 0.
Proof.
  apply (refused_before_any_client_call bulkApp quietHost liveKey
           (request (Some titleUrlSchema) (Some true) (Some [])) 0).
  right. right. left. split; [discriminate|reflexivity].
Defined.

(** With [autoInfer] and no schema the sample scrape is made before the
    empty selection is noticed. *)
Example sample_scrape_precedes_selection_check :
  POST bulkApp quietHost liveKey (request None (Some true) (Some [])) 0
  = (Failure 400 "No URLs selected for scraping", 1).
Proof. reflexivity. Qed.

Lemma raw_data_follows_records_witness :
  exists r w' raws,
    POST flakyApp quietHost liveKey
         (mkBody (Some "https://shop.example") (Some titleUrlSchema) None (Some true)
                 (Some fiveUrls) None) 0 = (Success r, w') /\
    rawData r = Some raws /\ List.length raws = List.length (data r).
Proof.
  destruct (POST flakyApp quietHost liveKey
         (mkBody (Some "https://shop.example") (Some titleUrlSchema) None (Some true)
                 (Some fiveUrls) None) 0) as [[st msg|r] w'] eqn:E.
  - vm_compute in E. discriminate E.
  - destruct (raw_data_follows_records flakyApp quietHost liveKey _ 0 r w' E) as [_ H].
    destruct (H eq_refl) as (raws & Hraw & Hlen & _).
    exists r, w', raws. auto.
Defined.

Lemma schema_of_response_witness :
  exists r w',
    POST bulkApp quietHost liveKey (request None (Some true) (Some fiveUrls)) 0
      = (Success r, w') /\
    inferredSchema r = Some (inferSchemaFromContent None None).
Proof.
  destruct (POST bulkApp quietHost liveKey (request None (Some true) (Some fiveUrls)) 0)
    as [[st msg|r] w'] eqn:E.
  - vm_compute in E. discriminate E.
  - pose proof (schema_of_response bulkApp quietHost liveKey _ 0 r w' E) as H.
    simpl in H. destruct H as (_ & sample & w1 & Hs & Hi).
    inversion Hs; subst. exists r, w'. split; [reflexivity|exact Hi].
Defined.

Lemma bulk_returns_batch_pages_witness :
  exists r,
    POST bulkApp quietHost liveKey fiveRequest 0 = (Success r, 1) /\
    List.length (data r) = 5 /\ completed r = 5.
Proof.
  destruct (bulk_returns_batch_pages bulkApp quietHost liveKey fiveRequest 0
              titleUrlSchema 0 (mkBatch true None (Some (map pageOf fiveUrls)) (Some 99)) 1)
    as (r & HP & _ & Hlen & Hdone & _).
  - reflexivity.
  - reflexivity.
  - reflexivity.
  - discriminate.
  - reflexivity.
  - reflexivity.
  - intros k p md msg _. discriminate.
  - exists r. split; [exact HP|]. split; [exact Hlen|exact Hdone].
Defined.

End CrawlHandlerExamples.


(* ================================================================== *)
(** * Properties: schemas and titles *)
(* ================================================================== *)

Section SchemaFacts.
Import Crawl Vocabulary.

Lemma hasProp_hasKey k ps : hasProp k ps = Js.hasKey k ps.
Proof.
  unfold hasProp. induction ps as [|[k' v] ps IH]; simpl; [reflexivity|].
  destruct (String.eqb k k'); simpl; [reflexivity|exact IH].
Qed.

Lemma hasProp_set k k' v ps :
  hasProp k (setProp k' v ps) = String.eqb k k' || hasProp k ps.
Proof.
  rewrite !hasProp_hasKey. unfold setProp. apply eq_true_iff_eq.
  rewrite orb_true_iff, !hasKey_In, In_keys_set, String.eqb_eq. reflexivity.
Qed.

Lemma hasProp_ensure k k' v ps :
  hasProp k (ensureProp k' v ps) = String.eqb k k' || hasProp k ps.
Proof.
  unfold ensureProp. destruct (hasProp k' ps) eqn:H; [|apply hasProp_set].
  destruct (String.eqb_spec k k') as [->|_]; [now rewrite H|reflexivity].
Qed.

(** X6. The JSON schema handed to Firecrawl mirrors the schema of the request:
    the same keys in the same order under [properties], every one of them
    under [required]. Every property is given one of the four known types,
    [string] standing in for any other, and a description that is never
    empty. The properties are those of an object, none of them named
    [__proto__], a key that an assignment does not define. *)
Theorem createJsonSchema_mirrors_schema s :
  enumerated (properties s) ->
  ~ In "__proto__" (map fst (properties s)) ->
  createJsonSchema s
  = Js.VObj
      [ ("type", Js.VStr "object");
        ("properties",
          Js.VObj (map (fun kp => (fst kp, jsonProperty (fst kp) (snd kp))) (properties s)));
        ("required", Js.VArr (map (fun kp => Js.VStr (fst kp)) (properties s))) ] /\
  forall key p,
    exists t d,
      jsonType (jsonProperty key p) = Some (Js.VStr t) /\
      In t ["string"; "number"; "boolean"; "array"] /\
      (In (ptype p) ["string"; "number"; "boolean"; "array"] -> t = ptype p) /\
      jsonDescription (jsonProperty key p) = Some (Js.VStr d) /\
      Js.nonEmpty d = true.
Proof.
  intros Henum Hproto. split.
  - unfold createJsonSchema. do 3 f_equal.
    rewrite (fold_assign_set jsonProperty) by exact Hproto.
    pose proof (fold_set_map jsonProperty (properties s) []) as H.
    simpl in H. rewrite <- H. unfold enumerated in Henum. now rewrite Henum.
  - intros key p.
    assert (Hd : Js.nonEmpty (describe key p) = true).
    { unfold describe. destruct (description p) as [d|].
      - destruct (Js.nonEmpty d) eqn:E; [exact E|]. now destruct key.
      - now destruct key. }
    unfold jsonProperty.
    destruct (String.eqb_spec (ptype p) "number") as [E|N1].
    { exists "number", (describe key p). rewrite E. simpl. intuition. }
    destruct (String.eqb_spec (ptype p) "boolean") as [E|N2].
    { exists "boolean", (describe key p). rewrite E. simpl. intuition. }
    destruct (String.eqb_spec (ptype p) "array") as [E|N3].
    { exists "array", (describe key p). rewrite E. simpl. intuition. }
    exists "string", (describe key p). simpl.
    intuition congruence.
Qed.

(** Which fields the inferred schema has, in terms of the sample. *)
Lemma infer_has markdown html k :
  hasProp k (properties (inferSchemaFromContent markdown html))
  = let content := (orDefault markdown EmptyString ++ " " ++ orDefault html EmptyString)%string in
    let lowered := Js.toLowerCase content in
    let p0 := fold_left (applyPattern content) patterns [] in
    let r2 := String.eqb k "description" || (String.eqb k "title" || hasProp k p0) in
    let r3 :=
      if Js.includes "product" lowered || hasProp "price" p0
      then String.eqb k "availability" || (String.eqb k "category" || (String.eqb k "price" || r2))
      else r2 in
    let r4 :=
      if Js.includes "article" lowered || Js.includes "blog" lowered
      then String.eqb k "tags" || (String.eqb k "date" || (String.eqb k "author" || r3))
      else r3 in
    if Js.includes "contact" lowered || hasProp "phone" p0 || hasProp "email" p0
    then String.eqb k "address"
         || (String.eqb k "email" || (String.eqb k "phone" || (String.eqb k "name" || r4)))
    else r4.
Proof.
  unfold inferSchemaFromContent, orDefault. cbv zeta.
  generalize (fold_left
                (applyPattern (match markdown with Some m => m | None => "" end ++ " "
                               ++ match html with Some x => x | None => "" end))
                patterns []).
  generalize (Js.toLowerCase (match markdown with Some m => m | None => "" end ++ " "
                              ++ match html with Some x => x | None => "" end)).
  intros lowered p0. cbn [properties].
  rewrite !(hasProp_ensure "price"). cbn [String.eqb Ascii.eqb Bool.eqb orb].
  destruct (Js.includes "product" lowered || hasProp "price" p0);
    destruct (Js.includes "article" lowered || Js.includes "blog" lowered);
    rewrite ?(hasProp_ensure "phone"), ?(hasProp_ensure "email");
    cbn [String.eqb Ascii.eqb Bool.eqb orb];
    destruct (Js.includes "contact" lowered || hasProp "phone" p0 || hasProp "email" p0);
    rewrite !hasProp_ensure; reflexivity.
Qed.

(** X7. Whatever the sample holds, the inferred schema is an object schema
    with a title and a description. A price never comes without a
    category and an availability, nor a phone number or an e-mail address
    without a name, a phone number, an e-mail address and a postal
    address; a sample that mentions an article or a blog gets an author, a
    date and tags. *)
Theorem inferred_schema_is_closed markdown html :
  let s := inferSchemaFromContent markdown html in
  let has k := hasProp k (properties s) in
  let content :=
    Js.toLowerCase (orDefault markdown EmptyString ++ " " ++ orDefault html EmptyString) in
  stype s = "object" /\
  has "title" = true /\ has "description" = true /\
  (has "price" = true -> has "category" = true /\ has "availability" = true) /\
  (has "phone" = true \/ has "email" = true ->
   has "name" = true /\ has "phone" = true /\ has "email" = true /\ has "address" = true) /\
  (Js.includes "article" content = true \/ Js.includes "blog" content = true ->
   has "author" = true /\ has "date" = true /\ has "tags" = true).
Proof.
  cbv beta zeta. rewrite !infer_has. cbv beta zeta.
  generalize (fold_left
                (applyPattern (orDefault markdown "" ++ " " ++ orDefault html ""))
                patterns []).
  generalize (Js.toLowerCase (orDefault markdown "" ++ " " ++ orDefault html "")).
  intros lowered p0. cbn [String.eqb Ascii.eqb Bool.eqb orb].
  split; [reflexivity|].
  destruct (Js.includes "product" lowered || hasProp "price" p0) eqn:C3;
    destruct (Js.includes "article" lowered) eqn:A;
    destruct (Js.includes "blog" lowered) eqn:B; cbn [orb];
    destruct (Js.includes "contact" lowered || hasProp "phone" p0 || hasProp "email" p0) eqn:C5;
    repeat match goal with
           | H : orb _ _ = false |- _ => apply orb_false_iff in H; destruct H
           end;
    repeat split; try reflexivity; intros; try congruence; intuition congruence.
Qed.

Lemma trimStart_starts s : startsWithSpace (Js.trimStart s) = false.
Proof.
  induction s as [|c s IH]; simpl; [reflexivity|].
  destruct (Js.isSpace c) eqn:E; [exact IH|simpl; exact E].
Qed.

Lemma trimEnd_ends s : endsWithSpace (Js.trimEnd s) = false.
Proof.
  induction s as [|c s IH]; simpl; [reflexivity|].
  destruct (Js.trimEnd s) as [|d t] eqn:E.
  - destruct (Js.isSpace c) eqn:Hc; simpl; [reflexivity|exact Hc].
  - exact IH.
Qed.

Lemma trimEnd_starts s : startsWithSpace s = false -> startsWithSpace (Js.trimEnd s) = false.
Proof.
  destruct s as [|c s]; simpl; [reflexivity|]. intros Hc.
  destruct (Js.trimEnd s); [rewrite Hc|]; simpl; exact Hc.
Qed.

Lemma trim_trimmed s :
  startsWithSpace (Js.trim s) = false /\ endsWithSpace (Js.trim s) = false.
Proof.
  unfold Js.trim. split; [apply trimEnd_starts, trimStart_starts|apply trimEnd_ends].
Qed.

Lemma title_is_trimmed markdown :
  startsWithSpace (extractTitleFromMarkdown markdown) = false /\
  endsWithSpace (extractTitleFromMarkdown markdown) = false.
Proof.
  unfold extractTitleFromMarkdown.
  destruct (Regex.search h1Pattern markdown); [apply trim_trimmed|].
  destruct (Regex.search h2Pattern markdown); [apply trim_trimmed|].
  destruct (Js.split Js.LF markdown); [split; reflexivity|apply trim_trimmed].
Qed.

End SchemaFacts.

Section SchemaExamples.
Import Crawl Samples Vocabulary.

Lemma createJsonSchema_mirrors_schema_witness :
  createJsonSchema titleUrlSchema
  = Js.VObj
      [ ("type", Js.VStr "object");
        ("properties",
          Js.VObj [ ("title", Js.VObj [("type", Js.VStr "string");
                                       ("description", Js.VStr "title field")]);
                    ("url", Js.VObj [("type", Js.VStr "string");
                                     ("description", Js.VStr "url field")]) ]);
        ("required", Js.VArr [Js.VStr "title"; Js.VStr "url"]) ].
Proof.
  destruct (createJsonSchema_mirrors_schema titleUrlSchema) as [H _].
  - reflexivity.
  - simpl. intros [H|[H|[]]]; discriminate H.
  - exact H.
Defined.

(** A property named [__proto__] is required but not described: the
    assignment defines nothing under that key. *)
Example createJsonSchema_of_proto_key :
  createJsonSchema
    (mkSchema "object" [ ("__proto__", mkProperty "string" None);
                         ("title", mkProperty "string" None) ])
  = Js.VObj
      [ ("type", Js.VStr "object");
        ("properties",
          Js.VObj [ ("title", Js.VObj [("type", Js.VStr "string");
                                       ("description", Js.VStr "title field")]) ]);
        ("required", Js.VArr [Js.VStr "__proto__"; Js.VStr "title"]) ].
Proof. reflexivity. Qed.

Lemma inferred_schema_is_closed_witness :
  hasProp "category" (properties (inferSchemaFromContent (Some "Only $5 today") None)) = true.
Proof.
  destruct (inferred_schema_is_closed (Some "Only $5 today") None) as (_ & _ & _ & H & _).
  destruct H as [Hcategory _]; [vm_compute; reflexivity|exact Hcategory].
Defined.

End SchemaExamples.


(* ================================================================== *)
(** * Properties: the schema-inference endpoint *)
(* ================================================================== *)

Section AnalyzeFacts.
Import Crawl Analyze.

Context {W : Type} (app : FirecrawlApp W) (validUrl : string -> bool).

(** X9. A URL given without [http://] or [https://] in front is analysed as
    the same URL with [https://] in front: the two requests are answered
    alike and touch the outside world alike. *)
Theorem bare_url_is_analysed_as_https apiKey u w :
  Js.nonEmpty u = true ->
  Js.startsWith "http://" u = false ->
  Js.startsWith "https://" u = false ->
  GET app validUrl apiKey (Some u) w
  = GET app validUrl apiKey (Some ("https://" ++ u)%string) w.
Proof.
  intros Hu Hhttp Hhttps. unfold GET, missing, withProtocol. cbn [orDefault].
  rewrite Hu, Hhttp, Hhttps. reflexivity.
Qed.

(** X10. The refusals of the endpoint. Those made before the sample scrape,
    400 for a missing or malformed URL and 500 for an API key that is not
    configured, carry no fallback schema and make no call to the client.
    Every refusal made after it carries the default schema: 500 with a
    message chosen from the rejection, or, when the scrape resolves with
    [success: false], 503 if its error mentions a bad gateway and 500
    otherwise. *)
Theorem refusals_of_analysis apiKey param w st msg fb w' :
  GET app validUrl apiKey param w = (Refused st msg fb, w') ->
  (fb = None /\ w' = w /\ (st = 400 \/ (st = 500 /\ keyConfigured apiKey = false))) \/
  (fb = Some getDefaultSchema /\ keyConfigured apiKey = true /\
   exists outcome,
     scrapeUrl app (withProtocol (orDefault param EmptyString)) analysisOptions w
       = (outcome, w') /\
     match outcome with
     | Rejected message => st = 500 /\ msg = rejectionMessage message
     | Resolved r =>
         rsuccess r = false /\
         (st = 500 \/ st = 503) /\
         (st = 503 <-> mentionsBadGateway (scrapeError r) = true)
     end).
Proof.
  unfold GET.
  destruct (missing param); [intros H; inversion H; subst; left; auto|].
  destruct (validUrl _); cbn [negb]; [|intros H; inversion H; subst; left; auto].
  destruct (keyConfigured apiKey); cbn [negb];
    [|intros H; inversion H; subst; left; auto].
  destruct (scrapeUrl app _ analysisOptions w) as [[r|message] w1] eqn:Hs.
  - destruct (rsuccess r) eqn:Hok; [discriminate|].
    destruct (mentionsBadGateway (scrapeError r)) eqn:Hbad;
      intros H; inversion H; subst; right; repeat split; auto;
      exists (Resolved r); repeat split; auto; try discriminate; congruence.
  - intros H; inversion H; subst. right. repeat split; auto.
    exists (Rejected message). auto.
Qed.

(** X11. A successful analysis was made with a configured key on a URL that
    [new URL] accepts; the schema it proposes has at least a title and a
    description, and the preview it returns is at most 1000 characters of
    the sample followed by an ellipsis. *)
Theorem analysis_proposes_basic_schema apiKey param w s sampleContent w' :
  GET app validUrl apiKey param w = (Analyzed s sampleContent, w') ->
  keyConfigured apiKey = true /\
  validUrl (withProtocol (orDefault param EmptyString)) = true /\
  hasProp "title" (properties s) = true /\
  hasProp "description" (properties s) = true /\
  String.length sampleContent <= 1003 /\
  exists text, sampleContent = (text ++ "...")%string.
Proof.
  unfold GET.
  destruct (missing param); [discriminate|].
  destruct (validUrl _); cbn [negb]; [|discriminate].
  destruct (keyConfigured apiKey); cbn [negb]; [|discriminate].
  destruct (scrapeUrl app _ analysisOptions w) as [[r|message] w1]; [|discriminate].
  destruct (rsuccess r); [|destruct (mentionsBadGateway _); discriminate].
  intros H; inversion H; subst.
  split; [reflexivity|]. split; [reflexivity|].
  rewrite !infer_has. cbv beta zeta. cbn [String.eqb Ascii.eqb Bool.eqb orb].
  split; [|split].
  - repeat match goal with |- context [if ?c then _ else _] => destruct c end;
      rewrite ?orb_true_r; reflexivity.
  - repeat match goal with |- context [if ?c then _ else _] => destruct c end;
      rewrite ?orb_true_r; reflexivity.
  - unfold preview. destruct (rmarkdown r) as [m|].
    + split; [|now exists (Js.take 1000 m)].
      rewrite string_length_append. pose proof (take_length 1000 m).
      cbn [String.length]. lia.
    + split; [cbn; lia|now exists "undefined"].
Qed.

End AnalyzeFacts.

Section AnalyzeExamples.
Import Crawl Analyze Samples Fixtures.

Lemma bare_url_is_analysed_as_https_witness :
  GET blogApp anyUrl liveKey (Some "shop.example/blog") 0
  = GET blogApp anyUrl liveKey (Some "https://shop.example/blog") 0.
Proof.
  apply (bare_url_is_analysed_as_https blogApp anyUrl liveKey "shop.example/blog" 0);
    reflexivity.
Defined.

Lemma refusals_of_analysis_witness :
  fallback (fst (GET gatewayApp anyUrl liveKey (Some "shop.example") 0))
  = Some getDefaultSchema.
Proof.
  destruct (refusals_of_analysis gatewayApp anyUrl liveKey (Some "shop.example") 0
              503 "The website is temporarily unavailable. Please try again later or try a different URL."
              (Some getDefaultSchema) 1 eq_refl) as [(H & _)|(H & _)].
  - discriminate H.
  - reflexivity.
Defined.

(** A rejection and a resolved failure that report the same gateway error
    are answered with different statuses. *)
Example gateway_error_statuses :
  status (fst (GET gatewayApp anyUrl liveKey (Some "shop.example") 0)) = 503 /\
  status (fst (GET downApp anyUrl liveKey (Some "shop.example") 0)) = 500 /\
  GET (mkApp nat (fun _ _ calls => (Rejected "Request failed with status code 502", S calls))
                 (fun _ _ calls => (Rejected "not used", S calls)))
      anyUrl liveKey (Some "shop.example") 0
  = (Refused 500 "The website is temporarily unavailable. Please try again later."
             (Some getDefaultSchema), 1).
Proof. repeat split. Qed.

Lemma analysis_proposes_basic_schema_witness :
  exists s,
    GET blogApp anyUrl liveKey (Some "shop.example/blog") 0 = (Analyzed s "# Our blog...", 1) /\
    hasProp "title" (properties s) = true.
Proof.
  exists (inferSchemaFromContent (Some "# Our blog") None).
  assert (E : GET blogApp anyUrl liveKey (Some "shop.example/blog") 0
              = (Analyzed (inferSchemaFromContent (Some "# Our blog") None) "# Our blog...", 1))
    by reflexivity.
  split; [exact E|].
  destruct (analysis_proposes_basic_schema blogApp anyUrl liveKey (Some "shop.example/blog") 0
              _ _ _ E) as (_ & _ & Htitle & _).
  exact Htitle.
Defined.

End AnalyzeExamples.

(* ================================================================== *)
(** * Properties: selection in the tree view *)
(* ================================================================== *)

Section StringSetFacts.
Import StringSet.

Lemma includes_In x xs : includes x xs = true <-> In x xs.
Proof.
  unfold includes. rewrite existsb_exists. split.
  - intros (y & Hin & E). apply String.eqb_eq in E. now subst.
  - intros Hin. exists x. split; [exact Hin|apply String.eqb_refl].
Qed.

Lemma includes_false x xs : includes x xs = false <-> ~ In x xs.
Proof.
  rewrite <- includes_In. destruct (includes x xs); split; intros H; congruence.
Qed.

Lemma In_add x y s : In x (add y s) <-> In x s \/ x = y.
Proof.
  unfold add. destruct (includes y s) eqn:E.
  - apply includes_In in E. split; [auto|intros [H| ->]; auto].
  - rewrite in_app_iff. simpl. intuition.
Qed.

Lemma NoDup_add y s : NoDup s -> NoDup (add y s).
Proof.
  unfold add. intros H. destruct (includes y s) eqn:E; [exact H|].
  apply includes_false in E. apply NoDup_app; [exact H|repeat constructor; auto|].
  intros x Hx [<-|[]]. contradiction.
Qed.

Lemma In_addAll x xs : forall s, In x (addAll xs s) <-> In x s \/ In x xs.
Proof.
  unfold addAll. induction xs as [|y xs IH]; intros s; simpl; [tauto|].
  rewrite IH, In_add. intuition.
Qed.

Lemma NoDup_addAll xs : forall s, NoDup s -> NoDup (addAll xs s).
Proof.
  unfold addAll. induction xs as [|y xs IH]; intros s H; simpl; [exact H|].
  apply IH, NoDup_add, H.
Qed.

(** Elements are only ever added at the end. *)
Lemma addAll_extends xs : forall s, exists extra, addAll xs s = s ++ extra.
Proof.
  unfold addAll. induction xs as [|y xs IH]; intros s; simpl.
  - exists []. now rewrite app_nil_r.
  - destruct (IH (add y s)) as [extra E]. rewrite E. unfold add.
    destruct (includes y s); [now exists extra|].
    exists (y :: extra). now rewrite <- app_assoc.
Qed.

Lemma addAll_fresh xs : forall s, NoDup (s ++ xs) -> addAll xs s = s ++ xs.
Proof.
  unfold addAll. induction xs as [|y xs IH]; intros s H; simpl; [now rewrite app_nil_r|].
  assert (Hy : includes y s = false).
  { apply includes_false. intros Hin. apply NoDup_remove_2 in H.
    apply H, in_or_app. now left. }
  unfold add. rewrite Hy.
  replace (s ++ y :: xs) with ((s ++ [y]) ++ xs) in * by (now rewrite <- app_assoc).
  now apply IH.
Qed.

Lemma addAll_app xs ys s : addAll (xs ++ ys) s = addAll ys (addAll xs s).
Proof. unfold addAll. apply fold_left_app. Qed.

Lemma unique_NoDup xs : NoDup (unique xs).
Proof. apply NoDup_addAll. constructor. Qed.

Lemma In_unique x xs : In x (unique xs) <-> In x xs.
Proof. unfold unique. rewrite In_addAll. simpl. tauto. Qed.

Lemma unique_id xs : NoDup xs -> unique xs = xs.
Proof. intros H. unfold unique. now rewrite addAll_fresh. Qed.

Lemma In_delete x y s : In x (delete y s) <-> In x s /\ x <> y.
Proof.
  unfold delete. rewrite filter_In, negb_true_iff, String.eqb_neq.
  split; intros [H1 H2]; split; auto.
Qed.

Lemma filter_length_all {A : Type} (f : A -> bool) l :
  List.length (filter f l) = List.length l <-> forall x, In x l -> f x = true.
Proof.
  induction l as [|a l IH]; simpl; [tauto|].
  pose proof (filter_length_le f l) as Hle.
  destruct (f a) eqn:E; simpl.
  - split.
    + intros H x [<-|Hin]; [exact E|]. apply IH; [lia|exact Hin].
    + intros H. f_equal. apply IH. auto.
  - split; [lia|]. intros H. rewrite (H a) in E by now left. discriminate.
Qed.

Lemma filter_length_none {A : Type} (f : A -> bool) l :
  List.length (filter f l) = 0 <-> forall x, In x l -> f x = false.
Proof.
  induction l as [|a l IH]; simpl; [tauto|].
  destruct (f a) eqn:E; simpl.
  - split; [discriminate|]. intros H. rewrite (H a) in E by now left. discriminate.
  - rewrite IH. split; [intros H x [<-|Hin]; auto|auto].
Qed.

End StringSetFacts.

Section SelectionFacts.
Import UrlTree StringSet Selection.

Lemma getNodeUrls_subtreeUrls : forall node, getNodeUrls node = subtreeUrls node.
Proof.
  intros node. reflexivity.
Qed.

(** The three states, read as statements about the URLs of the node. *)
Lemma isNodeSelected_full selected node :
  isNodeSelected selected node = Full <->
  getNodeUrls node <> [] /\ forall url, In url (getNodeUrls node) -> In url selected.
Proof.
  unfold isNodeSelected, selectedCount.
  destruct (Nat.eqb_spec (List.length (filter (fun url => includes url selected)
                                              (getNodeUrls node))) 0) as [Z|NZ].
  - split; [discriminate|]. intros [Hne Hall].
    destruct (getNodeUrls node) as [|u us]; [congruence|].
    rewrite filter_length_none in Z.
    specialize (Z u (or_introl eq_refl)). apply includes_false in Z.
    exfalso. apply Z, Hall. now left.
  - destruct (Nat.eqb_spec (List.length (filter (fun url => includes url selected)
                                                (getNodeUrls node)))
                           (List.length (getNodeUrls node))) as [E|NE].
    + split; [|reflexivity]. intros _. split.
      * intros Hnil. rewrite Hnil in NZ. now apply NZ.
      * rewrite filter_length_all in E. intros url Hin. now apply includes_In, E.
    + split; [discriminate|]. intros [_ Hall]. exfalso. apply NE.
      apply filter_length_all. intros url Hin. now apply includes_In, Hall.
Qed.

Lemma isNodeSelected_none selected node :
  isNodeSelected selected node = Unselected <->
  forall url, In url (getNodeUrls node) -> ~ In url selected.
Proof.
  unfold isNodeSelected, selectedCount.
  destruct (Nat.eqb_spec (List.length (filter (fun url => includes url selected)
                                              (getNodeUrls node))) 0) as [Z|NZ].
  - split; [|reflexivity]. intros _ url Hin.
    rewrite filter_length_none in Z. now apply includes_false, Z.
  - split.
    + destruct (_ =? _); discriminate.
    + intros Hnone. exfalso. apply NZ. apply filter_length_none.
      intros url Hin. now apply includes_false, Hnone.
Qed.

(** X12. Clicking the check box of a node that is not fully selected selects
    all of its URLs: the new selection holds the old one and the URLs of
    the node, each once, the node is then fully selected if it has any
    URL, and a selection without repetition is only extended at its
    end. *)
Theorem toggle_selects_whole_node selected node :
  isNodeSelected selected node <> Full ->
  let selection := toggleNodeSelection selected node in
  (forall url, In url selection <-> In url selected \/ In url (getNodeUrls node)) /\
  NoDup selection /\
  (getNodeUrls node <> [] -> isNodeSelected selection node = Full) /\
  (NoDup selected -> exists added, selection = selected ++ added).
Proof.
  intros Hnot selection.
  assert (E : selection = unique (selected ++ getNodeUrls node)).
  { unfold selection, toggleNodeSelection.
    destruct (isNodeSelected selected node); congruence. }
  assert (Hin : forall url,
             In url selection <-> In url selected \/ In url (getNodeUrls node)).
  { intros url. rewrite E, In_unique, in_app_iff. tauto. }
  split; [exact Hin|]. split; [rewrite E; apply unique_NoDup|]. split.
  - intros Hne. apply isNodeSelected_full. split; [exact Hne|].
    intros url Hu. apply Hin. now right.
  - intros Hnd. rewrite E. unfold unique. rewrite addAll_app.
    fold (unique selected). rewrite (unique_id _ Hnd). apply addAll_extends.
Qed.

(** X13. Clicking the check box of a fully selected node takes exactly its
    URLs out of the selection, leaving the others in their order; the node
    is then unselected, and a node that shares no URL with it keeps its
    state. *)
Theorem toggle_clears_whole_node selected node :
  isNodeSelected selected node = Full ->
  let selection := toggleNodeSelection selected node in
  selection = filter (fun url => negb (includes url (getNodeUrls node))) selected /\
  (forall url, In url selection <-> In url selected /\ ~ In url (getNodeUrls node)) /\
  isNodeSelected selection node = Unselected /\
  (forall other,
     (forall url, In url (getNodeUrls other) -> ~ In url (getNodeUrls node)) ->
     isNodeSelected selection other = isNodeSelected selected other).
Proof.
  intros Hfull selection.
  assert (E : selection
              = filter (fun url => negb (includes url (getNodeUrls node))) selected).
  { unfold selection, toggleNodeSelection. now rewrite Hfull. }
  assert (Hin : forall url,
             In url selection <-> In url selected /\ ~ In url (getNodeUrls node)).
  { intros url. rewrite E, filter_In, negb_true_iff, includes_false. tauto. }
  split; [exact E|]. split; [exact Hin|]. split.
  - apply isNodeSelected_none. intros url Hu Hsel. apply Hin in Hsel. tauto.
  - intros other Hdisjoint. unfold isNodeSelected, selectedCount.
    assert (Hsame : filter (fun url => includes url selection) (getNodeUrls other)
                    = filter (fun url => includes url selected) (getNodeUrls other)).
    { apply filter_ext_in. intros url Hu. apply eq_true_iff_eq.
      rewrite !includes_In, Hin. specialize (Hdisjoint url Hu). tauto. }
    now rewrite Hsame.
Qed.

(** X14. Selecting a node none of whose URLs was selected, then clicking it
    again, gives back the selection one started from. *)
Theorem select_then_clear_restores selected node :
  NoDup selected ->
  getNodeUrls node <> [] ->
  (forall url, In url (getNodeUrls node) -> ~ In url selected) ->
  toggleNodeSelection (toggleNodeSelection selected node) node = selected.
Proof.
  intros Hnd Hne Hnone.
  assert (Hun : isNodeSelected selected node = Unselected)
    by now apply isNodeSelected_none.
  assert (E : toggleNodeSelection selected node = unique (selected ++ getNodeUrls node)).
  { unfold toggleNodeSelection. now rewrite Hun. }
  assert (Hfull : isNodeSelected (toggleNodeSelection selected node) node = Full).
  { apply isNodeSelected_full. split; [exact Hne|].
    intros url Hu. rewrite E, In_unique, in_app_iff. now right. }
  unfold toggleNodeSelection at 1. rewrite Hfull, E.
  unfold unique. rewrite addAll_app. fold (unique selected). rewrite (unique_id _ Hnd).
  destruct (addAll_extends (getNodeUrls node) selected) as [extra Hx].
  assert (Hextra : forall url, In url extra -> In url (getNodeUrls node)).
  { intros url Hu.
    assert (Hin : In url (addAll (getNodeUrls node) selected))
      by (rewrite Hx; apply in_or_app; now right).
    apply In_addAll in Hin as [Hin|Hin]; [|exact Hin].
    exfalso. pose proof (NoDup_addAll (getNodeUrls node) selected Hnd) as Hnd'.
    rewrite Hx in Hnd'. revert Hin Hu. clear -Hnd'.
    induction selected as [|a l IH]; simpl; [tauto|].
    inversion Hnd'; subst. intros [<-|Hin] Hu.
    - apply H1, in_or_app. now right.
    - now apply IH. }
  rewrite Hx, filter_app.
  assert (H1 : filter (fun url => negb (includes url (getNodeUrls node))) selected = selected).
  { apply forallb_filter_id. apply forallb_forall. intros url Hu.
    apply negb_true_iff, includes_false. intros Hin. exact (Hnone url Hin Hu). }
  assert (H2 : filter (fun url => negb (includes url (getNodeUrls node))) extra = []).
  { apply length_zero_iff_nil, filter_length_none. intros url Hu.
    apply negb_false_iff, includes_In, Hextra, Hu. }
  now rewrite H1, H2, app_nil_r.
Qed.

(** X15. Selection states go down the tree: below a fully selected node every
    node that has a URL is fully selected, and below an unselected node
    every node is unselected. *)
Theorem selection_state_is_inherited selected node below :
  In below (nodesOf node) ->
  (isNodeSelected selected node = Full ->
   getNodeUrls below <> [] -> isNodeSelected selected below = Full) /\
  (isNodeSelected selected node = Unselected ->
   isNodeSelected selected below = Unselected).
Proof.
  intros Hin.
  destruct (nodesOf_urls_block _ _ Hin) as (before & after & E).
  rewrite <- !getNodeUrls_subtreeUrls in E.
  assert (Hsub : forall url, In url (getNodeUrls below) -> In url (getNodeUrls node)).
  { intros url Hu. rewrite E. apply in_or_app. right. apply in_or_app. now left. }
  split.
  - intros Hfull Hne. apply isNodeSelected_full in Hfull as [_ Hall].
    apply isNodeSelected_full. split; [exact Hne|]. auto.
  - intros Hnone. rewrite isNodeSelected_none in *. auto.
Qed.

(** X16. Folding or unfolding a node changes the state of that node alone, and
    doing it twice changes nothing. *)
Theorem toggleNode_flips_one_path path expanded :
  (forall other,
     includes other (toggleNode path expanded)
     = if String.eqb other path then negb (includes path expanded)
       else includes other expanded) /\
  (forall other,
     includes other (toggleNode path (toggleNode path expanded))
     = includes other expanded).
Proof.
  assert (Hflip : forall s other,
             includes other (toggleNode path s)
             = if String.eqb other path then negb (includes path s) else includes other s).
  { intros s other. unfold toggleNode. apply eq_true_iff_eq.
    destruct (includes path s) eqn:Hp; destruct (String.eqb_spec other path) as [-> |Hneq];
      cbn [negb]; rewrite ?includes_In, ?In_delete, ?In_add.
    - split; [intros [_ H]; congruence|discriminate].
    - tauto.
    - tauto.
    - split; [intros [H|H]; [exact H|congruence]|auto]. }
  split; [apply Hflip|].
  intros other. rewrite !Hflip.
  destruct (String.eqb_spec other path) as [-> |_]; [|reflexivity].
  rewrite String.eqb_refl. apply negb_involutive.
Qed.

End SelectionFacts.

Section SelectionExamples.
Import UrlTree StringSet Selection Fixtures.

Lemma toggle_selects_whole_node_witness :
  isNodeSelected (toggleNodeSelection ["https://shop.example/b"] shopA) shopA = Full.
Proof.
  destruct (toggle_selects_whole_node ["https://shop.example/b"] shopA) as (_ & _ & H & _).
  - vm_compute. discriminate.
  - apply H. vm_compute. discriminate.
Defined.

(** The selection after the click of the previous example. *)
Example toggle_selects_in_order :
  toggleNodeSelection ["https://shop.example/b"] shopA
  = ["https://shop.example/b"; "https://shop.example/a/x"; "https://shop.example/a/y"].
Proof. vm_compute. reflexivity. Qed.

Lemma toggle_clears_whole_node_witness :
  toggleNodeSelection
    ["https://shop.example/a/y"; "https://shop.example/b"; "https://shop.example/a/x"] shopA
  = ["https://shop.example/b"].
Proof.
  destruct (toggle_clears_whole_node
              ["https://shop.example/a/y"; "https://shop.example/b"; "https://shop.example/a/x"]
              shopA) as (H & _).
  - vm_compute. reflexivity.
  - rewrite H. vm_compute. reflexivity.
Defined.

Lemma select_then_clear_restores_witness :
  toggleNodeSelection (toggleNodeSelection ["https://shop.example/b"] shopA) shopA
  = ["https://shop.example/b"].
Proof.
  apply (select_then_clear_restores ["https://shop.example/b"] shopA).
  - repeat constructor. intros [].
  - vm_compute. discriminate.
  - vm_compute. intros url [<-|[<-|[]]] [H|[]]; discriminate H.
Defined.

Lemma selection_state_is_inherited_witness :
  isNodeSelected
    ["https://shop.example/a/x"; "https://shop.example/a/y"; "https://shop.example/b"] shopA
  = Full.
Proof.
  destruct (selection_state_is_inherited
              ["https://shop.example/a/x"; "https://shop.example/a/y"; "https://shop.example/b"]
              shopRoot shopA) as [H _].
  - vm_compute. right. left. reflexivity.
  - apply H; [vm_compute; reflexivity|vm_compute; discriminate].
Defined.

(** A node left without URLs can never be selected: its box stays
    unchecked whatever is clicked. *)
Example empty_node_is_never_selected :
  forall selected, isNodeSelected selected (emptyNode "https://shop.example/m") = Unselected.
Proof. reflexivity. Qed.

End SelectionExamples.

(* ================================================================== *)
(** * Properties: mapping below a node *)
(* ================================================================== *)

Section MappingFacts.
Import UrlTree StringSet Mapping.

Variable parse : Parser.

Lemma startsWith_append pre : forall s t,
  Js.startsWith pre s = true -> Js.startsWith pre (s ++ t)%string = true.
Proof.
  induction pre as [|a pre IH]; intros [|b s] t; simpl; try reflexivity; try discriminate.
  intros H. apply andb_true_iff in H as [Hab Hrest].
  rewrite Hab. simpl. now apply IH.
Qed.

(** X17. What a mapping adds is never empty and stays in scope: it is the
    mapped path itself when nothing else qualifies, in particular when the
    path is no URL, and otherwise exactly the reported URLs that parse and
    whose path name begins with that of the mapped path, in the order
    reported. *)
Theorem mapping_adds_urls_in_scope path found :
  urlsToAdd parse path found <> [] /\
  (parse path = None -> urlsToAdd parse path found = [path]) /\
  (filter (underPath parse path) found <> [] ->
   urlsToAdd parse path found = filter (underPath parse path) found) /\
  (forall url,
     In url (urlsToAdd parse path found) ->
     url = path \/
     (In url found /\
      exists urlObj mapped,
        parse url = Some urlObj /\ parse path = Some mapped /\
        Js.startsWith (pathname mapped) (pathname urlObj) = true)).
Proof.
  unfold urlsToAdd.
  assert (Hscope : forall url,
             underPath parse path url = true ->
             exists urlObj mapped,
               parse url = Some urlObj /\ parse path = Some mapped /\
               Js.startsWith (pathname mapped) (pathname urlObj) = true).
  { intros url. unfold underPath.
    destruct (parse url) as [u|]; [|discriminate].
    destruct (parse path) as [m|]; [|discriminate]. eauto. }
  split; [destruct (filter _ found); discriminate|]. split; [|split].
  - intros Hnone.
    assert (E : filter (underPath parse path) found = []).
    { apply length_zero_iff_nil, filter_length_none. intros url _.
      unfold underPath. rewrite Hnone. now destruct (parse url). }
    now rewrite E.
  - destruct (filter _ found); [congruence|reflexivity].
  - intros url. destruct (filter (underPath parse path) found) as [|u us] eqn:E.
    + intros [<-|[]]. now left.
    + intros Hin. right. rewrite <- E in Hin. apply filter_In in Hin as [Hin Hu].
      split; [exact Hin|now apply Hscope].
Qed.

(** X18. After a mapping that succeeded, the results hold what they held, in
    the same order, followed by the added URLs that are new, each once;
    every added URL is selected; the mapped node is expanded. Whatever the
    reply, the node is no longer marked as being mapped. *)
Theorem mapping_merges_results path found st :
  NoDup (mapResults st) ->
  let after := fst (handleMapNode parse path (Mapped found) st) in
  (exists fresh, mapResults after = mapResults st ++ fresh) /\
  NoDup (mapResults after) /\
  (forall url,
     In url (mapResults after) <->
     In url (mapResults st) \/ In url (urlsToAdd parse path found)) /\
  (forall url, In url (urlsToAdd parse path found) -> In url (selectedUrls after)) /\
  In path (expandedNodes after) /\
  snd (handleMapNode parse path (Mapped found) st) = None /\
  (forall reply, ~ In path (mappingNodes (fst (handleMapNode parse path reply st)))).
Proof.
  intros Hnd after. unfold after, handleMapNode. cbn [fst snd mapResults selectedUrls
                                                     expandedNodes mappingNodes].
  split; [|split; [|split; [|split; [|split; [|split]]]]].
  - unfold unique. rewrite addAll_app. fold (unique (mapResults st)).
    rewrite (unique_id _ Hnd). apply addAll_extends.
  - apply unique_NoDup.
  - intros url. rewrite In_unique, in_app_iff. tauto.
  - intros url Hin. rewrite In_unique, in_app_iff. now right.
  - apply In_addAll. left. apply In_add. now right.
  - reflexivity.
  - intros reply Hin.
    assert (H : In path (delete path (add path (mappingNodes st)))).
    { destruct reply; exact Hin. }
    apply In_delete in H. now destruct H.
Qed.

Lemma expand_fold prefix : forall parts current acc,
  Js.startsWith prefix current = true ->
  Js.nonEmpty current = true ->
  (forall p, In p acc -> Js.startsWith prefix p = true) ->
  forall p, In p (snd (fold_left expandStep parts (current, acc))) ->
            Js.startsWith prefix p = true.
Proof.
  induction parts as [|part parts IH]; intros current acc Hc Hne Hacc p; [apply Hacc|].
  cbn [fold_left]. unfold expandStep at 2. cbn [fst snd]. rewrite Hne.
  apply IH.
  - now apply startsWith_append.
  - now destruct current.
  - intros q Hq. apply in_app_or in Hq as [Hq|[<-|[]]]; [now apply Hacc|].
    now apply startsWith_append.
Qed.

(** X19. For a node path that begins with [https://] or [http://], the paths
    that [expandParents] asks to expand all begin with [https://https:]
    or [https://http:]: the scheme is taken for the first segment of the
    path. *)
Theorem expandParents_takes_scheme_for_segment rest p :
  (In p (expandParents ("https://" ++ rest)) -> Js.startsWith "https://https:" p = true) /\
  (In p (expandParents ("http://" ++ rest)) -> Js.startsWith "https://http:" p = true).
Proof.
  unfold expandParents. split.
  - change (Js.split "/" ("https://" ++ rest))
      with ("https:" :: EmptyString :: Js.split "/" rest).
    cbn [filter Js.nonEmpty fold_left]. unfold expandStep at 2. cbn [fst snd Js.nonEmpty].
    apply expand_fold; try reflexivity.
    intros q [<-|[]]. reflexivity.
  - change (Js.split "/" ("http://" ++ rest))
      with ("http:" :: EmptyString :: Js.split "/" rest).
    cbn [filter Js.nonEmpty fold_left]. unfold expandStep at 2. cbn [fst snd Js.nonEmpty].
    apply expand_fold; try reflexivity.
    intros q [<-|[]]. reflexivity.
Qed.

End MappingFacts.

Section MappingExamples.
Import UrlTree StringSet Mapping Fixtures.

Lemma mapping_merges_results_witness :
  mapResults
    (fst (handleMapNode plainUrl "https://shop.example/a"
            (Mapped ["https://shop.example/a/z"; "https://shop.example/b";
                     "https://shop.example/a/x"; "mailto:someone"])
            (mkExplorer ["https://shop.example/a/x"; "https://shop.example/b"] [] [] [])))
  = ["https://shop.example/a/x"; "https://shop.example/b"; "https://shop.example/a/z"].
Proof.
  destruct (mapping_merges_results plainUrl "https://shop.example/a"
            ["https://shop.example/a/z"; "https://shop.example/b";
             "https://shop.example/a/x"; "mailto:someone"]
            (mkExplorer ["https://shop.example/a/x"; "https://shop.example/b"] [] [] []))
    as ((fresh & E) & _).
  - repeat constructor; simpl; [intros [H|[]]; discriminate H|intros []].
  - rewrite E. vm_compute in E. inversion E. reflexivity.
Defined.

Lemma mapping_adds_urls_in_scope_witness :
  urlsToAdd plainUrl "not a url" ["https://shop.example/a"] = ["not a url"].
Proof.
  destruct (mapping_adds_urls_in_scope plainUrl "not a url" ["https://shop.example/a"])
    as (_ & H & _).
  apply H. reflexivity.
Defined.

(** Only path names are compared: a URL of another site passes when its
    path begins alike. *)
Example scope_ignores_the_host :
  urlsToAdd plainUrl "https://shop.example/a"
            ["https://other.example/a/offer"; "https://shop.example/b"]
  = ["https://other.example/a/offer"].
Proof. vm_compute. reflexivity. Qed.

(** What is asked to be expanded after mapping [/a]. *)
Example expandParents_of_a_node :
  expandParents "https://shop.example/a"
  = ["https://https:"; "https://https:/shop.example"; "https://https:/shop.example/a"].
Proof. vm_compute. reflexivity. Qed.

Lemma expandParents_takes_scheme_for_segment_witness :
  Js.startsWith "https://https:" "https://https:/shop.example" = true.
Proof.
  destruct (expandParents_takes_scheme_for_segment "shop.example/a"
              "https://https:/shop.example") as [H _].
  apply H. vm_compute. right. left. reflexivity.
Defined.

End MappingExamples.

(* ================================================================== *)
(** * Properties: the schema editor and the crawl request *)
(* ================================================================== *)

Section SchemaEditorFacts.
Import Crawl SchemaEditor Vocabulary.

Lemma lastIsNamed_app front last :
  lastIsNamed (front ++ [last]) = Js.nonEmpty (name last).
Proof.
  induction front as [|f front IH]; [reflexivity|].
  change ((f :: front) ++ [last]) with (f :: (front ++ [last])). cbn [lastIsNamed].
  destruct (front ++ [last]) eqn:E; [now destruct front|exact IH].
Qed.

Lemma lastIsNamed_split (fields : list SchemaField) :
  fields <> [] -> exists front last, fields = front ++ [last].
Proof.
  intros H. destruct (exists_last H) as (front & last & E). eauto.
Qed.

(** X20. After a field is removed the editor still ends with an unnamed row:
    the list is not empty and its last field has no name. Only such a row
    is ever added; the named fields are those left by the removal, in
    their order, and an index beyond the end removes nothing. *)
Theorem removeSchemaField_keeps_an_empty_row index fields :
  (exists front last,
     removeSchemaField index fields = front ++ [last] /\ name last = EmptyString) /\
  filter named (removeSchemaField index fields) = filter named (dropIndex index fields) /\
  (List.length fields <= index -> dropIndex index fields = fields) /\
  (index < List.length fields ->
   List.length (dropIndex index fields) = List.length fields - 1).
Proof.
  split; [|split; [|split]].
  - unfold removeSchemaField.
    destruct (dropIndex index fields) as [|f rest] eqn:E.
    + exists (@nil SchemaField), emptyField. split; reflexivity.
    + destruct (lastIsNamed (f :: rest)) eqn:L.
      * exists (f :: rest), emptyField. split; reflexivity.
      * destruct (lastIsNamed_split (f :: rest)) as (front & last & Hs); [discriminate|].
        exists front, last. split; [exact Hs|].
        rewrite Hs, lastIsNamed_app in L. now destruct (name last).
  - unfold removeSchemaField.
    destruct (dropIndex index fields) as [|f rest]; [reflexivity|].
    destruct (lastIsNamed (f :: rest)); [|reflexivity].
    rewrite filter_app. cbn. now rewrite app_nil_r.
  - revert index. induction fields as [|f fields IH]; intros [|i] H; simpl in *;
      try reflexivity; try lia.
    f_equal. apply IH. lia.
  - revert index. induction fields as [|f fields IH]; intros [|i] H; simpl in *; try lia.
    rewrite IH by lia. lia.
Qed.

Lemma underscoreRuns_no_space : forall s inRun,
  Js.anyChar Js.isSpace (underscoreRuns inRun s) = false.
Proof.
  induction s as [|c s IH]; intros inRun; simpl; [reflexivity|].
  destruct (Js.isSpace c) eqn:E.
  - destruct inRun; [apply IH|]. simpl. apply IH.
  - simpl. rewrite E. apply IH.
Qed.

Lemma safeName_nonEmpty n : Js.nonEmpty n = true -> Js.nonEmpty (safeName n) = true.
Proof.
  destruct n as [|c n]; [discriminate|]. intros _. unfold safeName. simpl.
  destruct (Js.isSpace c); reflexivity.
Qed.

Lemma keys_assign k k' v ps :
  In k (map fst (assign k' v ps)) <->
  (k' <> "__proto__" /\ k = k') \/ In k (map fst ps).
Proof.
  unfold assign. destruct (String.eqb_spec k' "__proto__") as [E|N].
  - split; [auto|intros [[H _]|H]; [contradiction|exact H]].
  - rewrite In_keys_set. tauto.
Qed.

Lemma keys_defineFields fields : forall ps k,
  In k (map fst (fold_left defineField fields ps)) <->
  In k (map fst ps) \/
  (k <> "__proto__" /\
   exists f, In f fields /\ Js.nonEmpty (name f) = true /\ k = safeName (name f)).
Proof.
  induction fields as [|f fields IH]; intros ps k; cbn [fold_left].
  - split; [auto|intros [H|(_ & f & [] & _)]; exact H].
  - rewrite IH. unfold defineField.
    destruct (Js.nonEmpty (name f)) eqn:E.
    + rewrite keys_assign. split.
      * intros [[[Hp ->]|H]|(Hp & g & Hg & Hn & ->)]; auto.
        -- right. split; [exact Hp|]. exists f. simpl. auto.
        -- right. split; [exact Hp|]. exists g. simpl. auto.
      * intros [H|(Hp & g & [<-|Hg] & Hn & ->)]; auto.
        right. split; [exact Hp|]. eauto.
    + split.
      * intros [H|(Hp & g & Hg & Hn & ->)]; auto.
        right. split; [exact Hp|]. exists g. simpl. auto.
      * intros [H|(Hp & g & [<-|Hg] & Hn & ->)]; auto; [congruence|].
        right. split; [exact Hp|]. eauto.
Qed.

(** X21. The properties of the schema built from the editor are the named
    fields, under their names with every run of white space replaced by an
    underscore; a field named [__proto__] defines nothing. No property
    name is empty or holds white space. *)
Theorem getSchema_properties schemaFields k :
  stype (getSchema schemaFields) = "object" /\
  (In k (map fst (properties (getSchema schemaFields))) <->
   k <> "__proto__" /\
   exists f, In f schemaFields /\ Js.nonEmpty (name f) = true /\ k = safeName (name f)) /\
  (In k (map fst (properties (getSchema schemaFields))) ->
   Js.nonEmpty k = true /\ Js.anyChar Js.isSpace k = false).
Proof.
  assert (H : In k (map fst (properties (getSchema schemaFields))) <->
              k <> "__proto__" /\
              exists f, In f schemaFields /\ Js.nonEmpty (name f) = true
                        /\ k = safeName (name f)).
  { unfold getSchema. cbn [properties]. rewrite keys_defineFields. simpl. tauto. }
  split; [reflexivity|]. split; [exact H|].
  intros Hin. apply H in Hin as (_ & f & _ & Hn & ->).
  split; [now apply safeName_nonEmpty|apply underscoreRuns_no_space].
Qed.

End SchemaEditorFacts.

Section CrawlRequestFacts.
Import Crawl SchemaEditor.

Context {W : Type} (app : FirecrawlApp W) (host : Host).

(** X22. A request that [startCrawl] sends is never refused as malformed: it
    has a URL and at least one selected URL, and it carries a schema or
    asks for one to be inferred. The route answers it with a success or
    with status 500. [startCrawl] itself stops with an alert exactly when
    the source URL is empty or no URL is selected. *)
Theorem page_requests_are_well_formed sourceUrl selected schemaFields saveRawResults :
  (forall body apiKey w,
     startCrawl sourceUrl selected schemaFields saveRawResults = Send body ->
     status (fst (POST app host apiKey body w)) = 200 \/
     status (fst (POST app host apiKey body w)) = 500) /\
  ((exists message,
      startCrawl sourceUrl selected schemaFields saveRawResults = Alert message) <->
   sourceUrl = EmptyString \/ selected = []).
Proof.
  split.
  - intros body apiKey w. unfold startCrawl.
    destruct sourceUrl as [|c rest]; [discriminate|]. cbn [Js.nonEmpty negb].
    destruct selected as [|u us]; [discriminate|].
    intros H. inversion H; subst; clear H. unfold POST, missing. cbn [url Js.nonEmpty negb].
    destruct (keyConfigured apiKey); cbn [negb]; [|now right].
    unfold resolveSchema. cbn [schema autoInfer selectedUrls orDefault].
    destruct (filter _ schemaFields) as [|f fs].
    + destruct (scrapeUrl app _ sampleOptions w) as [[r|m] w1]; [|now right].
      destruct (rsuccess r);
        match goal with
        | |- context [scrapePages ?a ?o ?l ?x] =>
            destruct (scrapePages a o l x) as [[c0 p0] w2]
        end;
        match goal with
        | |- context [extractAll ?h ?s ?d] => destruct (extractAll h s d)
        end; auto.
    + match goal with
      | |- context [scrapePages ?a ?o ?l ?x] =>
          destruct (scrapePages a o l x) as [[c0 p0] w2]
      end;
      match goal with
      | |- context [extractAll ?h ?s ?d] => destruct (extractAll h s d)
      end; auto.
  - unfold startCrawl. destruct sourceUrl as [|c rest]; cbn [Js.nonEmpty negb].
    + split; [auto|eauto].
    + destruct selected as [|u us].
      * split; [auto|eauto].
      * split; [intros [m H]; discriminate H|intros [H|H]; discriminate H].
Qed.

End CrawlRequestFacts.

Section ExportTargetFacts.
Import SchemaEditor Formatter.

(** X23. Whichever platform is chosen, the extension of the export matches the
    syntax of its content, in a single file as in the parts of an archive:
    [json] for JSON text, [csv] for one of the two CSV writers, [xml] for
    the WordPress document. *)
Theorem platform_extension_matches_content platform previous clock data :
  let format := selectPlatform (Some platform) previous in
  lookupExt format fileExtensions = lookupExt format batchExtensions /\
  ((lookupExt format fileExtensions = "json" /\
    (formatExportData clock data format = Js.Ok (stringify EmptyString (recordsValue data)) \/
     formatExportData clock data format
     = Js.Ok (stringify EmptyString (Js.VObj [("items", recordsValue data)])))) \/
   (lookupExt format fileExtensions = "csv" /\
    (formatExportData clock data format = Js.Ok (convertToCSV data) \/
     formatExportData clock data format = Js.Ok (formatShopifyCSV data))) \/
   (lookupExt format fileExtensions = "xml" /\
    formatExportData clock data format = generateWordPressXML clock data)).
Proof.
  destruct platform; cbn [selectPlatform]; (split; [reflexivity|]).
  - right. right. split; reflexivity.
  - right. left. split; [reflexivity|]. right. reflexivity.
  - left. split; [reflexivity|]. right. reflexivity.
  - right. left. split; [reflexivity|]. left. reflexivity.
  - right. right. split; reflexivity.
  - right. left. split; [reflexivity|]. left. reflexivity.
  - right. left. split; [reflexivity|]. left. reflexivity.
  - left. split; [reflexivity|]. left. reflexivity.
Qed.

(** The two extension tables differ on one format, which no platform
    selects. *)
Example bigcommerce_extension_differs :
  lookupExt "bigcommerce" fileExtensions = "csv" /\
  lookupExt "bigcommerce" batchExtensions = "txt".
Proof. split; reflexivity. Qed.

End ExportTargetFacts.

Section SchemaEditorExamples.
Import Crawl SchemaEditor Samples.

Lemma removeSchemaField_keeps_an_empty_row_witness :
  removeSchemaField 2 initialFields
  = [mkField "title" "string" None; mkField "date" "string" None; emptyField] /\
  List.length (dropIndex 2 initialFields) = 2.
Proof.
  split; [reflexivity|].
  destruct (removeSchemaField_keeps_an_empty_row 2 initialFields) as (_ & _ & _ & H).
  apply H. simpl. lia.
Defined.

Lemma getSchema_properties_witness :
  Js.nonEmpty "publish_date" = true /\ Js.anyChar Js.isSpace "publish_date" = false.
Proof.
  destruct (getSchema_properties
              [mkField "title" "string" None; mkField "publish   date" "string" None;
               mkField "__proto__" "string" None; emptyField] "publish_date") as (_ & _ & H).
  apply H. vm_compute. right. left. reflexivity.
Defined.

(** Names are made safe, a later field of the same name replaces the type
    of an earlier one in place, and [__proto__] is not defined. *)
Example getSchema_of_awkward_fields :
  getSchema [mkField "title" "string" None; mkField "publish   date" "string" None;
             mkField "__proto__" "string" None; mkField "title" "number" None; emptyField]
  = mkSchema "object" [("title", mkProperty "number" None);
                       ("publish_date", mkProperty "string" None)].
Proof. vm_compute. reflexivity. Qed.

Lemma page_requests_are_well_formed_witness :
  status (fst (POST downApp quietHost liveKey
                 (mkBody (Some "https://shop.example") None (Some true) (Some true)
                         (Some fiveUrls) None) 0)) = 500.
Proof.
  destruct (page_requests_are_well_formed downApp quietHost "https://shop.example" fiveUrls
              [emptyField] true) as [H _].
  destruct (H (mkBody (Some "https://shop.example") None (Some true) (Some true)
                      (Some fiveUrls) None) liveKey 0 eq_refl) as [E|E].
  - vm_compute in E. discriminate E.
  - exact E.
Defined.

End SchemaEditorExamples.

(* ================================================================== *)
(** * Properties: more about the export formatter *)
(* ================================================================== *)

Section GenericCsvFacts.
Import Formatter Vocabulary.

Lemma doubled_keeps_quotes : forall t n ws,
  scan (Js.doubleQuotes t) (mkScan true n ws) = mkScan true n ws.
Proof.
  induction t as [|c t IH]; intros n ws; [reflexivity|].
  destruct (Ascii.eqb c Js.QUOTE) eqn:Hq.
  - apply Ascii.eqb_eq in Hq. subst c. rewrite doubleQuotes_quote.
    cbn [scan]. rewrite scanStep_close, scanStep_open. apply IH.
  - rewrite (doubleQuotes_other c t Hq). cbn [scan].
    rewrite (scanStep_inside c n ws Hq). apply IH.
Qed.

Lemma csvCell_neutral v : csvScalar v = true -> neutral (csvCell v).
Proof.
  destruct v as [|b|r|s|items|fields]; cbn [csvScalar csvCell]; intros H; try discriminate.
  - intros n ws. reflexivity.
  - destruct b; apply plain_neutral; reflexivity.
  - apply plain_neutral. cbn [Js.toStr]. now apply negb_true_iff.
  - intros n ws. unfold quoted. cbn [scan]. rewrite scanStep_open, scan_app.
    rewrite doubled_keeps_quotes. reflexivity.
Qed.

(** A row of neutral cells, read from its start. *)
Lemma scan_cells cells ws :
  Forall neutral cells ->
  scan (Js.join "," cells) (mkScan false 0 ws) = mkScan false (List.length cells - 1) ws.
Proof.
  intros H. destruct cells as [|c rest]; [reflexivity|].
  rewrite scan_row; [reflexivity|exact H|discriminate].
Qed.

(** Lines that each show a known number of commas, put one below the
    other. *)
Lemma scan_rows : forall ls ks l k ws,
  (forall ws', scan l (mkScan false 0 ws') = mkScan false k ws') ->
  Forall2 (fun l' k' => forall ws', scan l' (mkScan false 0 ws') = mkScan false k' ws') ls ks ->
  let st := scan (Js.join nl (l :: ls)) (mkScan false 0 ws) in
  inQuotes st = false /\ widths st ++ [S (commas st)] = ws ++ map S (k :: ks).
Proof.
  induction ls as [|l' ls IH]; intros ks l k ws Hl Hls.
  - inversion Hls; subst. cbn [Js.join]. rewrite Hl. split; reflexivity.
  - inversion Hls as [|? k' ? ks' Hl' Hrest]; subst.
    change (Js.join nl (l :: l' :: ls)) with (l ++ nl ++ Js.join nl (l' :: ls))%string.
    cbv zeta. rewrite scan_app, Hl.
    change (nl ++ Js.join nl (l' :: ls))%string with (String Js.LF (Js.join nl (l' :: ls))).
    cbn [scan].
    change (scanStep (mkScan false k ws) Js.LF) with (mkScan false 0 (ws ++ [S k])).
    destruct (IH ks' l' k' (ws ++ [S k]) Hl' Hrest) as [Hq Hw].
    split; [exact Hq|]. rewrite Hw, <- app_assoc. reflexivity.
Qed.

(** X24. Read back as CSV, the generic export of records that hold strings,
    Numbers, booleans and [null] under keys free of commas, quotes and line
    feeds has a header row with one field per key of the first record,
    followed by one row per record with one field per value; a row is
    never narrower than one field. *)
Theorem generic_csv_rows_follow_records first rest :
  Forall (fun key => needsQuoting key = false) (Js.keys first) ->
  Forall (fun item => forallb csvScalar (Js.values item) = true) (first :: rest) ->
  csvWidths (convertToCSV (first :: rest))
  = Nat.max 1 (List.length (Js.keys first))
    :: map (fun item => Nat.max 1 (List.length (Js.values item))) (first :: rest).
Proof.
  intros Hkeys Hvals. unfold convertToCSV.
  set (rows := map (fun item => Js.join "," (map csvCell (Js.values item))) (first :: rest)).
  set (header := Js.join "," (Js.keys first)).
  assert (Hheader : forall ws, scan header (mkScan false 0 ws)
                               = mkScan false (List.length (Js.keys first) - 1) ws).
  { intros ws. apply scan_cells. eapply Forall_impl; [|exact Hkeys].
    intros key Hk. now apply plain_neutral. }
  assert (Hrows : Forall2 (fun l k => forall ws, scan l (mkScan false 0 ws) = mkScan false k ws)
                          rows
                          (map (fun item => List.length (Js.values item) - 1) (first :: rest))).
  { unfold rows. clear -Hvals. induction Hvals as [|item items Hitem _ IH]; constructor.
    - intros ws. rewrite scan_cells; [now rewrite length_map|].
      apply Forall_map, Forall_forall. intros v Hv. apply csvCell_neutral.
      rewrite forallb_forall in Hitem. now apply Hitem.
    - exact IH. }
  destruct (scan_rows rows _ header _ [] Hheader Hrows) as [_ Hw].
  assert (Htext : exists c t, Js.join nl (header :: rows) = String c t).
  { unfold rows. cbn [map].
    change (Js.join nl (header :: ?r :: ?rs)) with (header ++ nl ++ Js.join nl (r :: rs))%string.
    destruct header; do 2 eexists; reflexivity. }
  destruct Htext as (c & t & E).
  rewrite E, csvWidths_nonempty, <- E, Hw. cbn [List.app map]. f_equal.
  - lia.
  - rewrite map_map. f_equal; [lia|]. apply map_ext. intros item. lia.
Qed.

End GenericCsvFacts.

Section ExportFacts.
Import Formatter Vocabulary.





(** X26. The Webflow export is the JSON text of an object whose [items] are the
    records: parsed back, it gives them field for field. *)
Theorem webflow_export_round_trip clock data :
  Forall jsonSafeRecord data ->
  exists text,
    formatExportData clock data "webflow" = Js.Ok text /\
    parseJSON text = Some (Js.VObj [("items", recordsValue data)]).
Proof.
  intros Hall. exists (stringify EmptyString (Js.VObj [("items", recordsValue data)])).
  split; [reflexivity|].
  apply parse_stringify. constructor; [reflexivity|].
  constructor; [|constructor]. cbn [snd]. constructor.
  induction Hall as [|o rest Ho _ IH]; constructor; [|exact IH].
  now apply jsonSafeRecord_safe.
Qed.

Lemma ceilDiv_one n size : 1 <= size -> (ceilDiv n size = 1 <-> 1 <= n <= size).
Proof.
  intros Hs.
  pose proof (ceilDiv_gt n size 0 Hs) as H0.
  pose proof (ceilDiv_gt n size 1 Hs) as H1.
  split; intros H; [split|]; lia.
Qed.

(** X27. With a batch size of at least one, records that fit one batch are
    downloaded as a single file named after the time, with the extension
    of the format, and more records as an archive of at least two parts;
    without records nothing is downloaded. *)
Theorem export_is_one_file_or_an_archive clock timestamp data size format :
  1 <= size ->
  (data = [] ->
   startExport clock timestamp data size format = Nothing "Please crawl a website first") /\
  (1 <= List.length data <= size ->
   startExport clock timestamp data size format
   = match formatExportData (clock 0) data format with
     | Js.Throw msg => Fails msg
     | Js.Ok text =>
         File ("export-" ++ timestamp ++ "." ++ lookupExt format fileExtensions)%string text
     end) /\
  (size < List.length data ->
   startExport clock timestamp data size format
   = downloadBatchedFiles clock timestamp data size format /\
   2 <= ceilDiv (List.length data) size).
Proof.
  intros Hs. split; [intros ->; reflexivity|]. split.
  - intros Hfit. unfold startExport. destruct data as [|item rest]; [simpl in Hfit; lia|].
    assert (E : (0 <? size) && (ceilDiv (List.length (item :: rest)) size =? 1) = true).
    { apply andb_true_iff. split; [apply Nat.ltb_lt; lia|].
      apply Nat.eqb_eq, ceilDiv_one; assumption. }
    rewrite E. unfold downloadFile. reflexivity.
  - intros Hmore. unfold startExport. destruct data as [|item rest]; [simpl in Hmore; lia|].
    assert (E : (ceilDiv (List.length (item :: rest)) size =? 1) = false).
    { apply Nat.eqb_neq. rewrite ceilDiv_one by assumption. lia. }
    rewrite E, andb_false_r. split; [reflexivity|].
    apply (ceilDiv_gt _ size 1 Hs). lia.
Qed.

End ExportFacts.

Section HandleFacts.
Import Formatter Vocabulary.

(** A pass of [hyphenateRuns] leaves characters that were acceptable, or
    that it replaces, acceptable. *)
Lemma hyphenateRuns_chars (q p : ascii -> bool) :
  q "-"%char = true ->
  forall s inRun,
    Js.anyChar (fun c => negb (q c || p c)) s = false ->
    Js.anyChar (fun c => negb (q c)) (Js.hyphenateRuns p inRun s) = false.
Proof.
  intros Hq. induction s as [|c s IH]; intros inRun H; [reflexivity|].
  cbn [Js.anyChar] in H. apply orb_false_iff in H as [Hc Hs].
  cbn [Js.hyphenateRuns]. destruct (p c) eqn:Hp.
  - destruct inRun; [now apply IH|].
    cbn [Js.anyChar]. rewrite Hq. now apply IH.
  - cbn [Js.anyChar]. rewrite orb_false_r in Hc. rewrite Hc. now apply IH.
Qed.

(** Collapsing the runs of hyphens leaves no two hyphens side by side,
    and no hyphen in front when one came just before. *)
Lemma hyphens_collapsed : forall s inRun,
  Js.includes "--" (Js.hyphenateRuns (Ascii.eqb "-") inRun s) = false /\
  (inRun = true -> Js.startsWith "-" (Js.hyphenateRuns (Ascii.eqb "-") inRun s) = false).
Proof.
  induction s as [|c s IH]; intros inRun; [split; reflexivity|].
  cbn [Js.hyphenateRuns]. destruct (Ascii.eqb "-" c) eqn:Hc.
  - destruct inRun; [apply IH|].
    destruct (IH true) as [Hin Hst]. specialize (Hst eq_refl). split; [|discriminate].
    remember (Js.hyphenateRuns (Ascii.eqb "-") true s) as t eqn:Et.
    cbn [Js.includes]. rewrite Hin, orb_false_r.
    change (Js.startsWith "--" (String "-" t)) with (Ascii.eqb "-" "-" && Js.startsWith "-" t).
    rewrite Hst. reflexivity.
  - destruct (IH false) as [Hin _].
    remember (Js.hyphenateRuns (Ascii.eqb "-") false s) as t eqn:Et.
    split.
    + cbn [Js.includes]. rewrite Hin, orb_false_r.
      change (Js.startsWith "--" (String c t)) with (Ascii.eqb "-" c && Js.startsWith "-" t).
      rewrite Hc. reflexivity.
    + intros _.
      change (Js.startsWith "-" (String c t)) with (Ascii.eqb "-" c && Js.startsWith "" t).
      rewrite Hc. reflexivity.
Qed.

Lemma dropFinalHyphen_chars (q : ascii -> bool) : forall s,
  Js.anyChar (fun c => negb (q c)) s = false ->
  Js.anyChar (fun c => negb (q c)) (Js.dropFinalHyphen s) = false.
Proof.
  induction s as [|c s IH]; intros H; [reflexivity|].
  cbn [Js.anyChar] in H. apply orb_false_iff in H as [Hc Hs].
  destruct s as [|d s'].
  - cbn [Js.dropFinalHyphen]. destruct (Ascii.eqb c "-"); [reflexivity|].
    cbn [Js.anyChar]. now rewrite Hc.
  - change (Js.dropFinalHyphen (String c (String d s')))
      with (String c (Js.dropFinalHyphen (String d s'))).
    cbn [Js.anyChar]. rewrite Hc. now apply IH.
Qed.

Lemma dropFinalHyphen_start : forall s,
  Js.startsWith "-" s = false -> Js.startsWith "-" (Js.dropFinalHyphen s) = false.
Proof.
  intros [|c [|d s']] H; [reflexivity| |exact H].
  cbn [Js.dropFinalHyphen]. destruct (Ascii.eqb c "-"); [reflexivity|exact H].
Qed.

Lemma no_double_tail c s : Js.includes "--" (String c s) = false -> Js.includes "--" s = false.
Proof. cbn [Js.includes]. intros H. now apply orb_false_iff in H as [_ H]. Qed.

Lemma no_double_head s :
  Js.includes "--" (String "-" s) = false -> Js.startsWith "-" s = false.
Proof.
  cbn [Js.includes Js.startsWith]. intros H. apply orb_false_iff in H as [H _].
  destruct s as [|d s']; [reflexivity|]. exact H.
Qed.

Lemma dropFinalHyphen_no_double : forall s,
  Js.includes "--" s = false -> Js.includes "--" (Js.dropFinalHyphen s) = false.
Proof.
  induction s as [|c s IH]; intros H; [reflexivity|].
  destruct s as [|d s'].
  - cbn [Js.dropFinalHyphen]. destruct (Ascii.eqb c "-"); [reflexivity|exact H].
  - change (Js.dropFinalHyphen (String c (String d s')))
      with (String c (Js.dropFinalHyphen (String d s'))).
    pose proof (IH (no_double_tail _ _ H)) as Hrest.
    cbn [Js.includes]. rewrite Hrest, orb_false_r.
    cbn [Js.startsWith]. destruct (Ascii.eqb "-" c) eqn:Hc; [|reflexivity].
    apply Ascii.eqb_eq in Hc. subst c. cbn [andb].
    pose proof (dropFinalHyphen_start _ (no_double_head _ H)) as Hst.
    destruct (Js.dropFinalHyphen (String d s')); [reflexivity|exact Hst].
Qed.

Lemma dropFinalHyphen_end : forall s,
  Js.includes "--" s = false -> endsWithHyphen (Js.dropFinalHyphen s) = false.
Proof.
  induction s as [|c s IH]; intros H; [reflexivity|].
  destruct s as [|d s'].
  - cbn [Js.dropFinalHyphen]. destruct (Ascii.eqb c "-") eqn:Hc; [reflexivity|exact Hc].
  - change (Js.dropFinalHyphen (String c (String d s')))
      with (String c (Js.dropFinalHyphen (String d s'))).
    pose proof (IH (no_double_tail _ _ H)) as Hrest.
    destruct (Js.dropFinalHyphen (String d s')) as [|e t] eqn:E; [|exact Hrest].
    cbn [endsWithHyphen]. destruct (Ascii.eqb c "-") eqn:Hc; [|reflexivity].
    apply Ascii.eqb_eq in Hc. subst c. exfalso.
    pose proof (no_double_head _ H) as Hd. cbn [Js.startsWith] in Hd.
    destruct s' as [|e s''].
    + cbn [Js.dropFinalHyphen] in E. rewrite Ascii.eqb_sym in Hd.
      rewrite andb_true_r in Hd. rewrite Hd in E. discriminate E.
    + discriminate E.
Qed.

(** X28. The handle of a Shopify row is made of small letters, digits and
    hyphens only, with no hyphen at either end and no two hyphens side by
    side, whatever the title is. *)
Theorem shopify_handle_is_clean index item :
  let handle := rowGet "Handle" (shopifyRow index item) in
  Js.anyChar (fun c => negb (handleChar c)) handle = false /\
  Js.startsWith "-" handle = false /\
  endsWithHyphen handle = false /\
  Js.includes "--" handle = false.
Proof.
  unfold shopifyRow. cbn [rowGet String.eqb Ascii.eqb Bool.eqb]. cbv zeta.
  generalize (Js.toStr
                (Js.orElse (Js.get "title" item)
                           (Js.VStr ("Product " ++ Js.natToString (index + 1))))).
  intros title. unfold slug.
  set (once := Js.hyphenateRuns notSlugChar false (Js.toLowerCase title)).
  set (twice := Js.hyphenateRuns (Ascii.eqb "-") false once).
  assert (Honce : Js.anyChar (fun c => negb (handleChar c)) once = false).
  { apply hyphenateRuns_chars; [reflexivity|].
    generalize (Js.toLowerCase title). intros s. induction s as [|c s IH]; [reflexivity|].
    cbn [Js.anyChar]. rewrite IH, orb_false_r.
    unfold handleChar, notSlugChar.
    destruct (Js.isLower c || Js.isDigit c); destruct (Ascii.eqb c "-"); reflexivity. }
  assert (Htwice : Js.anyChar (fun c => negb (handleChar c)) twice = false).
  { apply hyphenateRuns_chars; [reflexivity|].
    revert Honce. generalize once. intros s. induction s as [|c s IH]; [reflexivity|].
    cbn [Js.anyChar]. intros H. apply orb_false_iff in H as [Hc Hs].
    apply negb_false_iff in Hc. rewrite Hc. cbn [orb negb]. now apply IH. }
  destruct (hyphens_collapsed once false) as [Hdouble _]. fold twice in Hdouble.
  unfold Js.stripEdgeHyphens. destruct twice as [|c rest]; [repeat split|].
  destruct (Ascii.eqb c "-") eqn:Hc.
  - apply Ascii.eqb_eq in Hc. subst c.
    cbn [Js.anyChar] in Htwice. apply orb_false_iff in Htwice as [_ Hrest].
    split; [now apply dropFinalHyphen_chars|].
    split; [apply dropFinalHyphen_start, no_double_head, Hdouble|].
    split; [apply dropFinalHyphen_end|apply dropFinalHyphen_no_double];
      exact (no_double_tail _ _ Hdouble).
  - split; [now apply dropFinalHyphen_chars|].
    split.
    + apply dropFinalHyphen_start. cbn [Js.startsWith].
      rewrite Ascii.eqb_sym, Hc. reflexivity.
    + split; [now apply dropFinalHyphen_end|now apply dropFinalHyphen_no_double].
Qed.

End HandleFacts.

Section MoreFormatterExamples.
Import Formatter Samples Vocabulary.

Lemma generic_csv_rows_follow_records_witness :
  csvWidths (convertToCSV [product "a, b"; [("title", Js.VNull)]; []]) = [2; 2; 1; 1].
Proof.
  rewrite generic_csv_rows_follow_records.
  - reflexivity.
  - repeat constructor.
  - repeat constructor.
Defined.

(** An array is printed with commas between its elements and spreads over
    as many columns. *)
Example array_value_spreads_over_columns :
  csvWidths (convertToCSV [[("tags", Js.VArr [Js.VStr "a"; Js.VStr "b"]);
                            ("stock", Js.VNum "1")]]) = [2; 3].
Proof. vm_compute. reflexivity. Qed.


(** A title that is the Number zero is falsy: the post gets a numbered
    title and the export goes through. *)
Example zero_title_is_replaced :
  exists text,
    formatExportData (stoppedClock 0) [[("title", Js.VNum "0")]] "squarespace" = Js.Ok text /\
    Js.includes "<title><![CDATA[Post 1]]></title>" text = true.
Proof. eexists. split; [reflexivity|vm_compute; reflexivity]. Qed.

Lemma webflow_export_round_trip_witness :
  exists text,
    formatExportData (stoppedClock 0) [mixedRecord; product "P"] "webflow" = Js.Ok text /\
    parseJSON text = Some (Js.VObj [("items", recordsValue [mixedRecord; product "P"])]).
Proof.
  apply (webflow_export_round_trip (stoppedClock 0) [mixedRecord; product "P"]).
  repeat constructor.
Defined.

Lemma export_is_one_file_or_an_archive_witness :
  startExport stoppedClock "17" [product "A"; product "B"; product "C"] 2 "csv"
  = downloadBatchedFiles stoppedClock "17" [product "A"; product "B"; product "C"] 2 "csv".
Proof.
  destruct (export_is_one_file_or_an_archive stoppedClock "17"
              [product "A"; product "B"; product "C"] 2 "csv") as (_ & _ & H).
  - lia.
  - destruct H as [H _]; [simpl; lia|exact H].
Defined.

Example shopify_handle_of_awkward_title :
  rowGet "Handle" (shopifyRow 0 [("title", Js.VStr "  --Blue  Shoe (Size 9)!-- ")])
  = "blue-shoe-size-9".
Proof. vm_compute. reflexivity. Qed.

End MoreFormatterExamples.

(* ================================================================== *)
(** * Properties: names and paths in the URL tree *)
(* ================================================================== *)

Section UrlTreeShapeFacts.
Import UrlTree Vocabulary.

Variable parse : Parser.

(** ** Names *)

Lemma nodes_distinct n : Forall distinct (nodesOf n) <-> namesOk (children n).
Proof.
  destruct n as [us cs c p]. cbn [nodesOf children]. unfold namesOk.
  rewrite Forall_cons_iff, Forall_flat_map. unfold distinct at 1. cbn [children]. tauto.
Qed.

Lemma findChild_none part : forall cs,
  findChild part cs = None <-> ~ In part (map fst cs).
Proof.
  induction cs as [|[k n] cs IH]; simpl; [tauto|].
  destruct (String.eqb_spec part k) as [-> |N].
  - split; [discriminate|]. intros H. exfalso. apply H. now left.
  - rewrite IH. split; [intros H [E|Hin]; [congruence|auto]|auto].
Qed.

Lemma findChild_some part node : forall cs,
  findChild part cs = Some node -> In (part, node) cs.
Proof.
  induction cs as [|[k n] cs IH]; simpl; [discriminate|].
  destruct (String.eqb_spec part k) as [-> |N]; intros H.
  - inversion H. now left.
  - right. now apply IH.
Qed.

Lemma keys_replaceChild part n : forall cs,
  map fst (replaceChild part n cs) = map fst cs.
Proof.
  induction cs as [|[k m] cs IH]; simpl; [reflexivity|].
  destruct (String.eqb part k); simpl; [reflexivity|now rewrite IH].
Qed.

Lemma Forall_replaceChild (R : TreeNode -> Prop) part n : forall cs,
  R n -> Forall (fun kc => R (snd kc)) cs ->
  Forall (fun kc => R (snd kc)) (replaceChild part n cs).
Proof.
  induction cs as [|[k m] cs IH]; intros Hn H; simpl; [constructor|].
  inversion H; subst. destruct (String.eqb part k); constructor; auto.
Qed.

Lemma Permutation_placeNew {A : Type} k (v : A) : forall o,
  Permutation (Js.placeNew k v o) ((k, v) :: o).
Proof.
  induction o as [|[k' v'] o IH]; simpl; [reflexivity|].
  destruct (Js.listedBefore k k'); [reflexivity|].
  rewrite IH. apply perm_swap.
Qed.

Lemma insertPath_names url : forall parts here cs,
  namesOk cs -> namesOk (insertPath parts here url cs).
Proof.
  induction parts as [|part rest IH]; intros here cs [Hnd Hall]; [split; assumption|].
  cbn [insertPath].
  assert (Hvisit : forall node,
             Forall distinct (nodesOf node) ->
             Forall distinct
               (nodesOf
                  (setChildren
                     (insertPath rest (here ++ "/" ++ part)%string url
                        (children match rest with [] => addUrl url node | _ :: _ => node end))
                     match rest with [] => addUrl url node | _ :: _ => node end))).
  { intros node Hnode. apply nodes_distinct in Hnode.
    apply nodes_distinct. destruct node as [us cs' c p].
    destruct rest; cbn [setChildren addUrl children] in *; now apply IH. }
  destruct (findChild part cs) as [node|] eqn:Hf.
  - split; [now rewrite keys_replaceChild|].
    apply (Forall_replaceChild (fun n => Forall distinct (nodesOf n))); [|exact Hall].
    apply Hvisit. apply findChild_some in Hf.
    rewrite Forall_forall in Hall. exact (Hall _ Hf).
  - destruct (inherited part); [split; assumption|].
    apply findChild_none in Hf. split.
    + eapply Permutation_NoDup.
      * symmetry. apply Permutation_map, Permutation_placeNew.
      * cbn [map fst]. now constructor.
    + eapply Permutation_Forall; [symmetry; apply Permutation_placeNew|].
      constructor; [|exact Hall]. cbn [snd]. apply Hvisit.
      apply nodes_distinct. split; constructor.
Qed.

Lemma updateCounts_names : forall n,
  Forall distinct (nodesOf n) -> Forall distinct (nodesOf (updateCounts n)).
Proof.
  induction n as [us cs c p IH] using TreeNode_nested_ind.
  intros H. apply nodes_distinct in H. destruct H as [Hnd Hall].
  apply nodes_distinct. cbn [updateCounts children urls path]. split.
  - rewrite map_map. cbn [fst]. exact Hnd.
  - clear Hnd. induction IH as [|kc rest Hk _ IHrest]; [constructor|].
    inversion Hall; subst. constructor; cbn [snd]; auto.
Qed.

Lemma insertUrl_names key node url :
  Forall distinct (nodesOf node) -> Forall distinct (nodesOf (insertUrl parse key node url)).
Proof.
  intros H. unfold insertUrl. destruct (parse url) as [u|]; [|exact H].
  apply nodes_distinct in H. apply nodes_distinct.
  destruct node as [us cs c p].
  destruct (pathPartsOf u); cbn [addUrl setChildren children] in *; [exact H|].
  now apply insertPath_names.
Qed.

Lemma keys_pushTo key url : forall groups,
  NoDup (map fst groups) -> NoDup (map fst (pushTo key url groups)).
Proof.
  induction groups as [|[k us] groups IH]; intros H; simpl.
  - repeat constructor. intros [].
  - inversion H as [|? ? Hk Hrest]; subst.
    destruct (String.eqb_spec key k) as [-> |N]; [exact H|].
    cbn [map fst]. constructor; [|now apply IH].
    intros Hin. apply Hk. clear -Hin N.
    induction groups as [|[k' us'] groups IH]; simpl in *.
    + destruct Hin as [E|[]]. congruence.
    + destruct (String.eqb_spec key k') as [-> |N']; simpl in *; [exact Hin|].
      destruct Hin as [E|Hin]; [now left|right; now apply IH].
Qed.

Lemma keys_groupByDomain input : NoDup (map fst (groupByDomain parse input)).
Proof.
  unfold groupByDomain.
  assert (H : forall groups, NoDup (map fst groups) ->
                             NoDup (map fst (fold_left (groupStep parse) input groups))).
  { induction input as [|url input IH]; intros groups Hg; [exact Hg|].
    cbn [fold_left]. apply IH. unfold groupStep.
    destruct (parse url); [now apply keys_pushTo|exact Hg]. }
  apply H. constructor.
Qed.

(** X29. The tree is made of objects: no two roots share a domain key, and at
    no node do two children share a name, whatever the input. *)
Theorem buildUrlTree_names_are_distinct input :
  NoDup (map fst (buildUrlTree parse input)) /\
  Forall distinct (allNodes (buildUrlTree parse input)).
Proof.
  unfold buildUrlTree. split.
  - rewrite !map_map. cbn [fst buildDomain]. apply keys_groupByDomain.
  - unfold allNodes. apply Forall_flat_map, Forall_map, Forall_map, Forall_forall.
    intros [key us] _. cbn [snd buildDomain fst].
    apply updateCounts_names.
    assert (H : forall node,
               Forall distinct (nodesOf node) ->
               Forall distinct (nodesOf (fold_left (insertUrl parse key) us node))).
    { induction us as [|url us IH]; intros node Hn; [exact Hn|].
      cbn [fold_left]. apply IH. now apply insertUrl_names. }
    specialize (H (emptyNode key)).
    destruct (fold_left (insertUrl parse key) us (emptyNode key)) as [us' cs c p].
    apply nodes_distinct. cbn [setCount children].
    apply (proj1 (nodes_distinct (mkNode us' cs c p))), H.
    apply nodes_distinct. split; constructor.
Qed.

(** ** Paths *)

Lemma pathsFollow_follows n : pathsFollow n = follows (path n) (children n).
Proof. destruct n. reflexivity. Qed.

Lemma follows_replaceChild here part n cs :
  path n = (here ++ "/" ++ part)%string -> pathsFollow n = true ->
  follows here cs = true -> follows here (replaceChild part n cs) = true.
Proof.
  intros Hp Hn. unfold follows.
  induction cs as [|[k m] cs IH]; intros H; simpl in *; [reflexivity|].
  apply andb_true_iff in H as [Hm Hcs].
  destruct (String.eqb_spec part k) as [-> |N]; simpl.
  - rewrite Hp, String.eqb_refl, Hn, Hcs. reflexivity.
  - rewrite Hm. now apply IH.
Qed.

Lemma follows_placeNew here part n cs :
  path n = (here ++ "/" ++ part)%string -> pathsFollow n = true ->
  follows here cs = true -> follows here (Js.placeNew part n cs) = true.
Proof.
  intros Hp Hn. unfold follows.
  induction cs as [|[k m] cs IH]; intros H; simpl in *.
  - rewrite Hp, String.eqb_refl, Hn. reflexivity.
  - destruct (Js.listedBefore part k); simpl.
    + rewrite Hp, String.eqb_refl, Hn. exact H.
    + apply andb_true_iff in H as [Hm Hcs]. rewrite Hm. now apply IH.
Qed.

Lemma follows_findChild here part node : forall cs,
  follows here cs = true -> findChild part cs = Some node ->
  path node = (here ++ "/" ++ part)%string /\ pathsFollow node = true.
Proof.
  unfold follows. induction cs as [|[k m] cs IH]; simpl; intros H Hf; [discriminate|].
  apply andb_true_iff in H as [Hm Hcs].
  destruct (String.eqb_spec part k) as [-> |N].
  - inversion Hf; subst. apply andb_true_iff in Hm as [Hp Hn].
    apply String.eqb_eq in Hp. auto.
  - now apply IH.
Qed.

Lemma insertPath_follows url : forall parts here cs,
  follows here cs = true -> follows here (insertPath parts here url cs) = true.
Proof.
  induction parts as [|part rest IH]; intros here cs H; [exact H|].
  cbn [insertPath].
  assert (Hvisit : forall node,
             path node = (here ++ "/" ++ part)%string -> pathsFollow node = true ->
             let visited :=
               setChildren
                 (insertPath rest (here ++ "/" ++ part)%string url
                    (children match rest with [] => addUrl url node | _ :: _ => node end))
                 match rest with [] => addUrl url node | _ :: _ => node end in
             path visited = (here ++ "/" ++ part)%string /\ pathsFollow visited = true).
  { intros node Hp Hn. rewrite pathsFollow_follows in Hn.
    destruct node as [us cs' c p]. cbn [path children] in *. subst p.
    destruct rest; cbn [setChildren addUrl children path urls count];
      (split; [reflexivity|]); rewrite pathsFollow_follows; cbn [path children];
      now apply IH. }
  destruct (findChild part cs) as [node|] eqn:Hf.
  - destruct (follows_findChild _ _ _ _ H Hf) as [Hp Hn].
    destruct (Hvisit node Hp Hn) as [Hp' Hn']. now apply follows_replaceChild.
  - destruct (inherited part); [exact H|].
    destruct (Hvisit (emptyNode (here ++ "/" ++ part)%string) eq_refl eq_refl) as [Hp' Hn'].
    now apply follows_placeNew.
Qed.

Lemma updateCounts_follows : forall n,
  pathsFollow n = true ->
  path (updateCounts n) = path n /\ pathsFollow (updateCounts n) = true.
Proof.
  induction n as [us cs c p IH] using TreeNode_nested_ind.
  intros H. split; [reflexivity|].
  rewrite pathsFollow_follows in *. cbn [updateCounts path children] in *.
  unfold follows in *.
  induction IH as [|kc rest Hk _ IHrest]; [reflexivity|].
  cbn [forallb map fst snd] in *. apply andb_true_iff in H as [Hkc Hrest].
  apply andb_true_iff in Hkc as [Hp Hn].
  destruct (Hk Hn) as [Hp' Hn']. rewrite Hp', Hp, Hn'. now apply IHrest.
Qed.

Lemma insertUrl_follows key node url :
  path node = key -> pathsFollow node = true ->
  path (insertUrl parse key node url) = key /\
  pathsFollow (insertUrl parse key node url) = true.
Proof.
  intros Hp Hn. unfold insertUrl. destruct (parse url) as [u|]; [|auto].
  rewrite pathsFollow_follows in Hn. destruct node as [us cs c p].
  cbn [path children] in *. subst p.
  destruct (pathPartsOf u); cbn [addUrl setChildren path children urls count];
    (split; [reflexivity|]); rewrite pathsFollow_follows; cbn [path children];
    [exact Hn|now apply insertPath_follows].
Qed.

(** X30. The path of a root is its domain key, and below it the path of every
    node is the path of its parent, a slash and the name of the node: the
    place a node is listed at is the place its path says. *)
Theorem buildUrlTree_paths_follow_names input key node :
  In (key, node) (buildUrlTree parse input) ->
  path node = key /\ pathsFollow node = true.
Proof.
  unfold buildUrlTree. rewrite map_map. intros Hin.
  apply in_map_iff in Hin as ([k us] & E & _).
  cbn [buildDomain fst snd] in E. inversion E; subst; clear E.
  assert (H : forall node,
             path node = key -> pathsFollow node = true ->
             path (fold_left (insertUrl parse key) us node) = key /\
             pathsFollow (fold_left (insertUrl parse key) us node) = true).
  { induction us as [|url us IH]; intros node Hp Hn; [auto|].
    cbn [fold_left]. destruct (insertUrl_follows key node url Hp Hn). now apply IH. }
  destruct (H (emptyNode key) eq_refl eq_refl) as [Hp Hn].
  destruct (fold_left (insertUrl parse key) us (emptyNode key)) as [us' cs c p].
  cbn [path] in Hp. subst p.
  destruct (updateCounts_follows (setCount (List.length us) (mkNode us' cs c key))) as [Hp' Hn'].
  - rewrite pathsFollow_follows in *. exact Hn.
  - split; [exact Hp'|exact Hn'].
Qed.

End UrlTreeShapeFacts.

Section UrlTreeShapeExamples.
Import UrlTree Vocabulary Fixtures.

Lemma buildUrlTree_paths_follow_names_witness :
  path shopRoot = "https://shop.example" /\ pathsFollow shopRoot = true.
Proof.
  apply (buildUrlTree_paths_follow_names plainUrl
           ["https://shop.example/a/x"; "https://shop.example/a/y"; "https://shop.example/b"]).
  vm_compute. left. reflexivity.
Defined.

(** The paths of the sample tree. *)
Example paths_of_the_sample_tree :
  map path (allNodes shopTree)
  = ["https://shop.example"; "https://shop.example/a"; "https://shop.example/a/x";
     "https://shop.example/a/y"; "https://shop.example/b"].
Proof. vm_compute. reflexivity. Qed.

(** Names that are array indices come first among the children. *)
Example index_names_are_listed_first :
  map fst (children
             (snd (hd (EmptyString, emptyNode EmptyString)
                      (buildUrlTree plainUrl
                         ["https://shop.example/news"; "https://shop.example/2024";
                          "https://shop.example/7"]))))
  = ["7"; "2024"; "news"].
Proof. vm_compute. reflexivity. Qed.

End UrlTreeShapeExamples.

(* ================================================================== *)
(** * Properties: titles are single lines *)
(* ================================================================== *)

Section TitleLineFacts.
Import Regex Crawl Vocabulary.

(** What a repetition of a character class consumes satisfies the class;
    it records no capture. *)
Lemma repeat_class (p : ascii -> bool) : forall fuel lo hi (k : Cont) st z,
  repeat (run (Cls p)) fuel lo hi k st = Some z ->
  exists st' pre,
    k st' = Some z /\ caps st' = caps st /\
    rest st = (pre ++ rest st')%string /\
    Js.anyChar (fun c => negb (p c)) pre = false.
Proof.
  induction fuel as [|fuel IH]; intros lo hi k st z H; [discriminate|].
  cbn [repeat] in H.
  assert (Hstop : k st = Some z ->
                  exists st' pre,
                    k st' = Some z /\ caps st' = caps st /\
                    rest st = (pre ++ rest st')%string /\
                    Js.anyChar (fun c => negb (p c)) pre = false).
  { intros Hk. exists st, EmptyString. auto. }
  assert (Hbody : forall z',
             run (Cls p)
                 (fun st' =>
                    if (lo =? 0) && (String.length (rest st') =? String.length (rest st))
                    then None
                    else repeat (run (Cls p)) fuel (pred lo) (option_map pred hi) k st') st
             = Some z' ->
             exists st' pre,
               k st' = Some z' /\ caps st' = caps st /\
               rest st = (pre ++ rest st')%string /\
               Js.anyChar (fun c => negb (p c)) pre = false).
  { intros z' Hz. cbn [run] in Hz.
    destruct (rest st) as [|c s'] eqn:Hrest; [discriminate|].
    destruct (p c) eqn:Hc; [|discriminate].
    destruct ((lo =? 0) && _); [discriminate|].
    apply IH in Hz as (st' & pre & Hk & Hcaps & Hpre & Hall).
    cbn [rest caps] in *. exists st', (String c pre).
    split; [exact Hk|]. split; [exact Hcaps|]. split; [now rewrite Hpre|].
    cbn [Js.anyChar]. now rewrite Hc, Hall. }
  destruct hi as [[|h]|].
  - now apply Hstop.
  - destruct (lo =? 0); [|now apply Hbody].
    match type of H with
    | match ?b with Some _ => _ | None => _ end = _ => destruct b as [z'|] eqn:Hb
    end; [inversion H; subst; now apply Hbody|now apply Hstop].
  - destruct (lo =? 0); [|now apply Hbody].
    match type of H with
    | match ?b with Some _ => _ | None => _ end = _ => destruct b as [z'|] eqn:Hb
    end; [inversion H; subst; now apply Hbody|now apply Hstop].
Qed.

Lemma take_prefix pre : forall tail,
  Js.take (String.length (pre ++ tail) - String.length tail) (pre ++ tail) = pre.
Proof.
  intros tail. rewrite string_length_append.
  replace (String.length pre + String.length tail - String.length tail)
    with (String.length pre) by lia.
  induction pre as [|c pre IH]; simpl; [now destruct tail|now rewrite IH].
Qed.

(** Group 1 of a heading pattern, [(.+)] before the end of the line, holds
    no line terminator. *)
Lemma heading_group (k : Cont) st z :
  (forall st', k st' = Some z -> caps z = caps st') ->
  run (Grp 1 (plus dot)) k st = Some z ->
  exists text,
    group 1 (caps z) = Some text /\ Js.anyChar Js.isLineTerminator text = false.
Proof.
  intros Hk H. cbn [run plus dot] in H.
  apply repeat_class in H as (st' & pre & Hz & _ & Hrest & Hall).
  apply Hk in Hz. cbn [caps rest] in Hz.
  exists pre. split.
  - rewrite Hz. cbn [group Nat.eqb]. f_equal. rewrite Hrest. apply take_prefix.
  - rewrite <- Hall. clear. induction pre as [|c pre IH]; [reflexivity|].
    cbn [Js.anyChar]. now rewrite negb_involutive, IH.
Qed.

Lemma eol_keeps st z : run Eol Some st = Some z -> caps z = caps st.
Proof.
  cbn [run]. destruct (rest st) as [|c s]; [intros H; now inversion H|].
  destruct (Js.isLineTerminator c); [intros H; now inversion H|discriminate].
Qed.

Lemma run_Cat r1 r2 (k : Cont) : run (Cat r1 r2) k = run r1 (run r2 k).
Proof. reflexivity. Qed.

Lemma run_Bol (k : Cont) st z : run Bol k st = Some z -> k st = Some z.
Proof.
  cbn [run]. destruct (prev st) as [c|]; [|auto].
  destruct (Js.isLineTerminator c); [auto|discriminate].
Qed.

Lemma run_class p (k : Cont) st z :
  run (Cls p) k st = Some z -> exists st', k st' = Some z.
Proof.
  cbn [run]. destruct (rest st) as [|c s]; [discriminate|].
  destruct (p c); [eauto|discriminate].
Qed.

Lemma run_classes p lo hi (k : Cont) st z :
  run (Rep lo hi (Cls p)) k st = Some z -> exists st', k st' = Some z.
Proof.
  cbn [run]. intros H. apply repeat_class in H as (st' & pre & Hk & _). eauto.
Qed.

Lemma heading_match hashes p s m :
  matchAt (seq [Bol; lit hashes; plus space; Grp 1 (plus dot); Eol]) p s = Some m ->
  hashes = "#" \/ hashes = "##" ->
  Js.anyChar Js.isLineTerminator (group1 m) = false.
Proof.
  unfold matchAt. intros H Hh.
  destruct (run _ Some (mkState p s [])) as [z|] eqn:Hrun; [|discriminate].
  inversion H; subst; clear H. unfold group1. cbn [groups].
  assert (Hgroup : exists st,
             run (Grp 1 (plus dot)) (run Eol Some) st = Some z).
  { cbn [seq] in Hrun. rewrite !run_Cat in Hrun. apply run_Bol in Hrun.
    destruct Hh as [-> | ->]; cbn [lit] in Hrun; rewrite ?run_Cat in Hrun;
      unfold chr in Hrun;
      repeat match type of Hrun with
             | run (Cls _) _ _ = Some _ => apply run_class in Hrun as [? Hrun]
             end;
      unfold plus at 1, space in Hrun; apply run_classes in Hrun as [st Hrun]; eauto. }
  destruct Hgroup as [st Hst].
  destruct (heading_group _ st z (fun st' => eol_keeps st' z) Hst) as (text & Hg & Hall).
  now rewrite Hg.
Qed.

Lemma heading_search hashes : forall s p m,
  searchFrom (seq [Bol; lit hashes; plus space; Grp 1 (plus dot); Eol]) p s = Some m ->
  hashes = "#" \/ hashes = "##" ->
  Js.anyChar Js.isLineTerminator (group1 m) = false.
Proof.
  induction s as [|c s IH]; intros p m H Hh; cbn [searchFrom] in H.
  - destruct (matchAt _ p EmptyString) as [m'|] eqn:Hm; [|discriminate].
    inversion H; subst. eapply heading_match; eauto.
  - destruct (matchAt _ p (String c s)) as [m'|] eqn:Hm.
    + inversion H; subst. eapply heading_match; eauto.
    + eapply IH; eauto.
Qed.

Lemma trimStart_chars (q : ascii -> bool) : forall s,
  Js.anyChar q s = false -> Js.anyChar q (Js.trimStart s) = false.
Proof.
  induction s as [|c s IH]; intros H; [reflexivity|].
  cbn [Js.trimStart]. destruct (Js.isSpace c); [|exact H].
  cbn [Js.anyChar] in H. apply orb_false_iff in H as [_ H]. now apply IH.
Qed.

Lemma trimEnd_chars (q : ascii -> bool) : forall s,
  Js.anyChar q s = false -> Js.anyChar q (Js.trimEnd s) = false.
Proof.
  induction s as [|c s IH]; intros H; [reflexivity|].
  cbn [Js.anyChar] in H. apply orb_false_iff in H as [Hc Hs].
  cbn [Js.trimEnd]. specialize (IH Hs).
  destruct (Js.trimEnd s) as [|d t].
  - destruct (Js.isSpace c); [reflexivity|]. cbn [Js.anyChar]. now rewrite Hc.
  - cbn [Js.anyChar] in *. now rewrite Hc, IH.
Qed.

Lemma trim_chars (q : ascii -> bool) s :
  Js.anyChar q s = false -> Js.anyChar q (Js.trim s) = false.
Proof. intros H. unfold Js.trim. now apply trimEnd_chars, trimStart_chars. Qed.

Lemma first_piece sep : forall s acc,
  Js.anyChar (Ascii.eqb sep) acc = false ->
  Js.anyChar (Ascii.eqb sep) (hd EmptyString (Js.splitAcc sep acc s)) = false.
Proof.
  induction s as [|c s IH]; intros acc H; cbn [Js.splitAcc]; [exact H|].
  destruct (Ascii.eqb c sep) eqn:Hc; [exact H|].
  apply IH. clear IH. induction acc as [|a acc IHacc].
  - cbn. now rewrite Ascii.eqb_sym, Hc.
  - cbn [String.append Js.anyChar] in *. apply orb_false_iff in H as [Ha Hacc].
    now rewrite Ha, IHacc.
Qed.

Lemma no_terminator_no_lf s :
  Js.anyChar Js.isLineTerminator s = false -> Js.anyChar (Ascii.eqb Js.LF) s = false.
Proof.
  induction s as [|c s IH]; [reflexivity|]. cbn [Js.anyChar]. intros H.
  apply orb_false_iff in H as [Hc Hs]. unfold Js.isLineTerminator in Hc.
  apply orb_false_iff in Hc as [Hlf _]. rewrite Ascii.eqb_sym, Hlf. now apply IH.
Qed.

(** X8. The title taken from the markdown of a page is one trimmed line,
    whichever of the three sources it comes from: it holds no line feed
    and neither begins nor ends with white space. When it comes from a
    heading it holds no carriage return either. *)
Theorem title_is_a_single_line markdown :
  Js.anyChar (Ascii.eqb Js.LF) (extractTitleFromMarkdown markdown) = false /\
  startsWithSpace (extractTitleFromMarkdown markdown) = false /\
  endsWithSpace (extractTitleFromMarkdown markdown) = false /\
  (forall m,
     search h1Pattern markdown = Some m \/
     (search h1Pattern markdown = None /\ search h2Pattern markdown = Some m) ->
     Js.anyChar Js.isLineTerminator (extractTitleFromMarkdown markdown) = false).
Proof.
  assert (Htrim := title_is_trimmed markdown).
  cut (Js.anyChar (Ascii.eqb Js.LF) (extractTitleFromMarkdown markdown) = false /\
       (forall m,
          search h1Pattern markdown = Some m \/
          (search h1Pattern markdown = None /\ search h2Pattern markdown = Some m) ->
          Js.anyChar Js.isLineTerminator (extractTitleFromMarkdown markdown) = false));
    [tauto|clear Htrim].
  unfold extractTitleFromMarkdown, search, h1Pattern, h2Pattern.
  change (seq [Bol; chr "#"; plus space; Grp 1 (plus dot); Eol])
    with (seq [Bol; lit "#"; plus space; Grp 1 (plus dot); Eol]).
  destruct (searchFrom (seq [Bol; lit "#"; plus space; Grp 1 (plus dot); Eol]) None markdown)
    as [m1|] eqn:H1.
  { pose proof (heading_search "#" _ _ _ H1 (or_introl eq_refl)) as Hm.
    split; [now apply no_terminator_no_lf, trim_chars|].
    intros m _. now apply trim_chars. }
  destruct (searchFrom (seq [Bol; lit "##"; plus space; Grp 1 (plus dot); Eol]) None markdown)
    as [m2|] eqn:H2.
  { pose proof (heading_search "##" _ _ _ H2 (or_intror eq_refl)) as Hm.
    split; [now apply no_terminator_no_lf, trim_chars|].
    intros m _. now apply trim_chars. }
  split; [|intros m [H|[_ H]]; discriminate H].
  pose proof (first_piece Js.LF markdown EmptyString eq_refl) as Hfirst.
  unfold Js.split. destruct (Js.splitAcc Js.LF EmptyString markdown); [reflexivity|].
  now apply trim_chars.
Qed.

End TitleLineFacts.

Section TitleLineExamples.
Import Regex Crawl.

Lemma title_is_a_single_line_witness :
  Js.anyChar Js.isLineTerminator
    (extractTitleFromMarkdown
       (Formatter.lines ["intro"; "## Second"; "#  Hello World "; "more"])) = false.
Proof.
  destruct (title_is_a_single_line
              (Formatter.lines ["intro"; "## Second"; "#  Hello World "; "more"]))
    as (_ & _ & _ & H).
  apply (H (mkMatch "#  Hello World " [(1, "Hello World ")])).
  left. vm_compute. reflexivity.
Defined.

(** A no-break space around the first line is trimmed away. *)
Example first_line_loses_no_break_space :
  extractTitleFromMarkdown (String (ascii_of_nat 160) "a" ++ String (ascii_of_nat 160) "")
  = "a".
Proof. vm_compute. reflexivity. Qed.

(** A first line that is no heading keeps a carriage return inside it. *)
Example first_line_keeps_carriage_return :
  extractTitleFromMarkdown ("a" ++ String Js.CR "b" ++ String Js.LF "c")
  = ("a" ++ String Js.CR "b")%string.
Proof. vm_compute. reflexivity. Qed.

End TitleLineExamples.
